(** * InboxWrangler: identity resolution, sender importance, message tracking
      and the scoring / recommendation engine

    A shallow embedding of [analyzer.py], [scorer.py] and [organizer.py].

    Conventions of the embedding.
    - Python [str] values are byte strings ([string]); case mapping and the
      character classes of the regular expressions are those of ASCII.
    - Python [float] values are exact rationals ([Q]); rounding is not
      modelled, comparisons are the exact ones and equalities of scores are
      stated with [==].
    - Naive [datetime] values are integers counting seconds; [timedelta.days]
      is the floor of the difference divided by 86400.
    - A [dict] that is only read and written by key is a [gmap]; a [dict] or
      [set] that the code iterates over is a list in iteration order.
    - Attribute reads on Outlook items and calls into collaborators may raise;
      code that can raise lives in the error monad [pyres]. *)

From Stdlib Require Import ZArith QArith Qminmax Lqa Lia String Ascii List Bool.
From stdpp Require Import gmap strings list fin_maps.
Import ListNotations.

(* ===================================================================== *)
(** * Python primitives used by the three modules *)
(* ===================================================================== *)

Module Py.
Local Open Scope string_scope.

(** ** Characters and strings *)

Definition in_range (lo hi : nat) (c : ascii) : bool :=
  let n := nat_of_ascii c in (lo <=? n)%nat && (n <=? hi)%nat.

Definition is_upper (c : ascii) : bool := in_range 65 90 c.
Definition is_lower (c : ascii) : bool := in_range 97 122 c.
Definition is_digit (c : ascii) : bool := in_range 48 57 c.

Definition lower_char (c : ascii) : ascii :=
  if is_upper c then ascii_of_nat (nat_of_ascii c + 32) else c.

Definition upper_char (c : ascii) : ascii :=
  if is_lower c then ascii_of_nat (nat_of_ascii c - 32) else c.

(** [str.lower()] *)
Fixpoint lower (s : string) : string :=
  match s with
  | EmptyString => EmptyString
  | String c s' => String (lower_char c) (lower s')
  end.

(** [str.capitalize()]: first character upper case, the rest lower case. *)
Definition capitalize (s : string) : string :=
  match s with
  | EmptyString => EmptyString
  | String c s' => String (upper_char c) (lower s')
  end.

(** [c in s] for a single character. *)
Fixpoint has_char (c : ascii) (s : string) : bool :=
  match s with
  | EmptyString => false
  | String d s' => Ascii.eqb c d || has_char c s'
  end.

Definition at_sign : ascii := "@"%char.

(** ['@' in s] *)
Definition has_at (s : string) : bool := has_char at_sign s.

(** [s.startswith(p)] *)
Fixpoint startswith (s p : string) : bool :=
  match p, s with
  | EmptyString, _ => true
  | String a p', String b s' => Ascii.eqb a b && startswith s' p'
  | String _ _, EmptyString => false
  end.

(** [p in s] for strings (substring test; the empty string is in every
    string). *)
Fixpoint contains (s p : string) : bool :=
  startswith s p ||
  match s with
  | EmptyString => false
  | String _ s' => contains s' p
  end.

(** [s[1:]] *)
Definition tail (s : string) : string :=
  match s with
  | EmptyString => EmptyString
  | String _ s' => s'
  end.

(** [s[:n]] *)
Fixpoint take (n : nat) (s : string) : string :=
  match n, s with
  | O, _ => EmptyString
  | _, EmptyString => EmptyString
  | S n', String c s' => String c (take n' s')
  end.

Fixpoint rev_onto (s acc : string) : string :=
  match s with
  | EmptyString => acc
  | String c s' => rev_onto s' (String c acc)
  end.

Definition rev (s : string) : string := rev_onto s EmptyString.

(** [str.isspace()] on one character. *)
Definition is_space (c : ascii) : bool :=
  in_range 9 13 c || in_range 28 32 c.

Fixpoint lstrip (s : string) : string :=
  match s with
  | EmptyString => EmptyString
  | String c s' => if is_space c then lstrip s' else s
  end.

(** [str.strip()] *)
Definition strip (s : string) : string := rev (lstrip (rev (lstrip s))).

(** [s.split(sep)] for a one-character separator: every occurrence splits,
    so the result has one more element than there are separators. *)
Fixpoint split_on (sep : ascii) (s : string) (cur : string) : list string :=
  match s with
  | EmptyString => [rev cur]
  | String c s' =>
      if Ascii.eqb c sep then rev cur :: split_on sep s' EmptyString
      else split_on sep s' (String c cur)
  end.

Definition split (sep : ascii) (s : string) : list string :=
  split_on sep s EmptyString.

(** [l[0]] and [l[-1]] on the non-empty lists that [split] returns. *)
Definition first (l : list string) : string := List.hd EmptyString l.
Definition last (l : list string) : string := List.last l EmptyString.

(** [re.split(r'[._-]', s)] *)
Definition is_local_sep (c : ascii) : bool :=
  Ascii.eqb c "."%char || Ascii.eqb c "_"%char || Ascii.eqb c "-"%char.

Fixpoint split_class (sep : ascii -> bool) (s : string) (cur : string)
  : list string :=
  match s with
  | EmptyString => [rev cur]
  | String c s' =>
      if sep c then rev cur :: split_class sep s' EmptyString
      else split_class sep s' (String c cur)
  end.

Definition split_local (s : string) : list string :=
  split_class is_local_sep s EmptyString.

(** [\w] *)
Definition is_word (c : ascii) : bool :=
  is_upper c || is_lower c || is_digit c || Ascii.eqb c "_"%char.

(** [re.split(r'\W+', s)]: a maximal run of non-word characters is one
    separator. *)
Fixpoint split_runs (s : string) (cur : string) (in_sep : bool)
  : list string :=
  match s with
  | EmptyString => [rev cur]
  | String c s' =>
      if is_word c then split_runs s' (String c cur) false
      else if in_sep then split_runs s' cur true
      else rev cur :: split_runs s' EmptyString true
  end.

Definition split_nonword (s : string) : list string :=
  split_runs s EmptyString false.

(** [s.replace(c, '')] *)
Fixpoint remove_char (c : ascii) (s : string) : string :=
  match s with
  | EmptyString => EmptyString
  | String d s' =>
      if Ascii.eqb c d then remove_char c s' else String d (remove_char c s')
  end.

(** [''.join(l)] *)
Definition join (l : list string) : string :=
  fold_right String.append EmptyString l.

(** [re.sub(pattern, '_', s)] where the pattern is the class of the nine
    characters that are not allowed in a folder name (less-than,
    greater-than, colon, double quote, slash, backslash, bar, question mark,
    star), given here by their codes. *)
Definition is_invalid_folder_char (c : ascii) : bool :=
  existsb (Nat.eqb (nat_of_ascii c)) [60; 62; 58; 34; 47; 92; 124; 63; 42]%nat.

Fixpoint sanitize_folder (s : string) : string :=
  match s with
  | EmptyString => EmptyString
  | String c s' =>
      String (if is_invalid_folder_char c then "_"%char else c)
             (sanitize_folder s')
  end.

(** Truthiness of a string. *)
Definition nonempty (s : string) : bool :=
  match s with EmptyString => false | _ => true end.

(** [x in l] for a list of strings. *)
Definition mem (x : string) (l : list string) : bool :=
  existsb (String.eqb x) l.

(** A Python [set] in insertion order: [add]. *)
Definition set_add (x : string) (l : list string) : list string :=
  if mem x l then l else l ++ [x].

(** ** Numbers *)

Local Open Scope Q_scope.

Definition Qltb (a b : Q) : bool := negb (Qle_bool b a).
Definition Qgeb (a b : Q) : bool := Qle_bool b a.

(** The builtin [min(a, b)] and [max(a, b)]: the first argument is kept
    unless the second is strictly smaller (larger). *)
Definition min2 (a b : Q) : Q := if Qltb b a then b else a.
Definition max2 (a b : Q) : Q := if Qltb a b then b else a.

Definition sumQ (l : list Q) : Q := fold_right Qplus 0 l.

(** [np.mean(l)] on a non-empty list. *)
Definition mean (l : list Q) : Q := sumQ l / inject_Z (Z.of_nat (length l)).

(** [min(l)] and [max(l)] on a non-empty list of integers. *)
Definition minimum (l : list Z) : Z :=
  match l with
  | [] => 0%Z
  | x :: l' => fold_left Z.min l' x
  end.

Definition maximum (l : list Z) : Z :=
  match l with
  | [] => 0%Z
  | x :: l' => fold_left Z.max l' x
  end.

Definition minimumQ (l : list Q) : Q :=
  match l with
  | [] => 0
  | x :: l' => fold_left min2 l' x
  end.

Definition maximumQ (l : list Q) : Q :=
  match l with
  | [] => 0
  | x :: l' => fold_left max2 l' x
  end.

(** ** Time: naive datetimes are seconds, [timedelta.days] floors. *)

Definition seconds_per_day : Z := 86400.
Definition days (delta : Z) : Z := (delta / seconds_per_day)%Z.
Definition midnight (t : Z) : Z := (t - t mod seconds_per_day)%Z.
Definition hour_of (t : Z) : Z := ((t mod seconds_per_day) / 3600)%Z.

(** ** Exceptions *)

Inductive pyres (A : Type) : Type :=
| Raise : pyres A
| Ret : A -> pyres A.
Arguments Raise {A}.
Arguments Ret {A} _.

Definition bind {A B} (m : pyres A) (k : A -> pyres B) : pyres B :=
  match m with
  | Raise => Raise
  | Ret a => k a
  end.

(** [try: m except Exception: h] *)
Definition try_except {A} (m : pyres A) (h : pyres A) : pyres A :=
  match m with
  | Raise => h
  | Ret a => Ret a
  end.

(** An attribute of a COM object: reading it raises a COM error, or the
    attribute does not exist, or it has a value. *)
Inductive attr (A : Type) : Type :=
| ComError : attr A
| Missing : attr A
| Has : A -> attr A.
Arguments ComError {A}.
Arguments Missing {A}.
Arguments Has {A} _.

(** [getattr(item, name, default)]: only a missing attribute yields the
    default; a COM error propagates. *)
Definition getattr {A} (a : attr A) (default : A) : pyres A :=
  match a with
  | ComError => Raise
  | Missing => Ret default
  | Has v => Ret v
  end.

(** [item.name]: a missing attribute raises as well. *)
Definition access {A} (a : attr A) : pyres A :=
  match a with
  | Has v => Ret v
  | _ => Raise
  end.

(** [safe_get_property(item, name)] of outlook_utils.py with its default
    [None]: every error yields [None]. *)
Definition safe_get {A} (a : attr A) : option A :=
  match a with
  | Has v => Some v
  | _ => None
  end.

(** [safe_get_property(item, name, default)]: every error yields the
    default. *)
Definition safe_get_property {A} (a : attr A) (default : A) : A :=
  match a with
  | Has v => v
  | _ => default
  end.

(** A key of a stored [dict]: absent, bound to [None], or bound to a value. *)
Inductive field (A : Type) : Type :=
| Absent : field A
| IsNone : field A
| Val : A -> field A.
Arguments Absent {A}.
Arguments IsNone {A}.
Arguments Val {A} _.

(** [d.get(key, default)]; the result [None] is Python's [None]. *)
Definition dict_get {A} (f : field A) (default : A) : option A :=
  match f with
  | Absent => Some default
  | IsNone => None
  | Val v => Some v
  end.

(** Using [None] where a value is needed raises. *)
Definition need {A} (o : option A) : pyres A :=
  match o with
  | Some v => Ret v
  | None => Raise
  end.

End Py.

Declare Scope py_scope.
Delimit Scope py_scope with py.
Notation "'do' x <- m ; k" := (Py.bind m (fun x => k))
  (at level 10, x name, m at level 100, k at level 200) : py_scope.

(** [config.get(key, default)] over the numeric settings. *)
Definition cfg_get (config : gmap string Q) (key : string) (default : Q) : Q :=
  match config !! key with
  | Some v => v
  | None => default
  end.

(* ===================================================================== *)
(** * analyzer.py *)
(* ===================================================================== *)

Module Analyzer.
Import Py.
Local Open Scope Z_scope.
Local Open Scope string_scope.
Local Open Scope py_scope.

(** ** Message tracking records (the values of [email_tracking]) *)

Record tracking_record : Type := {
  tr_subject : field string;
  tr_sender : field string;
  tr_raw_sender : field string;
  tr_sender_name : field string;
  tr_sender_email : field string;
  tr_received_time : field Z;
  tr_last_modified : field Z;
  tr_folder_path : field string;
  tr_is_currently_read : field bool;
  tr_check_count : field Z;
  tr_last_checked : field Z
}.

(** The empty [dict] that [email_tracking.get(entry_id, {})] falls back to. *)
Definition no_record : tracking_record :=
  {| tr_subject := Absent; tr_sender := Absent; tr_raw_sender := Absent;
     tr_sender_name := Absent; tr_sender_email := Absent;
     tr_received_time := Absent; tr_last_modified := Absent;
     tr_folder_path := Absent; tr_is_currently_read := Absent;
     tr_check_count := Absent; tr_last_checked := Absent |}.

(** ** Contact normalization *)

(** [_normalize_contact(self, contact)] *)
Definition _normalize_contact (contact_map : gmap string string)
    (contact : string) : string :=
  if negb (nonempty contact) then "unknown"
  else
    let contact_lower := lower contact in
    if has_at contact_lower then contact_lower
    else match contact_map !! contact_lower with
         | Some normalized => normalized
         | None => contact_lower
         end.

(** ** Building the contact map from the tracking store *)

(** [data.get(key, '').strip()] *)
Definition get_stripped (f : field string) : pyres string :=
  do v <- need (dict_get f ""); Ret (strip v).

(** A name-to-addresses table: [defaultdict(set)] in insertion order. *)
Definition name_table : Type := list (string * list string).

Fixpoint table_add (name email : string) (t : name_table) : name_table :=
  match t with
  | [] => [(name, [email])]
  | (n, es) :: t' =>
      if String.eqb n name then (n, set_add email es) :: t'
      else (n, es) :: table_add name email t'
  end.

(** Step 0 on one record: the pairs a record gives directly. *)
Definition record_pairs (data : tracking_record)
  : pyres (list (string * string)) :=
  do sender <- get_stripped (tr_sender data);
  do raw_sender <- get_stripped (tr_raw_sender data);
  do sender_name <- get_stripped (tr_sender_name data);
  do sender_email <- get_stripped (tr_sender_email data);
  let from_raw :=
    if nonempty sender && nonempty raw_sender
       && negb (String.eqb sender raw_sender) then
      if has_at sender && negb (has_at raw_sender) then
        [(lower raw_sender, lower sender)]
      else if has_at raw_sender && negb (has_at sender) then
        [(lower sender, lower raw_sender)]
      else []
    else [] in
  let from_fields :=
    if nonempty sender_name && nonempty sender_email && has_at sender_email
    then [(lower sender_name, lower sender_email)]
    else [] in
  Ret (from_raw ++ from_fields)%list.

(** Step 0: [raw_sender_pairs] over all records, in iteration order. *)
Fixpoint raw_sender_pairs (items : list (string * tracking_record))
  : pyres (list (string * string)) :=
  match items with
  | [] => Ret []
  | (_, data) :: rest =>
      do here <- record_pairs data;
      do more <- raw_sender_pairs rest;
      Ret (here ++ more)%list
  end.

(** [[w for w in re.split(r'\W+', name) if len(w) > 2]] *)
Definition name_words_of (name : string) : list string :=
  List.filter (fun w => (2 <? String.length w)%nat) (split_nonword name).

(** [email.split('@')[0]] *)
Definition local_part (email : string) : string := first (split at_sign email).

(** The test of Step 2 that makes an address a candidate for a name. *)
Definition corresponds (name_lower email : string) : bool :=
  let name_words := name_words_of name_lower in
  let email_local := local_part email in
  existsb (fun word => contains email_local word) name_words
  || existsb (fun part => contains name_lower part) (split_local email_local).

(** The senders of the store as Step 2 reads them; the [None] senders have
    been raised on by Step 0 already. *)
Definition stripped_sender (data : tracking_record) : string :=
  strip (default "" (dict_get (tr_sender data) "")).

(** Step 2, second loop: the inner [for other_id, other_data in ...]. *)
Definition match_others (sender : string)
    (items : list (string * tracking_record)) (t : name_table) : name_table :=
  fold_left
    (fun t other =>
       let other_sender := stripped_sender (snd other) in
       if has_at sender then
         let email := lower sender in
         if nonempty other_sender && negb (has_at other_sender) then
           let name_lower := lower other_sender in
           if corresponds name_lower email then table_add name_lower email t
           else t
         else t
       else
         let name := lower sender in
         if nonempty other_sender && has_at other_sender then
           let email := lower other_sender in
           if corresponds name email then table_add name email t else t
         else t)
    items t.

Definition find_correspondences (items : list (string * tracking_record))
    (t : name_table) : name_table :=
  fold_left
    (fun t entry =>
       let sender := stripped_sender (snd entry) in
       if nonempty sender then match_others sender items t else t)
    items t.

(** Step 2, third loop: addresses that contain a word of a known name. *)
Definition match_components (items : list (string * tracking_record))
    (t : name_table) : name_table :=
  fold_left
    (fun t name =>
       let name_words := name_words_of name in
       fold_left
         (fun t entry =>
            let sender := lower (default "" (dict_get (tr_sender (snd entry)) "")) in
            if has_at sender
               && existsb (fun word => contains sender word) name_words
            then table_add name sender t else t)
         items t)
    (List.map fst t) t.

(** Step 2 as a whole: [name_to_emails]. *)
Definition name_to_emails (pairs : list (string * string))
    (items : list (string * tracking_record)) : name_table :=
  let t0 := fold_left (fun t p => table_add (fst p) (snd p) t) pairs [] in
  match_components items (find_correspondences items t0).

(** Step 3: the match score of an address for a name. *)
Definition match_score (name email : string) : Z :=
  let name_words := name_words_of name in
  let email_local := local_part email in
  let parts := split_local email_local in
  let by_word :=
    fold_left
      (fun score word =>
         if contains email_local word then score + 2
         else if existsb (fun part => contains part word) parts then score + 1
         else score)
      name_words 0 in
  let by_part :=
    fold_left
      (fun score part =>
         if (2 <? String.length part)%nat && contains name part then score + 2
         else if existsb (fun word => contains word part) name_words
              then score + 1
         else score)
      parts by_word in
  let full_name :=
    if String.eqb (join name_words)
         (remove_char "_" (remove_char "-" (remove_char "." email_local)))
    then by_part + 5 else by_part in
  if (1 <? length name_words)%nat
     && startswith email_local (take 1 (first name_words))
     && startswith (tail email_local) (last name_words)
  then full_name + 4 else full_name.

(** Step 3: the loop [for email in emails] that keeps the strictly best. *)
Definition best_match (name : string) (emails : list string)
  : option string * Z :=
  fold_left
    (fun best email =>
       let score := match_score name email in
       if (snd best <? score)%Z then (Some email, score) else best)
    emails (None, 0).

Definition resolve_best (t : name_table) (contact_map : gmap string string)
  : gmap string string :=
  fold_left
    (fun cm entry =>
       let '(name, emails) := entry in
       match emails with
       | [] => cm
       | _ =>
           match best_match name emails with
           | (Some best_email, best_score) =>
               if nonempty best_email && (1 <=? best_score)%Z
               then <[name := best_email]> cm else cm
           | (None, _) => cm
           end
       end)
    t contact_map.

(** Step 4: direct pairs fill the names that Step 3 left unmapped. *)
Definition add_direct_mappings (pairs : list (string * string))
    (contact_map : gmap string string) : gmap string string :=
  fold_left
    (fun cm p =>
       let '(display_name, email) := p in
       if nonempty display_name && nonempty email && has_at email then
         match cm !! display_name with
         | None => <[display_name := email]> cm
         | Some _ => cm
         end
       else cm)
    pairs contact_map.

(** [_initialize_contact_map(self)]: the map is built only when it is empty;
    an exception anywhere leaves it as it was (the only reads that can raise
    are those of Step 0, before the map is touched). Step 1 only fills
    [name_parts] and [email_to_names] is only written: nothing reads them. *)
Definition _initialize_contact_map (contact_map : gmap string string)
    (items : list (string * tracking_record)) : gmap string string :=
  if negb (bool_decide (contact_map = ∅)) then contact_map
  else
    match raw_sender_pairs items with
    | Raise => contact_map
    | Ret pairs =>
        add_direct_mappings pairs
          (resolve_best (name_to_emails pairs items) contact_map)
    end.

(** ** The inbox scan: message tracking and direct name/address pairs *)

(** A mail item of the inbox as [analyze_inbox_behavior] reads it.
    [ExchangeSmtp] is the outcome of resolving an Exchange address through
    the namespace: an exception, no Exchange user, or the primary SMTP
    address. *)
Record inbox_item : Type := {
  Class : attr Z;
  EntryID : attr string;
  SenderName : attr string;
  SenderEmailAddress : attr string;
  ExchangeSmtp : pyres (option string);
  FolderPath : attr string;
  ParentName : attr string;
  UnRead : attr bool;
  ReceivedTime : attr Z;
  LastModificationTime : attr Z;
  Subject : attr string
}.

(** Truthiness of an optional string. *)
Definition truthy (o : option string) : bool :=
  match o with
  | Some s => nonempty s
  | None => false
  end.

(** [sender_name if sender_name else "Unknown Sender"] *)
Definition name_or_unknown (item : inbox_item) : string :=
  match safe_get (SenderName item) with
  | Some n => if nonempty n then n else "Unknown Sender"
  | None => "Unknown Sender"
  end.

(** [_get_sender_address(self, item)] *)
Definition _get_sender_address (item : inbox_item) : string :=
  match safe_get (SenderEmailAddress item) with
  | Some sender_addr =>
      if nonempty sender_addr && negb (has_at sender_addr)
         && startswith sender_addr "/" then
        match ExchangeSmtp item with
        | Ret (Some smtp) => smtp
        | _ => name_or_unknown item
        end
      else if nonempty sender_addr && has_at sender_addr then sender_addr
      else name_or_unknown item
  | None => name_or_unknown item
  end.

(** The counters of [sender_behavior]. *)
Record behavior : Type := {
  read_kept : Z;
  unread_kept : Z;
  deleted : Z;
  moved : Z;
  total : Z
}.

Definition no_behavior : behavior :=
  {| read_kept := 0; unread_kept := 0; deleted := 0; moved := 0; total := 0 |}.

(** The state that the scan loop mutates. *)
Record scan_state : Type := {
  email_tracking : gmap string tracking_record;
  sender_behavior : gmap string behavior;
  name_email_pairs : list (string * string);
  processed_count : Z
}.

(** The new counter: one more than the stored one when the message is
    unread now, zero when it is read. A stored [None] cannot be added to. *)
Definition new_check_count (is_read : bool) (previous_check_count : option Z)
  : pyres Z :=
  if negb is_read then
    do previous <- need previous_check_count; Ret (previous + 1)
  else Ret 0.

Definition update_behavior (inbox_path : option string) (item : inbox_item)
    (is_read : bool) (sb : behavior) : behavior :=
  let sb := {| read_kept := read_kept sb; unread_kept := unread_kept sb;
               deleted := deleted sb; moved := moved sb;
               total := total sb + 1 |} in
  let same_folder :=
    match safe_get (FolderPath item), inbox_path with
    | Some a, Some b => String.eqb a b
    | None, None => true
    | _, _ => false
    end in
  if same_folder then
    if is_read then
      {| read_kept := read_kept sb + 1; unread_kept := unread_kept sb;
         deleted := deleted sb; moved := moved sb; total := total sb |}
    else
      {| read_kept := read_kept sb; unread_kept := unread_kept sb + 1;
         deleted := deleted sb; moved := moved sb; total := total sb |}
  else if match safe_get (ParentName item) with
          | Some n => String.eqb n "Deleted Items"
          | None => false
          end then
    {| read_kept := read_kept sb; unread_kept := unread_kept sb;
       deleted := deleted sb + 1; moved := moved sb; total := total sb |}
  else
    {| read_kept := read_kept sb; unread_kept := unread_kept sb;
       deleted := deleted sb; moved := moved sb + 1; total := total sb |}.

Definition opt_field {A} (o : option A) : field A :=
  match o with
  | Some v => Val v
  | None => IsNone
  end.

(** The body of the [for] loop for one item. An exception skips the rest of
    the body; what was appended before it stays. *)
Definition scan_item (contact_map : gmap string string)
    (inbox_path : option string) (now : Z)
    (st : scan_state) (item : inbox_item) : scan_state :=
  match access (Class item) with
  | Raise => st
  | Ret class =>
    if negb (class =? 43)%Z then st
    else
      let entry_id := safe_get (EntryID item) in
      let previous_tracking_data :=
        match entry_id with
        | Some id => default no_record (email_tracking st !! id)
        | None => no_record
        end in
      let previous_check_count :=
        dict_get (tr_check_count previous_tracking_data) 0 in
      let sender_name := safe_get (SenderName item) in
      let sender_email := safe_get (SenderEmailAddress item) in
      let pairs :=
        match sender_name, sender_email with
        | Some n, Some e =>
            if nonempty n && nonempty e && has_at e
            then (name_email_pairs st ++ [(lower n, lower e)])%list
            else name_email_pairs st
        | _, _ => name_email_pairs st
        end in
      let st1 :=
        {| email_tracking := email_tracking st;
           sender_behavior := sender_behavior st;
           name_email_pairs := pairs;
           processed_count := processed_count st |} in
      let raw_sender := _get_sender_address item in
      let sender := _normalize_contact contact_map raw_sender in
      match entry_id with
      | Some id =>
        if negb (nonempty sender) || negb (nonempty id) then st1
        else
          let is_read :=
            match safe_get (UnRead item) with
            | Some false => true
            | _ => false
            end in
          match new_check_count is_read previous_check_count with
          | Raise => st1
          | Ret count =>
            let record :=
              {| tr_subject :=
                   Val (safe_get_property (Subject item) "<No Subject>");
                 tr_sender := Val sender;
                 tr_raw_sender := Val raw_sender;
                 tr_sender_name := opt_field sender_name;
                 tr_sender_email := opt_field sender_email;
                 tr_received_time := opt_field (safe_get (ReceivedTime item));
                 tr_last_modified :=
                   opt_field (safe_get (LastModificationTime item));
                 tr_folder_path := opt_field (safe_get (FolderPath item));
                 tr_is_currently_read := Val is_read;
                 tr_check_count := Val count;
                 tr_last_checked := Val now |} in
            let sb := default no_behavior (sender_behavior st !! sender) in
            {| email_tracking := <[id := record]> (email_tracking st);
               sender_behavior :=
                 <[sender := update_behavior inbox_path item is_read sb]>
                   (sender_behavior st);
               name_email_pairs := pairs;
               processed_count := processed_count st + 1 |}
          end
      | None => st1
      end
  end.

(** The [for i in range(num_items_to_process)] loop with its [break]. *)
Fixpoint scan_loop (contact_map : gmap string string)
    (inbox_path : option string) (now max_items : Z)
    (items : list inbox_item) (st : scan_state) : scan_state :=
  match items with
  | [] => st
  | item :: rest =>
      let st' := scan_item contact_map inbox_path now st item in
      if negb (max_items =? 0)%Z && (max_items <=? processed_count st')%Z
      then st'
      else scan_loop contact_map inbox_path now max_items rest st'
  end.

(** [range(num_items_to_process)] over the collection. *)
Definition items_to_process (max_items : Z) (items : list inbox_item)
  : list inbox_item :=
  if (max_items =? 0)%Z then items
  else firstn (Z.to_nat (Z.min (Z.of_nat (length items)) max_items)) items.

(** The update of the contact map with the pairs captured by the scan. *)
Definition add_scanned_pairs (pairs : list (string * string))
    (contact_map : gmap string string) : gmap string string :=
  fold_left
    (fun cm p =>
       let '(name, email) := p in
       if nonempty name && nonempty email && has_at email
       then <[name := email]> cm else cm)
    pairs contact_map.

(** The entries of [sender_read_kept_stats]. *)
Record read_kept_stat : Type := {
  rk_count : Z;
  rk_dates : option (list Z)
}.

(** The part of the analyzer object that the scans and the importance model
    read and write. *)
Record analyzer : Type := {
  an_contact_map : gmap string string;
  an_email_tracking : gmap string tracking_record;
  an_sender_inbox_behavior : gmap string behavior;
  an_sender_read_kept_stats : gmap string read_kept_stat
}.

(** [analyze_inbox_behavior(self, max_items)] on an available inbox. *)
Definition analyze_inbox_behavior (inbox_path : option string) (now : Z)
    (max_items : Z) (items : list inbox_item) (self : analyzer) : analyzer :=
  let st :=
    scan_loop (an_contact_map self) inbox_path now max_items
      (items_to_process max_items items)
      {| email_tracking := an_email_tracking self;
         sender_behavior := ∅;
         name_email_pairs := [];
         processed_count := 0 |} in
  {| an_contact_map :=
       add_scanned_pairs (name_email_pairs st) (an_contact_map self);
     an_email_tracking := email_tracking st;
     an_sender_inbox_behavior := sender_behavior st;
     an_sender_read_kept_stats :=
       (fun data => {| rk_count := read_kept data; rk_dates := Some [] |})
         <$> sender_behavior st |}.

(** Successive runs, each scanning the inbox as it is then. *)
Definition run_scans (inbox_path : option string) (max_items : Z)
    (scans : list (Z * list inbox_item)) (self : analyzer) : analyzer :=
  fold_left
    (fun a scan => analyze_inbox_behavior inbox_path (fst scan) max_items
                     (snd scan) a)
    scans self.

(** ** The sender importance model *)

(** A reply attributed to a parent sender by [analyze_sent_items]: latency
    in hours, body length and the sent time. [analyze_sent_items] always
    stores all three, so none of them is optional here. *)
Record response : Type := {
  response_time : Q;
  response_length : nat;
  sent_date : Z
}.

(** The values of [sender_initiations]. *)
Record initiation : Type := {
  in_count : Z;
  in_dates : list Z
}.

(** The values of [sender_scores]. *)
Record sender_score : Type := {
  raw_score : Q;
  reply_count : Z;
  initiation_count : Z;
  read_kept_count : Z;
  total_interactions : Z;
  last_interaction : option Z;
  normalized_score : Q;
  score : Q
}.

Definition set_normalized (n : Q) (d : sender_score) : sender_score :=
  {| raw_score := raw_score d; reply_count := reply_count d;
     initiation_count := initiation_count d;
     read_kept_count := read_kept_count d;
     total_interactions := total_interactions d;
     last_interaction := last_interaction d;
     normalized_score := n; score := score d |}.

Definition set_score (n : Q) (d : sender_score) : sender_score :=
  {| raw_score := raw_score d; reply_count := reply_count d;
     initiation_count := initiation_count d;
     read_kept_count := read_kept_count d;
     total_interactions := total_interactions d;
     last_interaction := last_interaction d;
     normalized_score := normalized_score d; score := n |}.

(** The canonical contact and every display name mapped to it. *)
Definition possible_identities (contact_map : gmap string string)
    (normalized_contact : string) : list string :=
  normalized_contact ::
  List.map fst
    (List.filter (fun p => String.eqb (snd p) normalized_contact)
       (map_to_list contact_map)).

(** [all_responses]: the replies of all identities, concatenated. *)
Definition all_responses_of (response_data : gmap string (list response))
    (identities : list string) : list response :=
  flat_map (fun identity => default [] (response_data !! identity)) identities.

Definition valid_responses_of (all_responses : list response)
  : list response :=
  List.filter (fun r => Qle_bool 0 (response_time r)) all_responses.

Definition lengthQ {A} (l : list A) : Q := inject_Z (Z.of_nat (length l)).

(** [date_range_days = max(1, (max_date - min_date).days)] *)
Definition date_range_days (response_dates : list Z) : Z :=
  let min_date := minimum response_dates in
  let max_date := maximum response_dates in
  let d := days (max_date - min_date) in
  if (1 <? d)%Z then d else 1%Z.

(** The reply component computed from the valid replies. *)
Definition reply_score (config : gmap string Q)
    (valid_responses : list response) : Q :=
  let reply_count := lengthQ valid_responses in
  let avg_response_time := mean (List.map response_time valid_responses) in
  let avg_response_length :=
    mean (List.map (fun r => inject_Z (Z.of_nat (response_length r)))
            valid_responses) in
  let response_dates := List.map sent_date valid_responses in
  let response_time_score :=
    (1 / (1 + max2 0 avg_response_time / 24))%Q in
  let response_freq :=
    (reply_count / inject_Z (date_range_days response_dates))%Q in
  (cfg_get config "reply_time_weight" (4 # 10) * response_time_score
   + cfg_get config "reply_rate_weight" (4 # 10)
     * min2 1 (response_freq * 10)
   + cfg_get config "reply_length_weight" (2 # 10)
     * min2 1 (max2 0 avg_response_length / 500))%Q.

(** Part 1 of the loop body: the component, the reply count and the dates
    of the replies. *)
Definition reply_component (config : gmap string Q)
    (all_responses : list response) : Q * Z * list Z :=
  let min_emails_reply := cfg_get config "min_emails_for_pattern" 1 in
  if Qle_bool min_emails_reply (lengthQ all_responses) then
    let valid_responses := valid_responses_of all_responses in
    match valid_responses with
    | [] => (0%Q, 0%Z, [])
    | _ =>
        (reply_score config valid_responses,
         Z.of_nat (length valid_responses),
         List.map sent_date valid_responses)
    end
  else (0%Q, 0%Z, []).

(** The body of [for normalized_contact in normalized_contacts]: the record
    of a contact, when it had any interaction. *)
Definition contact_record (config : gmap string Q)
    (contact_map : gmap string string)
    (response_data : gmap string (list response))
    (sender_initiations : gmap string initiation)
    (sender_read_kept_stats : gmap string read_kept_stat)
    (normalized_contact : string) : option sender_score :=
  let reply_factor := cfg_get config "reply_pattern_score_factor" 1 in
  let initiation_factor := cfg_get config "initiation_score_factor" (5 # 10) in
  let read_kept_factor := cfg_get config "read_kept_score_factor" (3 # 10) in
  let identities := possible_identities contact_map normalized_contact in
  let '(reply_component_score, replies, response_dates) :=
    reply_component config (all_responses_of response_data identities) in
  let initiations :=
    omap (fun identity => sender_initiations !! identity) identities in
  let initiations_total := fold_left Z.add (List.map in_count initiations) 0%Z in
  let initiation_dates := flat_map in_dates initiations in
  let kept := omap (fun identity => sender_read_kept_stats !! identity)
                identities in
  let kept_total := fold_left Z.add (List.map rk_count kept) 0%Z in
  let read_kept_dates := flat_map (fun k => default [] (rk_dates k)) kept in
  let raw :=
    (0 + reply_component_score * reply_factor
     + inject_Z initiations_total * initiation_factor
     + inject_Z kept_total * read_kept_factor)%Q in
  let interaction_dates :=
    (response_dates ++ initiation_dates ++ read_kept_dates)%list in
  let last_interaction_date :=
    match interaction_dates with
    | [] => None
    | _ => Some (maximum interaction_dates)
    end in
  let interactions := (replies + initiations_total + kept_total)%Z in
  if (0 <? interactions)%Z then
    Some {| raw_score := raw; reply_count := replies;
            initiation_count := initiations_total;
            read_kept_count := kept_total;
            total_interactions := interactions;
            last_interaction := last_interaction_date;
            normalized_score := 5 # 10;
            score := 0 |}
  else None.

(** [normalized_contacts]: a set, here in some order without repetition. *)
Definition normalized_contacts (contact_map : gmap string string)
    (response_data : gmap string (list response))
    (sender_initiations : gmap string initiation)
    (sender_read_kept_stats : gmap string read_kept_stat) : list string :=
  let all_contacts : gset string :=
    dom response_data ∪ dom sender_initiations ∪ dom sender_read_kept_stats in
  remove_dups (List.map (_normalize_contact contact_map) (elements all_contacts)).

(** The first loop: [new_sender_scores] in insertion order. *)
Definition raw_sender_scores (config : gmap string Q)
    (contact_map : gmap string string)
    (response_data : gmap string (list response))
    (sender_initiations : gmap string initiation)
    (sender_read_kept_stats : gmap string read_kept_stat)
  : list (string * sender_score) :=
  omap
    (fun contact =>
       match contact_record config contact_map response_data
               sender_initiations sender_read_kept_stats contact with
       | Some d => Some (contact, d)
       | None => None
       end)
    (normalized_contacts contact_map response_data sender_initiations
       sender_read_kept_stats).

(** The normalization block followed by the loop that sets [score]. *)
Definition normalize_scores (new_sender_scores : list (string * sender_score))
  : list (string * sender_score) :=
  let raw_scores := List.map (fun e => raw_score (snd e)) new_sender_scores in
  let normalized :=
    match new_sender_scores with
    | [] => new_sender_scores
    | first_entry :: others =>
        let max_raw_score := maximumQ raw_scores in
        let min_raw_score := minimumQ raw_scores in
        let raw_score_range := (max_raw_score - min_raw_score)%Q in
        if Qltb 0 raw_score_range then
          List.map
            (fun e =>
               let norm_score :=
                 ((raw_score (snd e) - min_raw_score) / raw_score_range)%Q in
               let n := max2 0 (min2 1 norm_score) in
               (fst e, set_score n (set_normalized n (snd e))))
            new_sender_scores
        else
          match others with
          | [] => [(fst first_entry, set_normalized (6 # 10) (snd first_entry))]
          | _ => new_sender_scores
          end
    end in
  List.map (fun e => (fst e, set_score (normalized_score (snd e)) (snd e)))
    normalized.

(** [_calculate_contact_importance(self, response_data,
    conversation_threads, sender_initiations)]: the new [sender_scores]. *)
Definition _calculate_contact_importance (config : gmap string Q)
    (self : analyzer)
    (response_data : gmap string (list response))
    (sender_initiations : gmap string initiation)
  : list (string * sender_score) :=
  normalize_scores
    (raw_sender_scores config (an_contact_map self) response_data
       sender_initiations (an_sender_read_kept_stats self)).

End Analyzer.

(* ===================================================================== *)
(** * scorer.py *)
(* ===================================================================== *)

Module Scorer.
Import Py.
Local Open Scope Q_scope.
Local Open Scope string_scope.
Local Open Scope py_scope.

(** The result of the content analysis collaborator
    ([process_email_content]); [None] is an absent key. *)
Record content_analysis : Type := {
  category : option string;
  urgency : option string;
  action_items : list string;
  topics : list string
}.

Record current_user : Type := { Address : attr string }.
Record session : Type := { CurrentUser : attr current_user }.
Record recipients : Type := { Count : attr Z }.

(** A mail item as [score_email] reads it. [content] is the outcome of
    [process_email_content(email_item, llm, config)] for this item. *)
Record email_item : Type := {
  SenderEmailAddress : attr string;
  SenderName : attr string;
  Subject : attr string;
  Body : attr string;
  ReceivedTime : attr (option Z);
  ConversationID : attr (option string);
  EntryID : attr (option string);
  Unread : attr bool;
  FlagStatus : attr Z;
  FlagDueBy : attr (option Z);
  Importance : attr Z;
  Session : attr (option session);
  To : attr string;
  CC : attr string;
  Recipients : attr (option recipients);
  content : pyres content_analysis
}.

(** [email_patterns]: only [sender_read_ratios] is read, a [dict] of
    [dict]s of numbers. *)
Record email_patterns : Type := {
  sender_read_ratios : option (gmap string (gmap string Q))
}.

(** The folder-naming service of the LLM collaborator. *)
Record llm_service : Type := {
  generate_folder_name :
    string -> list string -> string -> pyres (option string)
}.

(** Truthiness of a configuration value ([True] is 1, [False] is 0). *)
Definition cfg_true (config : gmap string Q) (key : string) (default : Q)
  : bool :=
  negb (Qeq_bool (cfg_get config key default) 0).

Definition drop_last (s : string) : string := rev (tail (rev s)).

(** [re.match(r"[^@]+@[^@]+\.[^@]+", sender)] *)
Definition looks_like_address (sender : string) : bool :=
  match split at_sign sender with
  | before :: segment :: _ =>
      nonempty before && has_char "." (drop_last (tail segment))
  | _ => false
  end.

(** The sender as the first [try] block leaves it. *)
Definition read_sender (item : email_item) : pyres string :=
  try_except
    (do fallback <- getattr (SenderName item) "Unknown Sender";
     do sender <- getattr (SenderEmailAddress item) fallback;
     if negb (looks_like_address sender) && negb (has_at sender)
     then getattr (SenderName item) "Unknown Sender"
     else Ret sender)
    (getattr (SenderName item) "Unknown Sender").

(** [s.split('@')[-1].split('>')[0].lower()] *)
Definition domain_of (s : string) : string :=
  lower (first (split ">" (last (split at_sign s)))).

(** 1. Sender score, before the re-open bonus. *)
Definition base_sender_score
    (sender_scores : gmap string Analyzer.sender_score) (sender : string) : Q :=
  match sender_scores !! sender with
  | Some data => Analyzer.normalized_score data
  | None =>
      if has_at sender then
        let sender_domain := domain_of sender in
        let domain_scores :=
          List.map (fun e => Analyzer.normalized_score (snd e))
            (List.filter
               (fun e =>
                  has_at (fst e)
                  && (let known_domain := domain_of (fst e) in
                      nonempty known_domain && nonempty sender_domain
                      && String.eqb known_domain sender_domain))
               (map_to_list sender_scores)) in
        match domain_scores with
        | [] => 5 # 10
        | _ => mean domain_scores
        end
      else 5 # 10
  end.

(** 2. Re-open bonus. *)
Definition reopen_bonus_of (patterns : email_patterns) (sender : string) : Q :=
  match default ∅ (sender_read_ratios patterns) !! sender with
  | Some sender_ratios =>
      if bool_decide (sender_ratios = ∅) then 0
      else
        let reopen_ratio := cfg_get sender_ratios "reopen_ratio" 0 in
        if Qltb (5 # 10) reopen_ratio then 2 # 10
        else if Qltb (2 # 10) reopen_ratio then 1 # 10
        else 0
  | None => 0
  end.

(** 3. Topic score: [category_priority.get(category, 0.5)]. *)
Definition category_priority (category : string) : Q :=
  if String.eqb category "personal" then 8 # 10
  else if String.eqb category "professional" then 7 # 10
  else if String.eqb category "transactional" then 6 # 10
  else if String.eqb category "general" then 5 # 10
  else if String.eqb category "newsletter" then 3 # 10
  else if String.eqb category "promotional" then 2 # 10
  else 5 # 10.

(** [urgency_map.get(urgency_level, 0.5)] with the boost for action items. *)
Definition urgency_score_of (analysis : content_analysis) : Q :=
  let urgency_level := default "medium" (urgency analysis) in
  let base :=
    if String.eqb urgency_level "high" then 9 # 10
    else if String.eqb urgency_level "urgent" then 95 # 100
    else if String.eqb urgency_level "medium" then 6 # 10
    else if String.eqb urgency_level "low" then 3 # 10
    else 5 # 10 in
  match action_items analysis with
  | [] => base
  | _ => min2 1 (base + (1 # 10))
  end.

(** 4. Recency, with the thread and off-hours boosts. *)
Definition recency_score_of (config : gmap string Q) (now : Z)
    (received_time_naive : Z) (conversation_id : option string) : Q :=
  let days_old := days (now - received_time_naive) in
  let by_age :=
    if (days_old <=? 1)%Z then 95 # 100
    else if (days_old <=? 3)%Z then 85 # 100
    else if (days_old <=? 7)%Z then 75 # 100
    else if (days_old <=? 14)%Z then 65 # 100
    else if (days_old <=? 30)%Z then 5 # 10
    else max2 (1 # 10) ((5 # 10) - inject_Z days_old / 365) in
  let in_thread :=
    if Analyzer.truthy conversation_id then min2 1 (by_age + (5 # 100))
    else by_age in
  let hour := hour_of received_time_naive in
  if (hour <? 8)%Z || (18 <=? hour)%Z
  then min2 1 (in_thread + cfg_get config "off_hours_bonus" (5 # 100))
  else in_thread.

(** The penalty for a message that stayed unread over several scans. *)
Definition ignore_penalty_of (config : gmap string Q)
    (email_tracking : option (gmap string Analyzer.tracking_record))
    (entry_id : option string) : pyres Q :=
  match email_tracking, entry_id with
  | Some tracking, Some id =>
      if negb (bool_decide (tracking = ∅)) && nonempty id then
        match tracking !! id with
        | Some track_record =>
            let was_unread_last :=
              match dict_get (Analyzer.tr_is_currently_read track_record) true with
              | Some b => negb b
              | None => true
              end in
            if was_unread_last then
              do check_count <-
                need (dict_get (Analyzer.tr_check_count track_record) 0%Z);
              if (1 <? check_count)%Z then
                let ignore_penalty_val :=
                  cfg_get config "ignore_penalty" (15 # 100)
                  * inject_Z (check_count - 1) in
                Ret (min2 (4 # 10) ignore_penalty_val)
              else Ret 0
            else Ret 0
        | None => Ret 0
        end
      else Ret 0
  | _, _ => Ret 0
  end.

(** The bonus for a due date, inside its own [try]: an error adds nothing. *)
Definition due_bonus_of (config : gmap string Q) (now : Z) (item : email_item)
  : Q :=
  match getattr (FlagDueBy item) None with
  | Ret (Some flag_due_by) =>
      let today := midnight now in
      let due_date := midnight flag_due_by in
      let days_until_due := days (due_date - today) in
      if (days_until_due <=? 0)%Z then cfg_get config "due_today_bonus" (25 # 100)
      else if (days_until_due <=? 2)%Z
           then cfg_get config "due_soon_bonus" (15 # 100)
      else 0
  | _ => 0
  end.

(** 5. Message state score, with the values it read on the way. *)
Definition message_state_of (config : gmap string Q) (now : Z)
    (email_tracking : option (gmap string Analyzer.tracking_record))
    (item : email_item) : pyres (Q * bool * Z * Z) :=
  do entry_id <- getattr (EntryID item) None;
  do is_unread <- getattr (Unread item) true;
  do after_read_state <-
    (if is_unread then
       do ignore <- ignore_penalty_of config email_tracking entry_id;
       Ret ((5 # 10) - cfg_get config "unread_penalty" (2 # 10) - ignore)
     else Ret ((5 # 10) + cfg_get config "read_kept_bonus" (3 # 10)));
  do flag_status <- getattr (FlagStatus item) 0%Z;
  let after_flag :=
    if (flag_status =? 2)%Z then
      after_read_state + cfg_get config "flagged_bonus" (15 # 100)
      + due_bonus_of config now item
    else after_read_state in
  do importance <- getattr (Importance item) 1%Z;
  let message_state_score :=
    if (importance =? 2)%Z then
      after_flag + cfg_get config "high_importance_bonus" (2 # 10)
    else after_flag in
  Ret (message_state_score, is_unread, flag_status, importance).

(** The recipient count adjustment, inside its own [try]. *)
Definition recipient_count_adjust (config : gmap string Q) (item : email_item)
    (recipient_score : Q) : Q :=
  match
    (do recipients <- getattr (Recipients item) None;
     match recipients with
     | Some r =>
         do recipient_count <- access (Count r);
         if (recipient_count <=? 3)%Z then
           Ret (recipient_score + cfg_get config "direct_to_me_bonus" (1 # 10))
         else if (10 <? recipient_count)%Z then
           Ret (recipient_score
                - cfg_get config "many_recipients_penalty" (1 # 10))
         else Ret recipient_score
     | None => Ret recipient_score
     end)
  with
  | Ret v => v
  | Raise => recipient_score
  end.

(** 6. Recipient score; every error leaves the score reached so far. *)
Definition recipient_score_of (config : gmap string Q) (item : email_item) : Q :=
  let base := 5 # 10 in
  match getattr (Session item) None with
  | Ret (Some session) =>
      match
        (do user <- access (CurrentUser session);
         do address <- getattr (Address user) "";
         let me_address := lower address in
         if nonempty me_address then
           do to <- getattr (To item) "";
           do cc <- getattr (CC item) "";
           let to_field := lower to in
           let cc_field := lower cc in
           if contains to_field me_address then
             Ret (recipient_count_adjust config item
                    (base + cfg_get config "to_me_bonus" (15 # 100)))
           else if contains cc_field me_address then
             Ret (base - cfg_get config "cc_me_penalty" (5 # 100))
           else Ret base
         else Ret base)
      with
      | Ret v => v
      | Raise => base
      end
  | _ => base
  end.

(** The five weights after the proportional re-normalization; a zero total
    makes the division raise. *)
Definition normalized_weights (config : gmap string Q)
  : pyres (Q * Q * Q * Q * Q) :=
  let sender_weight := cfg_get config "sender_weight" (4 # 10) in
  let topic_weight := cfg_get config "topic_weight" (25 # 100) in
  let temporal_weight := cfg_get config "temporal_weight" (15 # 100) in
  let message_state_weight := cfg_get config "message_state_weight" (1 # 10) in
  let recipient_weight := cfg_get config "recipient_weight" (1 # 10) in
  let total_weight :=
    sender_weight + topic_weight + temporal_weight + message_state_weight
    + recipient_weight in
  if negb (Qeq_bool total_weight 1) then
    if Qeq_bool total_weight 0 then Raise
    else
      let factor := 1 / total_weight in
      Ret (sender_weight * factor, topic_weight * factor,
           temporal_weight * factor, message_state_weight * factor,
           recipient_weight * factor)
  else
    Ret (sender_weight, topic_weight, temporal_weight, message_state_weight,
         recipient_weight).

Record components : Type := {
  sender_score : Q;
  topic_score : Q;
  temporal_score : Q;
  message_state_score : Q;
  recipient_score : Q;
  urgency_score : Q;
  reopen_bonus : Q;
  recency_score : Q
}.

Record metadata : Type := {
  sender : string;
  subject : string;
  received_time : Z;
  is_reply : bool;
  is_forward : bool;
  conversation_id : option string;
  analysis : content_analysis;
  is_unread : bool;
  is_flagged : bool;
  importance : Z;
  flag_due_by : option Z
}.

Record score_data : Type := {
  final_score : Q;
  score_components : components;
  score_metadata : metadata
}.

(** The weighted sum before the clamp. *)
Definition weighted_sum (w : Q * Q * Q * Q * Q) (c : components) : Q :=
  let '(sender_weight, topic_weight, temporal_weight, message_state_weight,
        recipient_weight) := w in
  sender_weight * sender_score c + topic_weight * topic_score c
  + temporal_weight * temporal_score c
  + message_state_weight * message_state_score c
  + recipient_weight * recipient_score c.

(** The body of the outer [try] of [score_email]. *)
Definition score_body
    (sender_scores : gmap string Analyzer.sender_score)
    (patterns : email_patterns) (config : gmap string Q)
    (email_tracking : option (gmap string Analyzer.tracking_record))
    (now : Z) (item : email_item) : pyres score_data :=
  do sender <- read_sender item;
  do subject <- getattr (Subject item) "";
  do body <- getattr (Body item) "";
  do received_time <- getattr (ReceivedTime item) None;
  let received_time_naive := default now received_time in
  let is_reply := startswith (lower subject) "re:" in
  let is_forward :=
    startswith (lower subject) "fw:" || startswith (lower subject) "fwd:" in
  do conversation_id <- getattr (ConversationID item) None;
  do content_analysis <- content item;
  let reopen_bonus := reopen_bonus_of patterns sender in
  let sender_score := min2 1 (base_sender_score sender_scores sender + reopen_bonus) in
  let topic_score :=
    category_priority (default "general" (category content_analysis)) in
  let urgency_score := urgency_score_of content_analysis in
  let recency_score :=
    recency_score_of config now received_time_naive conversation_id in
  let temporal_score := (4 # 10) * recency_score + (6 # 10) * urgency_score in
  do state <- message_state_of config now email_tracking item;
  let '(message_state_score, is_unread, flag_status, importance) := state in
  let recipient_score := recipient_score_of config item in
  do weights <- normalized_weights config;
  let c :=
    {| sender_score := sender_score; topic_score := topic_score;
       temporal_score := temporal_score;
       message_state_score := message_state_score;
       recipient_score := recipient_score; urgency_score := urgency_score;
       reopen_bonus := reopen_bonus; recency_score := recency_score |} in
  let final_score := max2 0 (min2 1 (weighted_sum weights c)) in
  do flag_due_by <- getattr (FlagDueBy item) None;
  Ret {| final_score := final_score;
         score_components := c;
         score_metadata :=
           {| sender := sender; subject := subject;
              received_time := received_time_naive;
              is_reply := is_reply; is_forward := is_forward;
              conversation_id := conversation_id;
              analysis := content_analysis;
              is_unread := is_unread;
              is_flagged := (flag_status =? 2)%Z;
              importance := importance;
              flag_due_by := flag_due_by |} |}.

(** [score_email(email_item, sender_scores, email_patterns, config, llm,
    email_tracking)]: every exception of the body yields [None]. *)
Definition score_email
    (sender_scores : gmap string Analyzer.sender_score)
    (patterns : email_patterns) (config : gmap string Q)
    (email_tracking : option (gmap string Analyzer.tracking_record))
    (now : Z) (item : email_item) : option score_data :=
  match score_body sender_scores patterns config email_tracking now item with
  | Ret data => Some data
  | Raise => None
  end.

(** ** Recommendation *)

Record recommendation : Type := {
  folder : string;
  flag : bool;
  create_task : bool;
  auto_archive : bool;
  rec_score : Q;
  rec_score_data : score_data
}.

(** The due-today test on the stored [flag_due_by]. *)
Definition is_due_today (now : Z) (flag_due_by : option Z) : bool :=
  match flag_due_by with
  | Some due =>
      let today := midnight now in
      let due_date := midnight due in
      let days_until_due := days (due_date - today) in
      (days_until_due <=? 0)%Z
  | None => false
  end.

(** The sub-folder for a personal or professional message: the suggestion
    of the LLM, else the leading topic, else the bare category. *)
Definition llm_folder (llm : llm_service) (category : string)
    (subject : string) (topics : list string) (sender : string) : string :=
  match generate_folder_name llm subject topics sender with
  | Ret suggestion =>
      let usable :=
        match suggestion with
        | Some text =>
            if nonempty text && negb (String.eqb text "Miscellaneous")
            then Some text else None
        | None => None
        end in
      match usable, topics with
      | Some text, _ =>
          capitalize category ++ "/" ++ take 50 (sanitize_folder text)
      | None, topic :: _ =>
          capitalize category ++ "/"
          ++ take 50 (sanitize_folder (capitalize topic))
      | None, [] => capitalize category
      end
  | Raise => capitalize category
  end.

(** The decision of [recommend_action] once the message is scored. *)
Definition decide_action (config : gmap string Q) (llm : option llm_service)
    (now : Z) (data : score_data) : recommendation :=
  let final_score := final_score data in
  let content_analysis := analysis (score_metadata data) in
  let category := default "general" (category content_analysis) in
  let action_items := action_items content_analysis in
  let sender := sender (score_metadata data) in
  let subject := subject (score_metadata data) in
  let topics := topics content_analysis in
  let flag_due_by := flag_due_by (score_metadata data) in
  let importance := importance (score_metadata data) in
  (* due-soon flags first *)
  let due_today := is_due_today now flag_due_by in
  let '(folder, flag, create_task) :=
    if due_today then ("Due Today", true, true)
    else ("General", false, false) in
  (* high importance override *)
  let '(folder, flag) :=
    if negb due_today && (importance =? 2)%Z then
      (if Qgeb final_score (cfg_get config "high_priority_threshold" (7 # 10))
       then "High Priority" else "Important", true)
    else (folder, flag) in
  (* priority folders *)
  let '(folder, flag, create_task) :=
    if negb due_today
       && negb (mem folder ["High Priority"; "Important"; "Due Today"]) then
      if Qgeb final_score (cfg_get config "high_priority_threshold" (8 # 10))
      then ("High Priority", true, true)
      else if Qgeb final_score
                (cfg_get config "medium_priority_threshold" (5 # 10))
      then ("Medium Priority", true, create_task)
      else (folder, flag, create_task)
    else (folder, flag, create_task) in
  (* topic and category folders for lower priority *)
  let '(folder, auto_archive) :=
    if mem folder ["General"] then
      if mem category ["promotional"; "newsletter"] then
        if Qltb final_score (3 # 10)
        then ("Archive/" ++ capitalize category, true)
        else (capitalize category, false)
      else
        match llm with
        | Some service =>
            if mem category ["personal"; "professional"]
               && cfg_true config "use_llm_for_content" 1
            then (llm_folder service category subject topics sender, false)
            else (capitalize category, false)
        | None => (capitalize category, false)
        end
    else (folder, false) in
  (* action items *)
  let '(folder, create_task, auto_archive) :=
    match action_items with
    | [] => (folder, create_task, auto_archive)
    | _ =>
        if negb (mem folder ["High Priority"; "Medium Priority"; "Due Today";
                             "Important"]) then
          if auto_archive then ("Action Required", true, false)
          else if mem folder ["General"; "Newsletter"; "Promotional";
                              "Transactional"]
          then ("Action Required", true, auto_archive)
          else (folder, true, auto_archive)
        else (folder, true, auto_archive)
    end in
  {| folder := folder; flag := flag; create_task := create_task;
     auto_archive := auto_archive; rec_score := final_score;
     rec_score_data := data |}.

(** [recommend_action(email_item, sender_scores, email_patterns, config,
    llm, email_tracking)] *)
Definition recommend_action
    (sender_scores : gmap string Analyzer.sender_score)
    (patterns : email_patterns) (config : gmap string Q)
    (llm : option llm_service)
    (email_tracking : option (gmap string Analyzer.tracking_record))
    (now : Z) (item : email_item) : option recommendation :=
  match score_email sender_scores patterns config email_tracking now item with
  | None => None
  | Some data => Some (decide_action config llm now data)
  end.

End Scorer.

(* ===================================================================== *)
(** * organizer.py *)
(* ===================================================================== *)

Module Organizer.
Import Py.
Local Open Scope Z_scope.
Local Open Scope string_scope.

(** The counters of [stats]. *)
Record stats : Type := {
  processed : Z;
  moved : Z;
  flagged : Z;
  task_created : Z;
  high_priority : Z;
  medium_priority : Z;
  action_required : Z;
  category_folders : Z;
  archived : Z;
  errors : Z;
  skipped_subfolder : Z
}.

Definition no_stats : stats :=
  {| processed := 0; moved := 0; flagged := 0; task_created := 0;
     high_priority := 0; medium_priority := 0; action_required := 0;
     category_folders := 0; archived := 0; errors := 0;
     skipped_subfolder := 0 |}.

Definition add_error (s : stats) : stats :=
  {| processed := processed s; moved := moved s; flagged := flagged s;
     task_created := task_created s; high_priority := high_priority s;
     medium_priority := medium_priority s;
     action_required := action_required s;
     category_folders := category_folders s; archived := archived s;
     errors := errors s + 1; skipped_subfolder := skipped_subfolder s |}.

Definition add_skipped (s : stats) : stats :=
  {| processed := processed s; moved := moved s; flagged := flagged s;
     task_created := task_created s; high_priority := high_priority s;
     medium_priority := medium_priority s;
     action_required := action_required s;
     category_folders := category_folders s; archived := archived s;
     errors := errors s; skipped_subfolder := skipped_subfolder s + 1 |}.

(** [stats['processed'] += 1] followed by the counter of the folder kind. *)
Definition add_processed (folder_name : string) (s : stats) : stats :=
  let high := startswith folder_name "High Priority" in
  let medium := negb high && startswith folder_name "Medium Priority" in
  let action :=
    negb high && negb medium && startswith folder_name "Action Required" in
  let archive :=
    negb high && negb medium && negb action
    && startswith folder_name "Archive/" in
  let other := negb high && negb medium && negb action && negb archive in
  let bump (b : bool) (n : Z) := if b then n + 1 else n in
  {| processed := processed s + 1; moved := moved s; flagged := flagged s;
     task_created := task_created s;
     high_priority := bump high (high_priority s);
     medium_priority := bump medium (medium_priority s);
     action_required := bump action (action_required s);
     category_folders := bump other (category_folders s);
     archived := bump archive (archived s);
     errors := errors s; skipped_subfolder := skipped_subfolder s |}.

Definition add_moved (s : stats) : stats :=
  {| processed := processed s; moved := moved s + 1; flagged := flagged s;
     task_created := task_created s; high_priority := high_priority s;
     medium_priority := medium_priority s;
     action_required := action_required s;
     category_folders := category_folders s; archived := archived s;
     errors := errors s; skipped_subfolder := skipped_subfolder s |}.

Definition add_flagged (s : stats) : stats :=
  {| processed := processed s; moved := moved s; flagged := flagged s + 1;
     task_created := task_created s; high_priority := high_priority s;
     medium_priority := medium_priority s;
     action_required := action_required s;
     category_folders := category_folders s; archived := archived s;
     errors := errors s; skipped_subfolder := skipped_subfolder s |}.

Definition add_task (s : stats) : stats :=
  {| processed := processed s; moved := moved s; flagged := flagged s;
     task_created := task_created s + 1; high_priority := high_priority s;
     medium_priority := medium_priority s;
     action_required := action_required s;
     category_folders := category_folders s; archived := archived s;
     errors := errors s; skipped_subfolder := skipped_subfolder s |}.

(** An item of the inbox collection as [organize_inbox] handles it: whether
    [Item(i+1)] returns it, its identity and class, the entry id of its
    parent folder, the mail that the scorer reads, and the outcomes of the
    actions on it. *)
Record item : Type := {
  fetched : bool;
  item_EntryID : attr (option string);
  item_Class : attr Z;
  parent_EntryID : pyres (option string);
  mail : Scorer.email_item;
  move_outcome : pyres unit;
  flag_outcome : pyres unit;
  task_outcome : pyres bool
}.

(** What the loop mutates; [collection] is the live [inbox.Items], which
    loses an item when it is moved. *)
Record org_state : Type := {
  collection : list item;
  counters : stats;
  folder_cache : gset string;
  processed_ids : gset string
}.

Definition with_counters (st : org_state) (s : stats) : org_state :=
  {| collection := collection st; counters := s;
     folder_cache := folder_cache st; processed_ids := processed_ids st |}.

Definition mark_processed (id : string) (st : org_state) : org_state :=
  {| collection := collection st; counters := counters st;
     folder_cache := folder_cache st;
     processed_ids := {[id]} ∪ processed_ids st |}.

(** What the run is given besides the inbox. [folders] tells whether
    [get_or_create_folder] yields a folder for a path below the inbox. *)
Record environment : Type := {
  inbox_EntryID : string;
  sender_scores : gmap string Analyzer.sender_score;
  patterns : Scorer.email_patterns;
  config : gmap string Q;
  llm : option Scorer.llm_service;
  email_tracking : option (gmap string Analyzer.tracking_record);
  now : Z;
  folders : string -> bool;
  dry_run : bool
}.

(** Step 1 of the actions: the target folder, through the cache. *)
Definition target_folder (env : environment) (cache : gset string)
    (folder_name : string) : bool :=
  if bool_decide (folder_name ∈ cache) then true
  else if has_char "/" folder_name then
    let parent_name := first (split "/" folder_name) in
    folders env parent_name && folders env folder_name
  else folders env folder_name.

(** The actions on a message that has a recommendation (only when
    [dry_run] is false). *)
Definition perform_actions (env : environment) (i : nat) (it : item)
    (id : string) (r : Scorer.recommendation) (st : org_state) : org_state :=
  let folder_name := Scorer.folder r in
  if target_folder env (folder_cache st) folder_name then
    let cache := {[folder_name]} ∪ folder_cache st in
    match move_outcome it with
    | Raise =>
        {| collection := collection st;
           counters := add_error (counters st);
           folder_cache := cache;
           processed_ids := {[id]} ∪ processed_ids st |}
    | Ret _ =>
        let s1 := add_moved (counters st) in
        let s2 :=
          if Scorer.flag r then
            match flag_outcome it with
            | Ret _ => add_flagged s1
            | Raise => s1
            end
          else s1 in
        let s3 :=
          if Scorer.create_task r then
            match task_outcome it with
            | Ret true => add_task s2
            | _ => s2
            end
          else s2 in
        {| collection :=
             (firstn i (collection st) ++ skipn (S i) (collection st))%list;
           counters := s3;
           folder_cache := cache;
           processed_ids := {[id]} ∪ processed_ids st |}
    end
  else with_counters st (add_error (counters st)).

(** The body of the [for] loop for the item at index [i] (zero-based). *)
Definition organize_item (env : environment) (i : nat) (it : item)
    (st : org_state) : org_state :=
  if negb (fetched it) then with_counters st (add_error (counters st))
  else
    match item_EntryID it with
    | ComError => with_counters st (add_error (counters st))
    | Missing | Has None => st
    | Has (Some entry_id) =>
      if negb (nonempty entry_id) then st
      else if bool_decide (entry_id ∈ processed_ids st) then st
      else
        match item_Class it with
        | ComError => with_counters st (add_error (counters st))
        | Missing => st
        | Has class =>
          if negb (class =? 43)%Z then st
          else
            match parent_EntryID it with
            | Raise => with_counters st (add_error (counters st))
            | Ret parent =>
              if negb (bool_decide (parent = Some (inbox_EntryID env))) then
                mark_processed entry_id
                  (with_counters st (add_skipped (counters st)))
              else
                match Scorer.recommend_action (sender_scores env)
                        (patterns env) (config env) (llm env)
                        (email_tracking env) (now env) (mail it) with
                | None =>
                    (* the warning reads the subject after counting *)
                    let s1 := add_error (counters st) in
                    match getattr (Scorer.Subject (mail it)) "N/A" with
                    | Raise => with_counters st (add_error s1)
                    | Ret _ => with_counters st s1
                    end
                | Some recommendation =>
                    let s1 :=
                      add_processed (Scorer.folder recommendation)
                        (counters st) in
                    match getattr (Scorer.Subject (mail it)) "No Subject" with
                    | Raise => with_counters st (add_error s1)
                    | Ret _ =>
                        if dry_run env then with_counters st s1
                        else perform_actions env i it entry_id recommendation
                               (with_counters st s1)
                    end
                end
            end
        end
    end.

(** The [for i in range(num_items_to_process)] loop from index [i] on, with
    the bounds check that ends it. *)
Fixpoint organize_loop (env : environment) (remaining : nat) (i : nat)
    (st : org_state) : org_state :=
  match remaining with
  | O => st
  | S remaining' =>
      match collection st !! i with
      | None => st
      | Some it => organize_loop env remaining' (S i) (organize_item env i it st)
      end
  end.

(** [organize_inbox(inbox, sender_scores, email_patterns, config, llm,
    email_tracking, limit, dry_run)] on an inbox whose items are readable:
    the returned [stats] (and the collection as the run leaves it). *)
Definition organize_inbox (env : environment) (limit : option Z)
    (inbox_items : list item) : org_state :=
  let total_inbox_count := Z.of_nat (length inbox_items) in
  let num_items_to_process :=
    match limit with
    | None => total_inbox_count
    | Some l => Z.min total_inbox_count l
    end in
  organize_loop env (Z.to_nat num_items_to_process) 0
    {| collection := inbox_items; counters := no_stats;
       folder_cache := ∅; processed_ids := ∅ |}.

End Organizer.


(* ===================================================================== *)
(** * analyzer.py: the scan of the sent items *)
(* ===================================================================== *)

Module Sent.
Import Py.
Local Open Scope string_scope.
Local Open Scope py_scope.

(** A recipient of a sent message as the scan reads it. *)
Record recipient : Type := {
  RecipientType : attr Z;
  Address : attr (option string);
  Name : attr (option string)
}.

(** A message of the Sent Items folder. *)
Record sent_item : Type := {
  Class : attr Z;
  Recipients : attr (list recipient);
  ConversationID : attr (option string);
  SentOn : attr (option Z);
  Subject : attr string;
  Body : attr string
}.

(** An entry of [self.conversation_history]. *)
Record history_message : Type := {
  hm_received_time : field Z;
  hm_sender : field string
}.

(** An entry of [conversation_threads]. *)
Record thread_message : Type := {
  sent_time : Z;
  thread_recipients : list string;
  thread_subject : string;
  body_length : nat
}.

(** The three dictionaries of one run and the counter of the log. *)
Record sent_state : Type := {
  response_data : gmap string (list Analyzer.response);
  sender_initiations : gmap string Analyzer.initiation;
  conversation_threads : gmap string (list thread_message);
  processed_count : Z
}.

Definition no_sent_state : sent_state :=
  {| response_data := ∅; sender_initiations := ∅;
     conversation_threads := ∅; processed_count := 0 |}.

(** [self._normalize_contact(contact)] on a value that may be [None]. *)
Definition normalize_optional (contact_map : gmap string string)
    (contact : option string) : string :=
  match contact with
  | Some c => Analyzer._normalize_contact contact_map c
  | None => "unknown"
  end.

(** One round of [for recipient in item.Recipients]: the normalized
    recipient and whether it is a To recipient. *)
Definition read_recipient (contact_map : gmap string string) (r : recipient)
  : pyres (string * bool) :=
  do recipient_type <- getattr (RecipientType r) 1%Z;
  do address <- getattr (Address r) None;
  do name <- getattr (Name r) (Some "Unknown");
  let raw_recipient :=
    match address with
    | Some a => if nonempty a && has_at a then Some a else name
    | None => name
    end in
  let normalized_recipient := normalize_optional contact_map raw_recipient in
  Ret (normalized_recipient, (recipient_type =? 1)%Z).

(** The loop over the recipients inside its [try]: a COM error ends it and
    leaves the two lists as they are. *)
Fixpoint read_recipients (contact_map : gmap string string)
    (rs : list recipient) (all_recipients recipients_to : list string)
  : list string * list string :=
  match rs with
  | [] => (all_recipients, recipients_to)
  | r :: rest =>
      match read_recipient contact_map r with
      | Raise => (all_recipients, recipients_to)
      | Ret (normalized_recipient, is_to) =>
          read_recipients contact_map rest
            (all_recipients ++ [normalized_recipient])%list
            (if is_to then (recipients_to ++ [normalized_recipient])%list
             else recipients_to)
      end
  end.

(** [sender_initiations[recipient]['count'] += 1] and the append of the
    date, on a [defaultdict]. *)
Definition add_initiation (sent_on_time_naive : Z)
    (initiations : gmap string Analyzer.initiation) (recipient : string)
  : gmap string Analyzer.initiation :=
  let old :=
    default {| Analyzer.in_count := 0; Analyzer.in_dates := [] |}
      (initiations !! recipient) in
  <[recipient :=
      {| Analyzer.in_count := (Analyzer.in_count old + 1)%Z;
         Analyzer.in_dates :=
           (Analyzer.in_dates old ++ [sent_on_time_naive])%list |}]>
    initiations.

(** [msg.get('received_time')] *)
Definition received_time_of (m : history_message) : option Z :=
  match hm_received_time m with
  | Val t => Some t
  | _ => None
  end.

(** The most recent message of the thread received before the reply. *)
Definition find_parent (thread_history : list history_message)
    (sent_on_time_naive : Z) : option history_message :=
  List.find
    (fun msg_in_thread =>
       match received_time_of msg_in_thread with
       | Some msg_received_time => (msg_received_time <? sent_on_time_naive)%Z
       | None => false
       end)
    (List.rev thread_history).

(** [response_data[parent_sender].append(...)] for a reply whose parent is
    found in the conversation history. *)
Definition add_response (contact_map : gmap string string)
    (conversation_history : gmap string (list history_message))
    (conversation_id : string) (sent_on_time_naive : Z) (body_len : nat)
    (responses : gmap string (list Analyzer.response))
  : gmap string (list Analyzer.response) :=
  let thread_history := default [] (conversation_history !! conversation_id) in
  match find_parent thread_history sent_on_time_naive with
  | Some parent_message =>
      match received_time_of parent_message with
      | Some parent_received =>
          let parent_sender :=
            normalize_optional contact_map
              (dict_get (hm_sender parent_message) "Unknown Sender") in
          let response_time_hours :=
            (inject_Z (sent_on_time_naive - parent_received) / 3600)%Q in
          <[parent_sender :=
              (default [] (responses !! parent_sender)
               ++ [{| Analyzer.response_time := response_time_hours;
                      Analyzer.response_length := body_len;
                      Analyzer.sent_date := sent_on_time_naive |}])%list]>
            responses
      | None => responses
      end
  | None => responses
  end.

(** The body of the [try] for one fetched item. *)
Definition sent_item_body (contact_map : gmap string string)
    (conversation_history : gmap string (list history_message))
    (item : sent_item) (st : sent_state) : pyres sent_state :=
  match Class item with
  | ComError => Raise
  | Missing => Ret st
  | Has class =>
    if negb (class =? 43)%Z then Ret st
    else
      do lists <-
        match Recipients item with
        | ComError => Ret ([], [])
        | Missing => Raise
        | Has rs => Ret (read_recipients contact_map rs [] [])
        end;
      let '(all_recipients, recipients_to) := lists in
      do conversation_id <- getattr (ConversationID item) None;
      do sent_on_time <- getattr (SentOn item) None;
      do subject <- getattr (Subject item) "";
      do body <- getattr (Body item) "";
      let body_len := String.length body in
      match sent_on_time with
      | None => Ret st
      | Some sent_on_time_naive =>
          let is_reply := startswith (lower subject) "re:" in
          let is_forward := startswith (lower subject) "fw:" in
          let initiations :=
            if negb is_reply && negb is_forward then
              fold_left (add_initiation sent_on_time_naive) recipients_to
                (sender_initiations st)
            else sender_initiations st in
          let responses :=
            match conversation_id with
            | Some id =>
                if is_reply && nonempty id then
                  add_response contact_map conversation_history id
                    sent_on_time_naive body_len (response_data st)
                else response_data st
            | None => response_data st
            end in
          let threads :=
            match conversation_id with
            | Some id =>
                if nonempty id then
                  <[id :=
                      (default [] (conversation_threads st !! id)
                       ++ [{| sent_time := sent_on_time_naive;
                              thread_recipients := all_recipients;
                              thread_subject := subject;
                              body_length := body_len |}])%list]>
                    (conversation_threads st)
                else conversation_threads st
            | None => conversation_threads st
            end in
          Ret {| response_data := responses;
                 sender_initiations := initiations;
                 conversation_threads := threads;
                 processed_count := (processed_count st + 1)%Z |}
      end
  end.

(** One round of the [for] loop: [Item(i + 1)] or the body may raise, and
    the round then changes nothing. *)
Definition sent_round (contact_map : gmap string string)
    (conversation_history : gmap string (list history_message))
    (st : sent_state) (fetched : pyres sent_item) : sent_state :=
  match (do item <- fetched;
         sent_item_body contact_map conversation_history item st) with
  | Ret st' => st'
  | Raise => st
  end.

(** What [analyze_sent_items] returns and the [sender_scores] it stores. *)
Record sent_analysis : Type := {
  collected : sent_state;
  new_sender_scores : list (string * Analyzer.sender_score)
}.

(** [analyze_sent_items(self, max_items)] on an available Sent Items
    folder. [max_items] is 0 for [None]; [max_analysis_emails] is the
    integer [self.config.get('max_analysis_emails', 5000)]. *)
Definition analyze_sent_items (config : gmap string Q)
    (max_analysis_emails : Z)
    (conversation_history : gmap string (list history_message))
    (max_items : Z) (sent_items_collection : list (pyres sent_item))
    (self : Analyzer.analyzer) : sent_analysis :=
  let max_items :=
    if (max_items =? 0)%Z then max_analysis_emails else max_items in
  let total_items := Z.of_nat (length sent_items_collection) in
  let num_to_process := Z.min total_items max_items in
  let st :=
    fold_left
      (sent_round (Analyzer.an_contact_map self) conversation_history)
      (firstn (Z.to_nat num_to_process) sent_items_collection)
      no_sent_state in
  {| collected := st;
     new_sender_scores :=
       Analyzer._calculate_contact_importance config self
         (response_data st) (sender_initiations st) |}.

End Sent.

(* ===================================================================== *)
(** * config.py *)
(* ===================================================================== *)

Module Config.
Local Open Scope string_scope.

(** The values of a configuration: what [json.load] yields and what the
    literal [DEFAULT_CONFIG] holds. *)
#[local] Set Warnings "-register-all".
Inductive json : Type :=
| JNull : json
| JBool : bool -> json
| JNum : Q -> json
| JStr : string -> json
| JArr : list json -> json
| JObj : gmap string json -> json.

Definition copilot_proxy_defaults : gmap string json :=
  <["work_dir" := JStr "./copilot_work"]>
  (<["cache_dir" := JStr "./copilot_cache"]>
  (<["wait_time" := JNum 15]>
  (<["use_cache" := JBool true]> ∅))).

Definition llm_config_defaults : gmap string json :=
  <["api_type" := JStr "local"]>
  (<["api_endpoint" := JStr "http://localhost:1234/v1/chat/completions"]>
  (<["model" := JStr "local-model"]>
  (<["max_tokens" := JNum 1500]>
  (<["temperature" := JNum (1 # 10)]>
  (<["use_cache" := JBool true]>
  (<["timeout" := JNum 120]>
  (<["use_copilot_proxy" := JBool false]>
  (<["copilot_proxy" := JObj copilot_proxy_defaults]> ∅)))))))).

Definition DEFAULT_CONFIG : gmap string json :=
  <["sender_weight" := JNum (4 # 10)]>
  (<["topic_weight" := JNum (25 # 100)]>
  (<["temporal_weight" := JNum (15 # 100)]>
  (<["message_state_weight" := JNum (1 # 10)]>
  (<["recipient_weight" := JNum (1 # 10)]>
  (<["high_priority_threshold" := JNum (8 # 10)]>
  (<["medium_priority_threshold" := JNum (5 # 10)]>
  (<["response_time_weight" := JNum (4 # 10)]>
  (<["response_rate_weight" := JNum (4 # 10)]>
  (<["response_length_weight" := JNum (2 # 10)]>
  (<["max_analysis_emails" := JNum 5000]>
  (<["min_emails_for_pattern" := JNum 5]>
  (<["days_for_temporal_analysis" := JNum 90]>
  (<["use_llm_for_content" := JBool true]>
  (<["use_llm_fallback" := JBool true]>
  (<["llm_cache_dir" := JStr "./llm_cache"]>
  (<["llm_required" := JBool false]>
  (<["enhanced_fallback" := JBool true]>
  (<["nlp_extract_topics_count" := JNum 5]>
  (<["nlp_detect_action_items" := JBool true]>
  (<["nlp_use_keyword_boost" := JBool true]>
  (<["unread_bonus" := JNum (1 # 10)]>
  (<["flagged_bonus" := JNum (15 # 100)]>
  (<["due_today_bonus" := JNum (25 # 100)]>
  (<["due_soon_bonus" := JNum (15 # 100)]>
  (<["high_importance_bonus" := JNum (2 # 10)]>
  (<["off_hours_bonus" := JNum (5 # 100)]>
  (<["to_me_bonus" := JNum (15 # 100)]>
  (<["direct_to_me_bonus" := JNum (1 # 10)]>
  (<["many_recipients_penalty" := JNum (1 # 10)]>
  (<["cc_me_penalty" := JNum (5 # 100)]>
  (<["llm_config" := JObj llm_config_defaults]>
   ∅))))))))))))))))))))))))))))))).

(** The configuration file: absent, present but not readable as JSON, or
    holding a JSON object. *)
Inductive config_file : Type :=
| NotFound : config_file
| Unreadable : config_file
| Parsed : gmap string json -> config_file.

(** [d.update(other)] on dictionaries. *)
Definition update (d other : gmap string json) : gmap string json :=
  other ∪ d.

(** [load_config(config_path)]. After [config.update(user_config)] the
    entry [config['llm_config']] is the very object
    [user_config['llm_config']], which the second update then merges into
    itself; when that object is no dictionary the update raises and the
    handler returns the configuration as it is by then. *)
Definition load_config (file : config_file) : gmap string json :=
  let config := DEFAULT_CONFIG in
  match file with
  | NotFound => config
  | Unreadable => config
  | Parsed user_config =>
      let config := update config user_config in
      match user_config !! "llm_config" with
      | Some user_section =>
          match config !! "llm_config" with
          | Some _ =>
              match user_section with
              | JObj section =>
                  <["llm_config" := JObj (update section section)]> config
              | _ => config
              end
          | None => <["llm_config" := user_section]> config
          end
      | None => config
      end
  end.

End Config.
(* ===================================================================== *)
(** * Notions used to state the properties *)
(* ===================================================================== *)

Module Spec.
Import Py.
Local Open Scope string_scope.

(** A canonical address: lower case and with an at sign. *)
Definition canonical_address (v : string) : Prop :=
  has_at v = true /\ lower v = v.

(** An alias map is well formed when it maps names to canonical addresses;
    the maps that the resolver builds and extends are. *)
Definition well_formed (contact_map : gmap string string) : Prop :=
  map_Forall (fun _ v => canonical_address v) contact_map.

(** The transition of the tracking counter. *)
Definition next_count (unread : bool) (previous : Z) : Z :=
  if unread then (previous + 1)%Z else 0%Z.

(** The counter stored for a message, 0 for a message never seen. *)
Definition stored_count (tracking : gmap string Analyzer.tracking_record)
    (id : string) : option Z :=
  dict_get
    (Analyzer.tr_check_count (default Analyzer.no_record (tracking !! id)))
    0%Z.

(** The scan reads a mail item with this entry id and this unread flag. *)
Definition observes (it : Analyzer.inbox_item) (id : string) (unread : bool)
  : Prop :=
  Analyzer.Class it = Has 43%Z /\ Analyzer.EntryID it = Has id /\ id <> ""
  /\ Analyzer.UnRead it = Has unread.

(** The message is among the scanned items, once. *)
Definition observed_in (items : list Analyzer.inbox_item) (id : string)
    (unread : bool) : Prop :=
  exists before it after,
    items = (before ++ it :: after)%list /\ observes it id unread /\
    forall other, In other (before ++ after)%list ->
                  Analyzer.EntryID other <> Has id.

(** The candidate addresses recorded for a name. *)
Fixpoint table_lookup (name : string) (t : Analyzer.name_table)
  : option (list string) :=
  match t with
  | [] => None
  | (n, emails) :: t' =>
      if String.eqb n name then Some emails else table_lookup name t'
  end.

(** The address that Step 3 maps a name to, if any: the strictly best
    scoring candidate, accepted from score 1 on. *)
Definition chosen (name : string) (emails : list string) : option string :=
  match Analyzer.best_match name emails with
  | (Some best_email, best_score) =>
      if nonempty best_email && (1 <=? best_score)%Z then Some best_email
      else None
  | (None, _) => None
  end.

(** The address of the first direct pair of a name that Step 4 accepts. *)
Fixpoint first_direct (name : string) (pairs : list (string * string))
  : option string :=
  match pairs with
  | [] => None
  | (display_name, email) :: rest =>
      if nonempty display_name && nonempty email && has_at email
         && String.eqb display_name name
      then Some email else first_direct name rest
  end.

(** [extends P t t']: [t'] is [t] after some additions that satisfy [P]. *)
Inductive extends (P : string -> string -> Prop)
  : Analyzer.name_table -> Analyzer.name_table -> Prop :=
| extends_refl t : extends P t t
| extends_add t t' name email :
    extends P t t' -> P name email -> extends P t (Analyzer.table_add name email t').

(** The emails of a table all satisfy [Q]. *)
Definition emails_all (Q : string -> Prop) (t : Analyzer.name_table) : Prop :=
  forall name emails email,
    table_lookup name t = Some emails -> In email emails -> Q email.

(** [covers t name email]: the address is a candidate for the name. *)
Definition covers (t : Analyzer.name_table) (name email : string) : Prop :=
  exists emails, table_lookup name t = Some emails /\ In email emails.

(** What Step 4 requires of a pair. *)
Definition accepted (p : string * string) : Prop :=
  nonempty (fst p) = true /\ canonical_address (snd p).

(** Additions of canonical addresses. *)
Definition canonical_added (_ email : string) : Prop :=
  canonical_address email.

(** The pair that the inbox scan captures from an item. *)
Definition captured_pair (it : Analyzer.inbox_item) : list (string * string) :=
  match access (Analyzer.Class it) with
  | Ret class =>
      if (class =? 43)%Z then
        match safe_get (Analyzer.SenderName it),
              safe_get (Analyzer.SenderEmailAddress it) with
        | Some n, Some e =>
            if nonempty n && nonempty e && has_at e
            then [(lower n, lower e)] else []
        | _, _ => []
        end
      else []
  | Raise => []
  end.

(** The last address paired with a name in a list of pairs that the scan
    accepts. *)
Definition last_scanned (name : string) (pairs : list (string * string))
  : option string :=
  first_direct name (List.rev pairs).

(** The clamp of a score to the unit interval. *)
Definition clamp01 (x : Q) : Q := Qmax 0 (Qmin 1 x).

(** The five configured weights and their sum. *)
Definition configured_weights (config : gmap string Q) : Q * Q * Q * Q * Q :=
  (cfg_get config "sender_weight" (4 # 10),
   cfg_get config "topic_weight" (25 # 100),
   cfg_get config "temporal_weight" (15 # 100),
   cfg_get config "message_state_weight" (1 # 10),
   cfg_get config "recipient_weight" (1 # 10)).

Definition sum5 (w : Q * Q * Q * Q * Q) : Q :=
  let '(a, b, c, d, e) := w in (a + b + c + d + e)%Q.

Definition scale5 (k : Q) (w : Q * Q * Q * Q * Q) : Q * Q * Q * Q * Q :=
  let '(a, b, c, d, e) := w in ((a / k)%Q, (b / k)%Q, (c / k)%Q, (d / k)%Q, (e / k)%Q).

Definition nonneg5 (w : Q * Q * Q * Q * Q) : Prop :=
  let '(a, b, c, d, e) := w in
  (0 <= a /\ 0 <= b /\ 0 <= c /\ 0 <= d /\ 0 <= e)%Q.

(** No attribute that [score_email] reads outside an inner [try] raises,
    and the content analysis returns. *)
Definition readable (item : Scorer.email_item) : Prop :=
  Scorer.SenderName item <> ComError
  /\ Scorer.Subject item <> ComError
  /\ Scorer.Body item <> ComError
  /\ Scorer.ReceivedTime item <> ComError
  /\ Scorer.ConversationID item <> ComError
  /\ Scorer.content item <> Raise
  /\ Scorer.EntryID item <> ComError
  /\ Scorer.Unread item <> ComError
  /\ Scorer.FlagStatus item <> ComError
  /\ Scorer.Importance item <> ComError
  /\ Scorer.FlagDueBy item <> ComError.

(** No stored tracking counter is [None]. *)
Definition counters_stored
    (email_tracking : option (gmap string Analyzer.tracking_record)) : Prop :=
  forall tracking id r,
    email_tracking = Some tracking -> tracking !! id = Some r ->
    Analyzer.tr_check_count r <> IsNone.

End Spec.

(* ===================================================================== *)
(** * Further notions: invariants of the stores *)
(* ===================================================================== *)

Module Invariants.
Import Py.
Local Open Scope string_scope.

(** An alias entry that [_normalize_contact] can reach and that yields a
    canonical address: the name is not empty and in lower case, the address
    is in lower case and has an at sign. *)
Definition sound_alias (name address : string) : Prop :=
  name <> "" /\ lower name = name /\ Spec.canonical_address address.

Definition sound_map (contact_map : gmap string string) : Prop :=
  map_Forall sound_alias contact_map.

(** The counters of a sender add up, and the sender was seen. *)
Definition consistent (b : Analyzer.behavior) : Prop :=
  (Analyzer.total b
   = Analyzer.read_kept b + Analyzer.unread_kept b + Analyzer.deleted b
     + Analyzer.moved b)%Z
  /\ (0 <= Analyzer.read_kept b)%Z /\ (0 <= Analyzer.unread_kept b)%Z
  /\ (0 <= Analyzer.deleted b)%Z /\ (0 <= Analyzer.moved b)%Z
  /\ (0 < Analyzer.total b)%Z.

(** The stored counter of a record is a number that is not negative. *)
Definition counted (r : Analyzer.tracking_record) : Prop :=
  exists count,
    dict_get (Analyzer.tr_check_count r) 0%Z = Some count /\ (0 <= count)%Z.

(** The statistics of a run add up: every processed message is counted under
    exactly one kind of folder, and no action is counted without a move. *)
Definition balanced (s : Organizer.stats) : Prop :=
  (Organizer.processed s
   = Organizer.high_priority s + Organizer.medium_priority s
     + Organizer.action_required s + Organizer.category_folders s
     + Organizer.archived s)%Z
  /\ (0 <= Organizer.high_priority s)%Z
  /\ (0 <= Organizer.medium_priority s)%Z
  /\ (0 <= Organizer.action_required s)%Z
  /\ (0 <= Organizer.category_folders s)%Z
  /\ (0 <= Organizer.archived s)%Z
  /\ (0 <= Organizer.errors s)%Z
  /\ (0 <= Organizer.skipped_subfolder s)%Z
  /\ (0 <= Organizer.flagged s <= Organizer.moved s)%Z
  /\ (0 <= Organizer.task_created s <= Organizer.moved s)%Z
  /\ (Organizer.moved s <= Organizer.processed s)%Z.

(** The work of a run stays within a number of loop rounds. *)
Definition within (rounds : Z) (s : Organizer.stats) : Prop :=
  (Organizer.processed s + Organizer.skipped_subfolder s <= rounds)%Z
  /\ (Organizer.errors s <= 2 * rounds)%Z.

(** An initiation record counts its dates, and has at least one. *)
Definition dated (i : Analyzer.initiation) : Prop :=
  Analyzer.in_count i = Z.of_nat (length (Analyzer.in_dates i))
  /\ (0 < Analyzer.in_count i)%Z.

(** A reply sent after the message it answers. *)
Definition after_parent (r : Analyzer.response) : Prop :=
  (0 < Analyzer.response_time r)%Q.

(** A contact in the form that normalization gives and keeps. *)
Definition normal_form (contact_map : gmap string string) (contact : string)
  : Prop :=
  contact = "unknown"
  \/ Analyzer._normalize_contact contact_map contact = contact.

End Invariants.


(* ===================================================================== *)
(** * The reply component as the specification words it *)
(* ===================================================================== *)

Module ReplyFormula.
Import Py.
Local Open Scope Q_scope.





End ReplyFormula.
(* ===================================================================== *)
(** * Sample inputs *)
(* ===================================================================== *)

Module Samples.
Import Py.
Local Open Scope string_scope.

Definition sample_item (id : string) (unread : bool) : Analyzer.inbox_item :=
  {| Analyzer.Class := Has 43%Z; Analyzer.EntryID := Has id;
     Analyzer.SenderName := Has "John Doe";
     Analyzer.SenderEmailAddress := Has "jdoe@example.com";
     Analyzer.ExchangeSmtp := Raise;
     Analyzer.FolderPath := Missing; Analyzer.ParentName := Missing;
     Analyzer.UnRead := Has unread;
     Analyzer.ReceivedTime := Has 1000%Z;
     Analyzer.LastModificationTime := Has 1000%Z;
     Analyzer.Subject := Has "Hello" |}.

Definition no_analysis : Analyzer.analyzer :=
  {| Analyzer.an_contact_map := ∅; Analyzer.an_email_tracking := ∅;
     Analyzer.an_sender_inbox_behavior := ∅;
     Analyzer.an_sender_read_kept_stats := ∅ |}.

(** A promotional message from a sender of no importance, received one
    hundred days before the scoring. *)
Definition promo_analysis (items : list string) : Scorer.content_analysis :=
  {| Scorer.category := Some "promotional"; Scorer.urgency := Some "low";
     Scorer.action_items := items; Scorer.topics := [] |}.

Definition promo_mail (items : list string) : Scorer.email_item :=
  {| Scorer.SenderEmailAddress := Has "deals@shop.example";
     Scorer.SenderName := Has "Shop"; Scorer.Subject := Has "Sale";
     Scorer.Body := Has "Everything must go";
     Scorer.ReceivedTime := Has (Some 0%Z);
     Scorer.ConversationID := Has None;
     Scorer.EntryID := Has (Some "m1"); Scorer.Unread := Has true;
     Scorer.FlagStatus := Has 0%Z; Scorer.FlagDueBy := Has None;
     Scorer.Importance := Has 1%Z; Scorer.Session := Has None;
     Scorer.To := Has ""; Scorer.CC := Has "";
     Scorer.Recipients := Has None;
     Scorer.content := Ret (promo_analysis items) |}.

Definition unimportant : Analyzer.sender_score :=
  {| Analyzer.raw_score := 0; Analyzer.reply_count := 0;
     Analyzer.initiation_count := 1; Analyzer.read_kept_count := 0;
     Analyzer.total_interactions := 1; Analyzer.last_interaction := None;
     Analyzer.normalized_score := 0; Analyzer.score := 0 |}.

Definition promo_scores : gmap string Analyzer.sender_score :=
  {[ "deals@shop.example" := unimportant ]}.

Definition no_patterns : Scorer.email_patterns :=
  {| Scorer.sender_read_ratios := None |}.

Definition hundred_days : Z := 8640000.

(** A scored message of high importance with final score 0.75. *)
Definition important_data : Scorer.score_data :=
  {| Scorer.final_score := 75 # 100;
     Scorer.score_components :=
       {| Scorer.sender_score := 1; Scorer.topic_score := 7 # 10;
          Scorer.temporal_score := 7 # 10;
          Scorer.message_state_score := 5 # 10;
          Scorer.recipient_score := 5 # 10; Scorer.urgency_score := 6 # 10;
          Scorer.reopen_bonus := 0; Scorer.recency_score := 85 # 100 |};
     Scorer.score_metadata :=
       {| Scorer.sender := "boss@example.com"; Scorer.subject := "Budget";
          Scorer.received_time := 0; Scorer.is_reply := false;
          Scorer.is_forward := false; Scorer.conversation_id := None;
          Scorer.analysis :=
            {| Scorer.category := Some "professional";
               Scorer.urgency := Some "medium"; Scorer.action_items := [];
               Scorer.topics := [] |};
          Scorer.is_unread := true; Scorer.is_flagged := false;
          Scorer.importance := 2; Scorer.flag_due_by := None |} |}.

(** A professional message of high importance from the most important
    sender, received twelve hours before the scoring; its final score lies
    between 0.7 and 0.8. *)
Definition important : Analyzer.sender_score :=
  {| Analyzer.raw_score := 3; Analyzer.reply_count := 2;
     Analyzer.initiation_count := 4; Analyzer.read_kept_count := 0;
     Analyzer.total_interactions := 6; Analyzer.last_interaction := None;
     Analyzer.normalized_score := 1; Analyzer.score := 1 |}.

Definition boss_scores : gmap string Analyzer.sender_score :=
  {[ "boss@example.com" := important ]}.

Definition important_mail : Scorer.email_item :=
  {| Scorer.SenderEmailAddress := Has "boss@example.com";
     Scorer.SenderName := Has "Boss"; Scorer.Subject := Has "Budget";
     Scorer.Body := Has "See the attached figures";
     Scorer.ReceivedTime := Has (Some 8596800%Z);
     Scorer.ConversationID := Has None;
     Scorer.EntryID := Has (Some "m3"); Scorer.Unread := Has true;
     Scorer.FlagStatus := Has 0%Z; Scorer.FlagDueBy := Has None;
     Scorer.Importance := Has 2%Z; Scorer.Session := Has None;
     Scorer.To := Has ""; Scorer.CC := Has "";
     Scorer.Recipients := Has None;
     Scorer.content :=
       Ret {| Scorer.category := Some "professional";
              Scorer.urgency := Some "medium";
              Scorer.action_items := []; Scorer.topics := [] |} |}.

Definition important_mail_data : Scorer.score_data :=
  Eval vm_compute in
    default important_data
      (Scorer.score_email boss_scores no_patterns ∅ None hundred_days
         important_mail).

(** What [score_email] returns for the promotional message, without and
    with an action item. *)
Definition promo_data : Scorer.score_data :=
  Eval vm_compute in
    default important_data
      (Scorer.score_email promo_scores no_patterns ∅ None hundred_days
         (promo_mail [])).

Definition promo_action_data : Scorer.score_data :=
  Eval vm_compute in
    default important_data
      (Scorer.score_email promo_scores no_patterns ∅ None hundred_days
         (promo_mail ["reply by Friday"])).

(** A read, flagged, overdue message of high importance under a
    configuration with a large read-and-kept bonus and weights that do not
    sum to 1: its message state score before the clamp is 1.5. *)
Definition extreme_config : gmap string Q :=
  <["read_kept_bonus" := (4 # 10)%Q]> (<["message_state_weight" := 1%Q]> ∅).

Definition extreme_mail : Scorer.email_item :=
  {| Scorer.SenderEmailAddress := Has "boss@example.com";
     Scorer.SenderName := Has "Boss"; Scorer.Subject := Has "Re: budget";
     Scorer.Body := Has "Please confirm";
     Scorer.ReceivedTime := Has (Some 8600000%Z);
     Scorer.ConversationID := Has (Some "c1");
     Scorer.EntryID := Has (Some "m2"); Scorer.Unread := Has false;
     Scorer.FlagStatus := Has 2%Z; Scorer.FlagDueBy := Has (Some 8600000%Z);
     Scorer.Importance := Has 2%Z; Scorer.Session := Has None;
     Scorer.To := Has ""; Scorer.CC := Has "";
     Scorer.Recipients := Has None;
     Scorer.content :=
       Ret {| Scorer.category := Some "professional";
              Scorer.urgency := Some "urgent";
              Scorer.action_items := ["confirm"]; Scorer.topics := [] |} |}.

Definition extreme_data : Scorer.score_data :=
  Eval vm_compute in
    default important_data
      (Scorer.score_email ∅ no_patterns extreme_config None hundred_days
         extreme_mail).

(** A dry run over an inbox whose first message cannot be read (its body
    raises a COM error) and whose second message is the promotional one. *)
Definition sample_env : Organizer.environment :=
  {| Organizer.inbox_EntryID := "inbox";
     Organizer.sender_scores := promo_scores;
     Organizer.patterns := no_patterns;
     Organizer.config := ∅;
     Organizer.llm := None;
     Organizer.email_tracking := None;
     Organizer.now := hundred_days;
     Organizer.folders := fun _ => true;
     Organizer.dry_run := true |}.

Definition unreadable_mail : Scorer.email_item :=
  {| Scorer.SenderEmailAddress := Has "deals@shop.example";
     Scorer.SenderName := Has "Shop"; Scorer.Subject := Has "Sale";
     Scorer.Body := ComError;
     Scorer.ReceivedTime := Has (Some 0%Z);
     Scorer.ConversationID := Has None;
     Scorer.EntryID := Has (Some "m0"); Scorer.Unread := Has true;
     Scorer.FlagStatus := Has 0%Z; Scorer.FlagDueBy := Has None;
     Scorer.Importance := Has 1%Z; Scorer.Session := Has None;
     Scorer.To := Has ""; Scorer.CC := Has "";
     Scorer.Recipients := Has None;
     Scorer.content := Ret (promo_analysis []) |}.

Definition inbox_entry (id : string) (m : Scorer.email_item) : Organizer.item :=
  {| Organizer.fetched := true;
     Organizer.item_EntryID := Has (Some id);
     Organizer.item_Class := Has 43%Z;
     Organizer.parent_EntryID := Ret (Some "inbox");
     Organizer.mail := m;
     Organizer.move_outcome := Ret tt;
     Organizer.flag_outcome := Ret tt;
     Organizer.task_outcome := Ret true |}.

Definition sample_inbox : list Organizer.item :=
  [inbox_entry "m0" unreadable_mail; inbox_entry "m1" (promo_mail [])].

Definition fresh_state : Organizer.org_state :=
  {| Organizer.collection := sample_inbox;
     Organizer.counters := Organizer.no_stats;
     Organizer.folder_cache := ∅;
     Organizer.processed_ids := ∅ |}.

(** Sent mail that initiated one conversation with one contact, and with
    two contacts. *)
Definition one_initiation : gmap string Analyzer.initiation :=
  {[ "ann@example.com" :=
       {| Analyzer.in_count := 1; Analyzer.in_dates := [10%Z] |} ]}.

Definition two_initiations : gmap string Analyzer.initiation :=
  <["bob@example.com" :=
      {| Analyzer.in_count := 1; Analyzer.in_dates := [20%Z] |}]>
    one_initiation.

Definition no_score : string * Analyzer.sender_score := ("", unimportant).

Definition single_contact : string * Analyzer.sender_score :=
  Eval vm_compute in
    hd no_score
      (Analyzer._calculate_contact_importance ∅ no_analysis ∅ one_initiation).

Definition two_contacts : list (string * Analyzer.sender_score) :=
  Eval vm_compute in
    Analyzer._calculate_contact_importance ∅ no_analysis ∅ two_initiations.

(** A contact known under her address and under a display name, with one
    reply attributed to each identity: latencies of 12 and 36 hours, bodies
    of 250 and 750 characters, sent ten days apart. *)
Definition sample_aliases : gmap string string :=
  {[ "ann lee" := "ann@example.com" ]}.

Definition sample_replies : gmap string (list Analyzer.response) :=
  <["ann lee" :=
      [{| Analyzer.response_time := 36; Analyzer.response_length := 750;
          Analyzer.sent_date := 864000 |}]]>
    {[ "ann@example.com" :=
         [{| Analyzer.response_time := 12; Analyzer.response_length := 250;
             Analyzer.sent_date := 0 |}] ]}.

(** A sender whose display name is his address: the scan records the
    address as an alias of itself. Two replies to him, thirty days apart. *)
Definition bob_item : Analyzer.inbox_item :=
  {| Analyzer.Class := Has 43%Z; Analyzer.EntryID := Has "m7";
     Analyzer.SenderName := Has "bob@example.com";
     Analyzer.SenderEmailAddress := Has "bob@example.com";
     Analyzer.ExchangeSmtp := Raise;
     Analyzer.FolderPath := Missing; Analyzer.ParentName := Missing;
     Analyzer.UnRead := Has false;
     Analyzer.ReceivedTime := Has 1000%Z;
     Analyzer.LastModificationTime := Has 1000%Z;
     Analyzer.Subject := Has "Minutes" |}.

Definition self_alias : gmap string string :=
  {[ "bob@example.com" := "bob@example.com" ]}.

Definition bob_replies : list Analyzer.response :=
  [{| Analyzer.response_time := 12; Analyzer.response_length := 250;
      Analyzer.sent_date := 0 |};
   {| Analyzer.response_time := 36; Analyzer.response_length := 750;
      Analyzer.sent_date := 2592000 |}].

Definition bob_response_data : gmap string (list Analyzer.response) :=
  {[ "bob@example.com" := bob_replies ]}.

(** A tracking store with a message from John Doe at jdoe@example.com and a
    message from the address john.doe@other.com. *)
Definition tracked (sender name email : string) : Analyzer.tracking_record :=
  {| Analyzer.tr_subject := Val "Hello"; Analyzer.tr_sender := Val sender;
     Analyzer.tr_raw_sender := Val sender;
     Analyzer.tr_sender_name := Val name;
     Analyzer.tr_sender_email := Val email;
     Analyzer.tr_received_time := Val 0%Z;
     Analyzer.tr_last_modified := Val 0%Z;
     Analyzer.tr_folder_path := IsNone;
     Analyzer.tr_is_currently_read := Val true;
     Analyzer.tr_check_count := Val 0%Z;
     Analyzer.tr_last_checked := Val 0%Z |}.

Definition john_store : list (string * Analyzer.tracking_record) :=
  [("m1", tracked "jdoe@example.com" "John Doe" "jdoe@example.com");
   ("m2", tracked "john.doe@other.com" "" "")].

End Samples.


(** * Further sample inputs *)

Module Cases.
Import Py.
Local Open Scope string_scope.
Local Open Scope Z_scope.

(** Two senders, the second of whom wrote three first messages. *)
Definition ranked_initiations : gmap string Analyzer.initiation :=
  <["bob@example.com" :=
      {| Analyzer.in_count := 3; Analyzer.in_dates := [20; 30; 40] |}]>
    Samples.one_initiation.

Definition ranked_contacts : list (string * Analyzer.sender_score) :=
  Eval vm_compute in
    Analyzer._calculate_contact_importance ∅ Samples.no_analysis ∅
      ranked_initiations.

(** Two messages that were unread at the last scan, seen once and three
    times. *)
Definition ignored (count : Z) : Analyzer.tracking_record :=
  {| Analyzer.tr_subject := Val "Hello";
     Analyzer.tr_sender := Val "jdoe@example.com";
     Analyzer.tr_raw_sender := Val "jdoe@example.com";
     Analyzer.tr_sender_name := Val "John Doe";
     Analyzer.tr_sender_email := Val "jdoe@example.com";
     Analyzer.tr_received_time := Val 0;
     Analyzer.tr_last_modified := Val 0;
     Analyzer.tr_folder_path := IsNone;
     Analyzer.tr_is_currently_read := Val false;
     Analyzer.tr_check_count := Val count;
     Analyzer.tr_last_checked := Val 0 |}.

Definition ignored_store : gmap string Analyzer.tracking_record :=
  <["m2" := ignored 3]> {[ "m1" := ignored 1 ]}.

(** A live run in a mailbox where no folder can be found or created. *)
Definition blocked_env : Organizer.environment :=
  {| Organizer.inbox_EntryID := "inbox";
     Organizer.sender_scores := Samples.promo_scores;
     Organizer.patterns := Samples.no_patterns;
     Organizer.config := ∅;
     Organizer.llm := None;
     Organizer.email_tracking := None;
     Organizer.now := Samples.hundred_days;
     Organizer.folders := fun _ => false;
     Organizer.dry_run := false |}.

(** Sent mail: a first message to Ann Lee with a copy to Bob, a reply in
    the conversation c1 sent twelve hours after a message of Ann Lee, a
    forwarded message, and an item that cannot be fetched. *)
Definition to_ann : Sent.recipient :=
  {| Sent.RecipientType := Has 1; Sent.Address := Has (Some "/o=Org/cn=ann");
     Sent.Name := Has (Some "Ann Lee") |}.

Definition cc_bob : Sent.recipient :=
  {| Sent.RecipientType := Has 2;
     Sent.Address := Has (Some "Bob@Example.com");
     Sent.Name := Has (Some "Bob") |}.

Definition sent_mail (subject : string) (conversation : option string)
    (sent_on : Z) : Sent.sent_item :=
  {| Sent.Class := Has 43; Sent.Recipients := Has [to_ann; cc_bob];
     Sent.ConversationID := Has conversation;
     Sent.SentOn := Has (Some sent_on);
     Sent.Subject := Has subject; Sent.Body := Has "Thanks" |}.

Definition sent_folder : list (pyres Sent.sent_item) :=
  [Ret (sent_mail "Lunch" None 100000);
   Ret (sent_mail "RE: Budget" (Some "c1") 43200);
   Raise;
   Ret (sent_mail "FW: Minutes" None 50000)].

Definition sample_history : gmap string (list Sent.history_message) :=
  {[ "c1" := [{| Sent.hm_received_time := Val 0;
                 Sent.hm_sender := Val "Ann Lee" |}] ]}.

Definition aliased_analysis : Analyzer.analyzer :=
  {| Analyzer.an_contact_map := Samples.sample_aliases;
     Analyzer.an_email_tracking := ∅;
     Analyzer.an_sender_inbox_behavior := ∅;
     Analyzer.an_sender_read_kept_stats := ∅ |}.

Definition sent_result : Sent.sent_analysis :=
  Eval vm_compute in
    Sent.analyze_sent_items ∅ 5000 sample_history 0 sent_folder
      aliased_analysis.

Definition sent_result_without_history : Sent.sent_analysis :=
  Eval vm_compute in
    Sent.analyze_sent_items ∅ 5000 ∅ 0 sent_folder aliased_analysis.

(** The configuration file of the example in config.py: a new sender weight
    and a section for the LLM that names a model and a temperature. *)
Definition dummy_section : gmap string Config.json :=
  <["model" := Config.JStr "override-model"]>
    (<["temperature" := Config.JNum (5 # 10)]> ∅).

Definition dummy_config : gmap string Config.json :=
  <["sender_weight" := Config.JNum (6 # 10)]>
    (<["llm_config" := Config.JObj dummy_section]> ∅).

End Cases.
(* ===================================================================== *)
(** * Properties of the Python primitives *)
(* ===================================================================== *)

Module PyProps.
Import Py.
Local Open Scope string_scope.

Ltac by_cases_on_char c :=
  destruct c as [[] [] [] [] [] [] [] []]; reflexivity.

Lemma lower_char_idem (c : ascii) : lower_char (lower_char c) = lower_char c.
Proof. by_cases_on_char c. Qed.

Lemma lower_idem (s : string) : lower (lower s) = lower s.
Proof.
  induction s as [|c s IH]; simpl; [reflexivity|].
  now rewrite lower_char_idem, IH.
Qed.

Lemma at_sign_lower_char (c : ascii) :
  Ascii.eqb at_sign (lower_char c) = Ascii.eqb at_sign c.
Proof. by_cases_on_char c. Qed.

Lemma has_at_lower (s : string) : has_at (lower s) = has_at s.
Proof.
  unfold has_at. induction s as [|c s IH]; cbn [has_char lower]; [reflexivity|].
  now rewrite at_sign_lower_char, IH.
Qed.

Lemma nonempty_lower (s : string) : nonempty (lower s) = nonempty s.
Proof. now destruct s. Qed.

Lemma nonempty_true (s : string) : nonempty s = true <-> s <> "".
Proof. destruct s; simpl; split; congruence. Qed.

Lemma has_at_nonempty (s : string) : has_at s = true -> nonempty s = true.
Proof. now destruct s. Qed.

End PyProps.

Module QProps.
Import Py Spec.
Local Open Scope Q_scope.

Lemma Qgeb_true (a b : Q) : Qgeb a b = true <-> b <= a.
Proof. unfold Qgeb. apply Qle_bool_iff. Qed.

Lemma Qltb_true (a b : Q) : Qltb a b = true <-> a < b.
Proof.
  unfold Qltb. rewrite negb_true_iff.
  split.
  - intros H. apply Qnot_le_lt. intros Hle.
    apply Qle_bool_iff in Hle. congruence.
  - intros H. destruct (Qle_bool b a) eqn:E; [|reflexivity].
    apply Qle_bool_iff in E. lra.
Qed.

Lemma Qltb_false (a b : Q) : Qltb a b = false <-> b <= a.
Proof.
  unfold Qltb. rewrite negb_false_iff. apply Qle_bool_iff.
Qed.

Lemma Qgeb_false (a b : Q) : Qgeb a b = false <-> a < b.
Proof.
  unfold Qgeb. split.
  - intros H. apply Qnot_le_lt. intros Hle.
    apply Qle_bool_iff in Hle. congruence.
  - intros H. destruct (Qle_bool b a) eqn:E; [|reflexivity].
    apply Qle_bool_iff in E. lra.
Qed.

Lemma min2_spec (a b : Q) : min2 a b == Qmin a b.
Proof.
  unfold min2. destruct (Qltb b a) eqn:E.
  - apply Qltb_true in E. symmetry. apply Q.min_r. lra.
  - apply Qltb_false in E. symmetry. apply Q.min_l. exact E.
Qed.

Lemma max2_spec (a b : Q) : max2 a b == Qmax a b.
Proof.
  unfold max2. destruct (Qltb a b) eqn:E.
  - apply Qltb_true in E. symmetry. apply Q.max_r. lra.
  - apply Qltb_false in E. symmetry. apply Q.max_l. exact E.
Qed.

Lemma clamp_bounds (x : Q) : 0 <= max2 0 (min2 1 x) <= 1.
Proof.
  unfold max2, min2.
  destruct (Qltb x 1) eqn:E1.
  - destruct (Qltb 0 x) eqn:E2.
    + apply Qltb_true in E1, E2. lra.
    + lra.
  - destruct (Qltb 0 1) eqn:E2; lra.
Qed.

Lemma clamp01_spec (x : Q) : max2 0 (min2 1 x) == clamp01 x.
Proof.
  unfold clamp01. rewrite max2_spec.
  apply Q.max_compat; [reflexivity|apply min2_spec].
Qed.

End QProps.

(* ===================================================================== *)
(** * Properties of analyzer.py *)
(* ===================================================================== *)

Module AnalyzerProps.
Import Py Analyzer PyProps Spec Samples.
Local Open Scope string_scope.

Lemma normalize_nonempty_spec (cm : gmap string string) (x : string) :
  x <> "" ->
  _normalize_contact cm x =
    if has_at x then lower x
    else match cm !! lower x with
         | Some address => address
         | None => lower x
         end.
Proof.
  intros Hx. unfold _normalize_contact.
  apply nonempty_true in Hx. rewrite Hx. cbn [negb].
  now rewrite has_at_lower.
Qed.

Lemma normalize_result_nonempty (cm : gmap string string) (x : string) :
  well_formed cm -> _normalize_contact cm x <> "".
Proof.
  intros Hwf. unfold _normalize_contact.
  destruct (nonempty x) eqn:Hx; cbn [negb]; [|discriminate].
  destruct (has_at (lower x)) eqn:Hat.
  - apply nonempty_true. now apply has_at_nonempty.
  - destruct (cm !! lower x) as [v|] eqn:Hv.
    + apply nonempty_true, has_at_nonempty. now destruct (Hwf _ _ Hv).
    + apply nonempty_true. now rewrite nonempty_lower.
Qed.

(** C7 (as amended). Contact normalization is idempotent on every non-empty
    identifier under a well-formed alias map (one whose values are lower-case
    addresses): normalizing twice gives what normalizing once gives, where
    normalizing [x] gives the lower-case form of [x] when [x] contains an at
    sign, else the alias of the lower-case form when the map has one, else
    the lower-case form. The empty identifier is normalized to "unknown"
    and is left out. *)
Theorem normalize_contact_idempotent (cm : gmap string string) (x : string) :
  well_formed cm ->
  x <> "" ->
  _normalize_contact cm (_normalize_contact cm x) = _normalize_contact cm x
  /\ _normalize_contact cm x =
       (if has_at x then lower x
        else match cm !! lower x with
             | Some address => address
             | None => lower x
             end).
Proof.
  intros Hwf Hx. split; [|now apply normalize_nonempty_spec].
  rewrite (normalize_nonempty_spec cm (_normalize_contact cm x))
    by now apply normalize_result_nonempty.
  rewrite (normalize_nonempty_spec cm x Hx).
  destruct (has_at x) eqn:Hat.
  - now rewrite has_at_lower, Hat, lower_idem.
  - destruct (cm !! lower x) as [v|] eqn:Hv.
    + destruct (Hwf _ _ Hv) as [Hv1 Hv2]. now rewrite Hv1.
    + now rewrite has_at_lower, Hat, lower_idem, Hv.
Qed.

Lemma normalize_contact_idempotent_witness :
  _normalize_contact (<["john doe" := "jdoe@example.com"]> ∅)
    (_normalize_contact (<["john doe" := "jdoe@example.com"]> ∅) "John Doe")
  = "jdoe@example.com".
Proof.
  destruct (normalize_contact_idempotent
              (<["john doe" := "jdoe@example.com"]> ∅) "John Doe") as [H _].
  - intros k v Hkv. apply lookup_insert_Some in Hkv as [[_ <-]|[_ Hkv]].
    + split; reflexivity.
    + rewrite lookup_empty in Hkv. discriminate.
  - discriminate.
  - rewrite H. vm_compute. reflexivity.
Defined.

Lemma normalize_contact_not_idempotent_on_empty :
  well_formed (<["unknown" := "unknown@example.com"]> ∅) /\
  _normalize_contact (<["unknown" := "unknown@example.com"]> ∅)
    (_normalize_contact (<["unknown" := "unknown@example.com"]> ∅) "")
  <> _normalize_contact (<["unknown" := "unknown@example.com"]> ∅) "".
Proof.
  split.
  - intros k v Hkv. apply lookup_insert_Some in Hkv as [[_ <-]|[_ Hkv]].
    + split; reflexivity.
    + rewrite lookup_empty in Hkv. discriminate.
  - vm_compute. discriminate.
Qed.

(** ** The tracking state machine *)


Lemma scan_item_count_step cm path now st it :
  (processed_count st <= processed_count (scan_item cm path now st it)
   <= processed_count st + 1)%Z.
Proof.
  unfold scan_item.
  repeat case_match; cbn [processed_count]; lia.
Qed.

Lemma scan_loop_fold cm path now max_items items st :
  (max_items = 0 \/
   processed_count st + Z.of_nat (length items) <= max_items)%Z
  \/ items = [] ->
  scan_loop cm path now max_items items st
  = fold_left (scan_item cm path now) items st.
Proof.
  revert st. induction items as [|it rest IH]; intros st Hmax; [reflexivity|].
  cbn [scan_loop fold_left].
  pose proof (scan_item_count_step cm path now st it) as Hstep.
  destruct rest as [|it' rest'].
  - cbn [scan_loop fold_left]. now destruct (_ && _).
  - replace (negb (max_items =? 0)%Z
             && (max_items <=? processed_count (scan_item cm path now st it))%Z)
      with false.
    + apply IH. left. destruct Hmax as [Hmax|]; [|discriminate].
      cbn [length] in *. lia.
    + symmetry. apply andb_false_iff.
      destruct Hmax as [[->|Hmax]|]; [now left|right|discriminate].
      apply Z.leb_gt. cbn [length] in Hmax. lia.
Qed.

Lemma items_to_process_bound max_items items :
  (max_items = 0 \/
   0 + Z.of_nat (length (items_to_process max_items items)) <= max_items)%Z
  \/ items_to_process max_items items = [].
Proof.
  unfold items_to_process. destruct (max_items =? 0)%Z eqn:E.
  - left. left. now apply Z.eqb_eq.
  - destruct (Z.le_gt_cases 0 max_items).
    + left. right. rewrite length_firstn. lia.
    + right. replace (Z.to_nat _) with O by lia. reflexivity.
Qed.

Lemma scan_item_other cm path now st it id :
  EntryID it <> Has id ->
  email_tracking (scan_item cm path now st it) !! id = email_tracking st !! id.
Proof.
  intros Hid. unfold scan_item.
  destruct (access (Class it)) as [|class]; [reflexivity|].
  destruct (negb (class =? 43)%Z); [reflexivity|].
  destruct (EntryID it) as [| |id'] eqn:Eid; cbn [safe_get]; try reflexivity.
  destruct (_ || _); [reflexivity|].
  destruct (new_check_count _ _); [reflexivity|].
  cbn [email_tracking]. apply lookup_insert_ne. congruence.
Qed.

Lemma scan_items_other cm path now items st id :
  (forall other, In other items -> EntryID other <> Has id) ->
  email_tracking (fold_left (scan_item cm path now) items st) !! id
  = email_tracking st !! id.
Proof.
  revert st. induction items as [|it rest IH]; intros st H; [reflexivity|].
  cbn [fold_left]. rewrite IH by (intros; apply H; now right).
  apply scan_item_other, H. now left.
Qed.

Lemma scan_item_observed cm path now st it id unread previous :
  well_formed cm ->
  observes it id unread ->
  stored_count (email_tracking st) id = Some previous ->
  exists r,
    email_tracking (scan_item cm path now st it) !! id = Some r
    /\ tr_check_count r = Val (next_count unread previous)
    /\ tr_is_currently_read r = Val (negb unread).
Proof.
  intros Hwf (Hclass & Hid & Hne & Hunread) Hprev.
  unfold scan_item. rewrite Hclass, Hid, Hunread. cbn [access safe_get].
  cbn [Z.eqb Pos.eqb negb].
  pose proof (normalize_result_nonempty cm (_get_sender_address it) Hwf) as Hs.
  apply nonempty_true in Hs. apply nonempty_true in Hne.
  rewrite Hs, Hne. cbn [negb orb].
  unfold stored_count in Hprev. rewrite Hprev.
  destruct unread; cbn [new_check_count negb need bind];
    eexists; (split; [cbn [email_tracking]; apply lookup_insert_eq|]);
    split; reflexivity.
Qed.

Lemma scan_items_observed cm path now items st id unread previous :
  well_formed cm ->
  observed_in items id unread ->
  stored_count (email_tracking st) id = Some previous ->
  exists r,
    email_tracking (fold_left (scan_item cm path now) items st) !! id = Some r
    /\ tr_check_count r = Val (next_count unread previous)
    /\ tr_is_currently_read r = Val (negb unread).
Proof.
  intros Hwf (before & it & after & -> & Hobs & Hother) Hprev.
  rewrite fold_left_app. cbn [fold_left].
  rewrite scan_items_other by (intros; apply Hother, in_or_app; now right).
  eapply scan_item_observed; eauto.
  unfold stored_count.
  rewrite scan_items_other by (intros; apply Hother, in_or_app; now left).
  exact Hprev.
Qed.


Lemma canonical_lower (e : string) :
  has_at e = true -> canonical_address (lower e).
Proof.
  intros H. split; [now rewrite has_at_lower | apply lower_idem].
Qed.

Lemma scan_item_pairs_canonical cm path now st it :
  Forall (fun p => canonical_address (snd p)) (name_email_pairs st) ->
  Forall (fun p => canonical_address (snd p))
    (name_email_pairs (scan_item cm path now st it)).
Proof.
  intros H. unfold scan_item.
  assert (Hpairs :
    Forall (fun p => canonical_address (snd p))
      match safe_get (SenderName it), safe_get (SenderEmailAddress it) with
      | Some n, Some e =>
          if nonempty n && nonempty e && has_at e
          then (name_email_pairs st ++ [(lower n, lower e)])%list
          else name_email_pairs st
      | _, _ => name_email_pairs st
      end).
  { destruct (safe_get (SenderName it)) as [n|]; [|exact H].
    destruct (safe_get (SenderEmailAddress it)) as [e|]; [|exact H].
    destruct (nonempty n && nonempty e && has_at e) eqn:E; [|exact H].
    apply Forall_app. split; [exact H|].
    constructor; [|constructor]. apply canonical_lower.
    now apply andb_true_iff in E as [_ E]. }
  repeat case_match; cbn [name_email_pairs]; assumption.
Qed.

Lemma scan_items_pairs_canonical cm path now items st :
  Forall (fun p => canonical_address (snd p)) (name_email_pairs st) ->
  Forall (fun p => canonical_address (snd p))
    (name_email_pairs (fold_left (scan_item cm path now) items st)).
Proof.
  revert st. induction items as [|it rest IH]; intros st H; [exact H|].
  cbn [fold_left]. now apply IH, scan_item_pairs_canonical.
Qed.

Lemma add_scanned_pairs_well_formed pairs cm :
  Forall (fun p => canonical_address (snd p)) pairs ->
  well_formed cm -> well_formed (add_scanned_pairs pairs cm).
Proof.
  unfold add_scanned_pairs. revert cm.
  induction pairs as [|[name email] rest IH]; intros cm Hp Hwf; [exact Hwf|].
  cbn [fold_left]. inversion Hp as [|? ? Hhead Hrest]; subst.
  apply IH; [exact Hrest|].
  destruct (_ && _); [|exact Hwf].
  apply map_Forall_insert_2; assumption.
Qed.

Lemma analyze_inbox_behavior_tracking path now max_items items self :
  an_email_tracking (analyze_inbox_behavior path now max_items items self)
  = email_tracking
      (fold_left (scan_item (an_contact_map self) path now)
         (items_to_process max_items items)
         {| email_tracking := an_email_tracking self; sender_behavior := ∅;
            name_email_pairs := []; processed_count := 0 |}).
Proof.
  unfold analyze_inbox_behavior. cbn [an_email_tracking].
  now rewrite scan_loop_fold by apply items_to_process_bound.
Qed.

Lemma analyze_inbox_behavior_well_formed path now max_items items self :
  well_formed (an_contact_map self) ->
  well_formed
    (an_contact_map (analyze_inbox_behavior path now max_items items self)).
Proof.
  intros Hwf. unfold analyze_inbox_behavior. cbn [an_contact_map].
  rewrite scan_loop_fold by apply items_to_process_bound.
  apply add_scanned_pairs_well_formed; [|exact Hwf].
  apply scan_items_pairs_canonical. constructor.
Qed.

(** One scan moves the counter of an observed message by [next_count]. *)
Lemma scan_transition path now max_items items self id unread previous :
  well_formed (an_contact_map self) ->
  observed_in (items_to_process max_items items) id unread ->
  stored_count (an_email_tracking self) id = Some previous ->
  stored_count
    (an_email_tracking (analyze_inbox_behavior path now max_items items self))
    id
  = Some (next_count unread previous).
Proof.
  intros Hwf Hobs Hprev.
  rewrite analyze_inbox_behavior_tracking.
  destruct (scan_items_observed (an_contact_map self) path now
              (items_to_process max_items items)
              {| email_tracking := an_email_tracking self;
                 sender_behavior := ∅; name_email_pairs := [];
                 processed_count := 0 |} id unread previous Hwf Hobs Hprev)
    as (r & Hr & Hcount & _).
  unfold stored_count. rewrite Hr. simpl. now rewrite Hcount.
Qed.

(** Over successive scans the counter follows the read flags. *)
Lemma scans_transition path max_items scans flags self id previous :
  well_formed (an_contact_map self) ->
  Forall2 (fun scan unread =>
             observed_in (items_to_process max_items (snd scan)) id unread)
    scans flags ->
  stored_count (an_email_tracking self) id = Some previous ->
  stored_count (an_email_tracking (run_scans path max_items scans self)) id
  = Some (fold_left (fun count unread => next_count unread count) flags
            previous).
Proof.
  intros Hwf Hall. revert self previous Hwf.
  induction Hall as [|[now items] unread scans flags Hobs _ IH];
    intros self previous Hwf Hprev; [exact Hprev|].
  unfold run_scans. cbn [fold_left fst snd].
  apply IH.
  - now apply analyze_inbox_behavior_well_formed.
  - now apply scan_transition.
Qed.

Lemma count_after_unread_scans (n : nat) (previous : Z) :
  fold_left (fun count unread => next_count unread count) (repeat true n)
    previous
  = (previous + Z.of_nat n)%Z.
Proof.
  revert previous. induction n as [|n IH]; intros previous.
  - cbn. lia.
  - cbn [repeat fold_left next_count]. rewrite IH. lia.
Qed.


(** C3. Message tracking state machine: a scan that observes a message
    unread stores the previous counter plus one (the previous counter of an
    unseen message being 0), a scan that observes it read stores 0; hence
    after N consecutive unread scans of an unseen message the counter is N,
    one read scan resets it to 0 and the next unread scan gives 1, not
    N + 1. The alias map is assumed well formed, as every map built and
    extended by the resolver is. *)
Theorem check_count_state_machine (path : option string) (max_items : Z)
    (self : analyzer) (id : string) :
  well_formed (an_contact_map self) ->
  (forall now items unread previous,
     observed_in (items_to_process max_items items) id unread ->
     stored_count (an_email_tracking self) id = Some previous ->
     stored_count
       (an_email_tracking
          (analyze_inbox_behavior path now max_items items self)) id
     = Some (if unread then previous + 1 else 0)%Z)
  /\ (an_email_tracking self !! id = None ->
      stored_count (an_email_tracking self) id = Some 0%Z)
  /\ (forall unread_scans read_scan next_scan,
        an_email_tracking self !! id = None ->
        Forall (fun scan =>
                  observed_in (items_to_process max_items (snd scan)) id true)
          unread_scans ->
        observed_in (items_to_process max_items (snd read_scan)) id false ->
        observed_in (items_to_process max_items (snd next_scan)) id true ->
        stored_count
          (an_email_tracking (run_scans path max_items unread_scans self)) id
        = Some (Z.of_nat (length unread_scans))
        /\ stored_count
             (an_email_tracking
                (run_scans path max_items (unread_scans ++ [read_scan]) self))
             id
           = Some 0%Z
        /\ stored_count
             (an_email_tracking
                (run_scans path max_items
                   (unread_scans ++ [read_scan; next_scan]) self)) id
           = Some 1%Z).
Proof.
  intros Hwf. split; [|split].
  - intros now items unread previous Hobs Hprev.
    now apply scan_transition.
  - intros Hnone. unfold stored_count. now rewrite Hnone.
  - intros unread_scans read_scan next_scan Hnone Hunread Hread Hnext.
    assert (Hzero : stored_count (an_email_tracking self) id = Some 0%Z)
      by (unfold stored_count; now rewrite Hnone).
    assert (Hflags :
      Forall2 (fun scan unread =>
                 observed_in (items_to_process max_items (snd scan)) id unread)
        unread_scans (repeat true (length unread_scans))).
    { clear -Hunread. induction Hunread; cbn [length repeat]; constructor;
        assumption. }
    split; [|split].
    + rewrite (scans_transition path max_items unread_scans _ self id 0
                 Hwf Hflags Hzero).
      now rewrite count_after_unread_scans.
    + assert (H2 : Forall2 (fun scan unread =>
                 observed_in (items_to_process max_items (snd scan)) id unread)
               (unread_scans ++ [read_scan])
               (repeat true (length unread_scans) ++ [false])).
      { apply Forall2_app; [exact Hflags|]. repeat constructor. exact Hread. }
      rewrite (scans_transition path max_items _ _ self id 0 Hwf H2 Hzero).
      now rewrite fold_left_app.
    + assert (H3 : Forall2 (fun scan unread =>
                 observed_in (items_to_process max_items (snd scan)) id unread)
               (unread_scans ++ [read_scan; next_scan])
               (repeat true (length unread_scans) ++ [false; true])).
      { apply Forall2_app; [exact Hflags|]. repeat constructor; assumption. }
      rewrite (scans_transition path max_items _ _ self id 0 Hwf H3 Hzero).
      now rewrite fold_left_app.
Qed.


Lemma sample_observed (now : Z) (unread : bool) :
  observed_in (items_to_process 1000 (snd (now, [sample_item "m1" unread])))
    "m1" unread.
Proof.
  exists [], (sample_item "m1" unread), [].
  split; [reflexivity|]. split.
  - repeat split. discriminate.
  - intros other [].
Qed.

Lemma check_count_state_machine_witness :
  stored_count
    (an_email_tracking
       (run_scans None 1000
          ([(1%Z, [sample_item "m1" true]); (2%Z, [sample_item "m1" true]);
            (3%Z, [sample_item "m1" true])]
           ++ [(4%Z, [sample_item "m1" false]); (5%Z, [sample_item "m1" true])])
          no_analysis)) "m1"
  = Some 1%Z.
Proof.
  assert (Hwf : well_formed (an_contact_map no_analysis))
    by apply map_Forall_empty.
  destruct (check_count_state_machine None 1000 no_analysis "m1" Hwf)
    as (_ & _ & H).
  apply (H [(1%Z, [sample_item "m1" true]); (2%Z, [sample_item "m1" true]);
            (3%Z, [sample_item "m1" true])]
           (4%Z, [sample_item "m1" false]) (5%Z, [sample_item "m1" true])).
  - reflexivity.
  - repeat constructor; apply sample_observed.
  - apply sample_observed.
  - apply sample_observed.
Defined.

End AnalyzerProps.

(* ===================================================================== *)
(** * Properties of the contact identity resolver *)
(* ===================================================================== *)

Module ResolverProps.
Import Py Analyzer PyProps Spec Samples AnalyzerProps.
Local Open Scope string_scope.

(** ** Name tables *)


Lemma extends_trans P t1 t2 t3 :
  extends P t1 t2 -> extends P t2 t3 -> extends P t1 t3.
Proof.
  intros H12 H23. induction H23; [assumption|].
  constructor; auto.
Qed.

Lemma extends_fold {A} P (f : name_table -> A -> name_table) (l : list A) t :
  (forall t x, In x l -> extends P t (f t x)) ->
  extends P t (fold_left f l t).
Proof.
  revert t. induction l as [|x l IH]; intros t H; [constructor|].
  cbn [fold_left]. eapply extends_trans.
  - apply H. now left.
  - apply IH. intros t' y Hy. apply H. now right.
Qed.

Lemma table_lookup_add_same name email t :
  table_lookup name (table_add name email t)
  = Some (set_add email (default [] (table_lookup name t))).
Proof.
  induction t as [|[n es] t IH]; cbn [table_add table_lookup].
  - rewrite String.eqb_refl. reflexivity.
  - destruct (String.eqb n name) eqn:E; cbn [table_lookup]; rewrite E.
    + reflexivity.
    + exact IH.
Qed.

Lemma table_lookup_add_other name name' email t :
  name <> name' ->
  table_lookup name' (table_add name email t) = table_lookup name' t.
Proof.
  intros Hne. induction t as [|[n es] t IH]; cbn [table_add table_lookup].
  - apply String.eqb_neq in Hne. now rewrite Hne.
  - destruct (String.eqb n name) eqn:E; cbn [table_lookup].
    + apply String.eqb_eq in E. subst n.
      apply String.eqb_neq in Hne. now rewrite Hne.
    + now rewrite IH.
Qed.

Lemma mem_In x l : mem x l = true <-> In x l.
Proof.
  unfold mem. rewrite existsb_exists. split.
  - intros (y & Hy & Heq). apply String.eqb_eq in Heq. now subst.
  - intros H. exists x. split; [assumption|apply String.eqb_refl].
Qed.

Lemma set_add_In x y l : In y (set_add x l) <-> y = x \/ In y l.
Proof.
  unfold set_add. destruct (mem x l) eqn:E.
  - apply mem_In in E. split; [now right|]. intros [->|H]; assumption.
  - rewrite in_app_iff. cbn [In]. intuition congruence.
Qed.

Lemma table_add_names name email t :
  List.map fst (table_add name email t)
  = if mem name (List.map fst t) then List.map fst t
    else (List.map fst t ++ [name])%list.
Proof.
  induction t as [|[n es] t IH]; [reflexivity|].
  cbn [table_add List.map fst mem existsb].
  rewrite (String.eqb_sym name n).
  destruct (String.eqb n name) eqn:E; cbn [List.map fst orb].
  - reflexivity.
  - rewrite IH. unfold mem. destruct (existsb _ _); reflexivity.
Qed.

Lemma table_add_NoDup name email t :
  NoDup (List.map fst t) ->
  NoDup (List.map fst (table_add name email t)).
Proof.
  intros H. rewrite table_add_names.
  destruct (mem name (List.map fst t)) eqn:E; [assumption|].
  apply NoDup_app. split; [assumption|]. split.
  - intros x Hx Hx'. apply list_elem_of_singleton in Hx'. subst x.
    apply list_elem_of_In, mem_In in Hx. congruence.
  - apply NoDup_singleton.
Qed.

Lemma extends_NoDup P t t' :
  extends P t t' -> NoDup (List.map fst t) ->
  NoDup (List.map fst t').
Proof.
  induction 1; intros Hnd; [assumption|]. apply table_add_NoDup; auto.
Qed.


Lemma extends_emails_all (Q : string -> Prop) t t' :
  extends (fun _ email => Q email) t t' ->
  emails_all Q t -> emails_all Q t'.
Proof.
  induction 1 as [|t t' name email Hext IH Hq]; intros Hall; [assumption|].
  intros n es e Hlook Hin.
  destruct (String.eqb_spec name n) as [->|Hne].
  - rewrite table_lookup_add_same in Hlook. injection Hlook as <-.
    apply set_add_In in Hin as [->|Hin]; [assumption|].
    destruct (table_lookup n t') as [es'|] eqn:E; [|destruct Hin].
    eapply IH; eauto.
  - rewrite table_lookup_add_other in Hlook by assumption.
    eapply IH; eauto.
Qed.


Lemma covers_add t name email : covers (table_add name email t) name email.
Proof.
  eexists. split; [apply table_lookup_add_same|].
  apply set_add_In. now left.
Qed.

Lemma covers_add_other t n e name email :
  covers t name email -> covers (table_add n e t) name email.
Proof.
  intros (emails & Hlook & Hin).
  destruct (String.eqb_spec n name) as [->|Hne].
  - eexists. split; [apply table_lookup_add_same|].
    rewrite Hlook. apply set_add_In. now right.
  - exists emails. split; [|assumption].
    now rewrite table_lookup_add_other.
Qed.

Lemma extends_covers P t t' name email :
  extends P t t' -> covers t name email -> covers t' name email.
Proof.
  induction 1; intros Hc; [assumption|]. apply covers_add_other; auto.
Qed.

Lemma pairs_table_covers (pairs : list (string * string)) t name email :
  In (name, email) pairs ->
  covers (fold_left (fun t p => table_add (fst p) (snd p) t) pairs t)
    name email.
Proof.
  revert t. induction pairs as [|p pairs IH]; intros t Hin; [destruct Hin|].
  cbn [fold_left]. destruct Hin as [->|Hin]; [|now apply IH].
  eapply (extends_covers (fun _ _ => True)).
  - apply extends_fold. intros t' x _.
    apply extends_add; [constructor|exact I].
  - apply covers_add.
Qed.


(** ** Direct pairs *)


Lemma record_pairs_accepted data pairs :
  record_pairs data = Ret pairs -> Forall accepted pairs.
Proof.
  unfold record_pairs.
  destruct (get_stripped (tr_sender data)) as [|sender]; [discriminate|].
  destruct (get_stripped (tr_raw_sender data)) as [|raw]; [discriminate|].
  destruct (get_stripped (tr_sender_name data)) as [|name]; [discriminate|].
  destruct (get_stripped (tr_sender_email data)) as [|email]; [discriminate|].
  cbn [bind]. intros H. injection H as <-.
  apply Forall_app. split.
  - destruct (nonempty sender) eqn:Hs, (nonempty raw) eqn:Hr;
      cbn [andb]; try constructor.
    destruct (negb _); cbn [andb]; [|constructor].
    destruct (has_at sender) eqn:E1, (has_at raw) eqn:E2;
      cbn [andb negb]; repeat constructor; cbn [fst snd];
      rewrite ?nonempty_lower, ?has_at_lower, ?lower_idem; auto.
  - destruct (_ && _) eqn:E; [|constructor].
    apply andb_true_iff in E as [E E3]. apply andb_true_iff in E as [E1 E2].
    repeat constructor; cbn [fst snd];
      rewrite ?nonempty_lower, ?has_at_lower, ?lower_idem; auto.
Qed.

Lemma raw_sender_pairs_accepted items pairs :
  raw_sender_pairs items = Ret pairs -> Forall accepted pairs.
Proof.
  revert pairs. induction items as [|[id data] items IH]; intros pairs.
  - cbn. intros H. injection H as <-. constructor.
  - cbn [raw_sender_pairs].
    destruct (record_pairs data) as [|here] eqn:Hhere; [discriminate|].
    destruct (raw_sender_pairs items) as [|more]; [discriminate|].
    cbn [bind]. intros H. injection H as <-.
    apply Forall_app. split; [eapply record_pairs_accepted; eauto|].
    now apply IH.
Qed.

(** ** The candidates of Step 2 *)


Lemma match_others_extends sender items t :
  extends canonical_added t (match_others sender items t).
Proof.
  unfold match_others. apply extends_fold. intros t' other _.
  destruct (has_at sender) eqn:Hat.
  - destruct (_ && _); [|constructor].
    destruct (corresponds _ _); [|constructor].
    apply extends_add; [constructor|]. now apply canonical_lower.
  - destruct (_ && _) eqn:E; [|constructor].
    destruct (corresponds _ _); [|constructor].
    apply andb_true_iff in E as [_ E].
    apply extends_add; [constructor|]. now apply canonical_lower.
Qed.

Lemma find_correspondences_extends items t :
  extends canonical_added t (find_correspondences items t).
Proof.
  unfold find_correspondences. apply extends_fold. intros t' entry _.
  destruct (nonempty _); [apply match_others_extends|constructor].
Qed.

Lemma match_components_extends items t :
  extends canonical_added t (match_components items t).
Proof.
  unfold match_components. apply extends_fold. intros t' name _.
  apply extends_fold. intros t'' entry _.
  destruct (_ && _) eqn:E; [|constructor].
  apply andb_true_iff in E as [E _].
  apply extends_add; [constructor|]. split; [exact E|apply lower_idem].
Qed.

Lemma name_to_emails_extends pairs items :
  Forall accepted pairs ->
  extends canonical_added []
    (name_to_emails pairs items).
Proof.
  intros Hpairs. unfold name_to_emails. cbn zeta.
  eapply extends_trans; [|apply match_components_extends].
  eapply extends_trans; [|apply find_correspondences_extends].
  apply extends_fold. intros t p Hp.
  apply extends_add; [constructor|].
  rewrite List.Forall_forall in Hpairs. now destruct (Hpairs p Hp).
Qed.

Lemma name_to_emails_covers pairs items name email :
  In (name, email) pairs -> covers (name_to_emails pairs items) name email.
Proof.
  intros Hin. unfold name_to_emails. cbn zeta.
  eapply extends_covers; [apply match_components_extends|].
  eapply extends_covers; [apply find_correspondences_extends|].
  now apply pairs_table_covers.
Qed.

(** ** Step 3 *)

Lemma best_match_fold name emails best :
  let result :=
    fold_left
      (fun best email =>
         let score := match_score name email in
         if (snd best <? score)%Z then (Some email, score) else best)
      emails best in
  (snd best <= snd result)%Z
  /\ (forall email, In email emails ->
                    (match_score name email <= snd result)%Z)
  /\ (result = best
      \/ exists email, In email emails
                       /\ result = (Some email, match_score name email)
                       /\ (snd best < match_score name email)%Z).
Proof.
  revert best. induction emails as [|e emails IH]; intros best; cbn zeta.
  - cbn [fold_left]. split; [lia|]. split; [intros ? []|now left].
  - cbn [fold_left].
    set (next := if (snd best <? match_score name e)%Z
                 then (Some e, match_score name e) else best).
    destruct (IH next) as (Hle & Hall & Hres). cbn zeta in *.
    assert (Hnext : (snd best <= snd next)%Z
                    /\ (match_score name e <= snd next)%Z).
    { subst next. destruct (Z.ltb_spec (snd best) (match_score name e));
        cbn [snd]; lia. }
    split; [lia|]. split.
    + intros email [<-|Hin]; [lia|now apply Hall].
    + destruct Hres as [->|(email & Hin & -> & Hlt)].
      * subst next. destruct (Z.ltb_spec (snd best) (match_score name e)).
        -- right. exists e. split; [now left|]. split; [reflexivity|lia].
        -- now left.
      * right. exists email. split; [now right|]. split; [reflexivity|lia].
Qed.

(** The address that Step 3 chooses is a best-scoring candidate with a
    score of at least 1. *)
Lemma chosen_spec name emails best :
  chosen name emails = Some best ->
  In best emails
  /\ (1 <= match_score name best)%Z
  /\ forall email, In email emails ->
                   (match_score name email <= match_score name best)%Z.
Proof.
  unfold chosen, best_match.
  destruct (best_match_fold name emails (None, 0%Z)) as (_ & Hall & Hres).
  cbn zeta in *.
  destruct Hres as [Hres|(email & Hin & Hres & _)]; rewrite Hres in *;
    [discriminate|].
  cbn [snd] in Hall.
  destruct (nonempty email && (1 <=? match_score name email)%Z) eqn:E;
    [|discriminate].
  intros H. injection H as <-.
  apply andb_true_iff in E as [_ E]. apply Z.leb_le in E.
  split; [assumption|]. split; assumption.
Qed.

(** When Step 3 chooses nothing, no candidate scores 1 or more. *)
Lemma chosen_none name emails :
  (forall email, In email emails -> email <> "") ->
  chosen name emails = None ->
  forall email, In email emails -> (match_score name email <= 0)%Z.
Proof.
  unfold chosen, best_match. intros Hne.
  destruct (best_match_fold name emails (None, 0%Z)) as (_ & Hall & Hres).
  cbn zeta in *.
  destruct Hres as [Hres|(best & Hin & Hres & Hlt)]; rewrite Hres in *.
  - intros _ email Hin. now apply Hall.
  - cbn [snd] in *.
    assert (Hbest : nonempty best = true) by now apply nonempty_true, Hne.
    rewrite Hbest. cbn [andb].
    destruct (Z.leb_spec 1 (match_score name best)); [discriminate|].
    intros _ email Hemail. specialize (Hall email Hemail). lia.
Qed.

Lemma resolve_best_lookup (t : name_table) (cm : gmap string string)
    (name : string) :
  NoDup (List.map fst t) ->
  resolve_best t cm !! name
  = match table_lookup name t with
    | Some emails =>
        match chosen name emails with
        | Some best => Some best
        | None => cm !! name
        end
    | None => cm !! name
    end.
Proof.
  unfold resolve_best. revert cm.
  induction t as [|[n emails] t IH]; intros cm Hnd; [reflexivity|].
  cbn [fold_left List.map fst] in *.
  apply NoDup_cons in Hnd as [Hn Hnd].
  rewrite IH by assumption. cbn [table_lookup].
  destruct (String.eqb_spec n name) as [->|Hne].
  - assert (Hnone : table_lookup name t = None).
    { clear -Hn. induction t as [|[n' es] t IH]; [reflexivity|].
      cbn [table_lookup]. cbn [List.map fst] in Hn.
      apply not_elem_of_cons in Hn as [Hne Hn].
      destruct (String.eqb_spec n' name); [congruence|now apply IH]. }
    rewrite Hnone. unfold chosen.
    destruct emails as [|e emails].
    + cbn. reflexivity.
    + destruct (best_match name (e :: emails)) as [[best|] score];
        [|reflexivity].
      destruct (_ && _); [apply lookup_insert_eq|reflexivity].
  - assert (Hsame : forall cm' : gmap string string,
              match emails with
              | [] => cm
              | _ :: _ =>
                  match best_match n emails with
                  | (Some best_email, best_score) =>
                      if nonempty best_email && (1 <=? best_score)%Z
                      then <[n:=best_email]> cm else cm
                  | (None, _) => cm
                  end
              end !! name = cm !! name).
    { intros _. destruct emails; [reflexivity|].
      destruct (best_match _ _) as [[best|] score]; [|reflexivity].
      destruct (_ && _); [now apply lookup_insert_ne|reflexivity]. }
    rewrite (Hsame cm). reflexivity.
Qed.

(** ** Step 4 *)

Lemma add_direct_mappings_lookup pairs (cm : gmap string string) name :
  add_direct_mappings pairs cm !! name
  = match cm !! name with
    | Some address => Some address
    | None => first_direct name pairs
    end.
Proof.
  unfold add_direct_mappings. revert cm.
  induction pairs as [|[display_name email] pairs IH]; intros cm.
  - cbn. now destruct (cm !! name).
  - cbn [fold_left first_direct]. rewrite IH.
    destruct (nonempty display_name && nonempty email && has_at email) eqn:E;
      cbn [andb]; [|reflexivity].
    destruct (cm !! display_name) as [v|] eqn:Hd.
    + destruct (String.eqb_spec display_name name) as [->|Hne];
        [now rewrite Hd|reflexivity].
    + destruct (String.eqb_spec display_name name) as [->|Hne].
      * now rewrite lookup_insert_eq, Hd.
      * rewrite lookup_insert_ne by assumption. reflexivity.
Qed.

Lemma first_direct_accepted pairs name email :
  Forall accepted pairs -> In (name, email) pairs ->
  exists first, first_direct name pairs = Some first
                /\ In (name, first) pairs.
Proof.
  induction pairs as [|[n e] pairs IH]; intros Hacc Hin; [destruct Hin|].
  inversion Hacc as [|? ? [Hn [He _]] Hrest]; subst. cbn [fst snd] in *.
  cbn [first_direct]. rewrite Hn, He, (has_at_nonempty e He). cbn [andb].
  destruct (String.eqb_spec n name) as [->|Hne].
  - exists e. split; [reflexivity|now left].
  - destruct Hin as [Heq|Hin]; [congruence|].
    destruct (IH Hrest Hin) as (first & Hfirst & Hin').
    exists first. split; [assumption|now right].
Qed.


Lemma first_direct_In pairs name email :
  first_direct name pairs = Some email -> In (name, email) pairs.
Proof.
  induction pairs as [|[n e] pairs IH]; [discriminate|].
  cbn [first_direct]. destruct (_ && _) eqn:E.
  - intros H. injection H as <-.
    apply andb_true_iff in E as [_ E]. apply String.eqb_eq in E as ->.
    now left.
  - intros H. right. now apply IH.
Qed.

(** ** The built map *)

Lemma resolve_best_well_formed t cm :
  emails_all canonical_address t -> NoDup (List.map fst t) ->
  well_formed cm -> well_formed (resolve_best t cm).
Proof.
  intros Hall Hnd Hwf name address Hlook.
  rewrite resolve_best_lookup in Hlook by assumption.
  destruct (table_lookup name t) as [emails|] eqn:Ht; [|now apply (Hwf name)].
  destruct (chosen name emails) as [best|] eqn:Hc; [|now apply (Hwf name)].
  injection Hlook as <-.
  apply chosen_spec in Hc as [Hin _]. eapply Hall; eauto.
Qed.

Lemma add_direct_mappings_well_formed pairs cm :
  Forall accepted pairs -> well_formed cm ->
  well_formed (add_direct_mappings pairs cm).
Proof.
  intros Hacc Hwf name address Hlook.
  rewrite add_direct_mappings_lookup in Hlook.
  destruct (cm !! name) as [v|] eqn:E.
  - injection Hlook as <-. now apply (Hwf name).
  - apply first_direct_In in Hlook.
    rewrite List.Forall_forall in Hacc. now destruct (Hacc _ Hlook).
Qed.

Lemma name_to_emails_invariants pairs items :
  Forall accepted pairs ->
  NoDup (List.map fst (name_to_emails pairs items))
  /\ emails_all canonical_address (name_to_emails pairs items).
Proof.
  intros Hacc. pose proof (name_to_emails_extends pairs items Hacc) as Hext.
  split.
  - eapply extends_NoDup; [exact Hext|]. constructor.
  - eapply (extends_emails_all canonical_address); [exact Hext|].
    intros name emails email H. discriminate.
Qed.

(** Every map that the resolver builds is well formed. *)
Lemma build_well_formed items :
  well_formed (_initialize_contact_map ∅ items).
Proof.
  unfold _initialize_contact_map.
  rewrite bool_decide_eq_true_2 by reflexivity. cbn [negb].
  destruct (raw_sender_pairs items) as [|pairs] eqn:Hpairs;
    [apply map_Forall_empty|].
  apply raw_sender_pairs_accepted in Hpairs.
  destruct (name_to_emails_invariants pairs items Hpairs) as [Hnd Hall].
  apply add_direct_mappings_well_formed; [assumption|].
  apply resolve_best_well_formed; [assumption..|apply map_Forall_empty].
Qed.

Lemma build_lookup items pairs name :
  raw_sender_pairs items = Ret pairs ->
  _initialize_contact_map ∅ items !! name
  = match table_lookup name (name_to_emails pairs items) with
    | Some candidates =>
        match chosen name candidates with
        | Some best => Some best
        | None => first_direct name pairs
        end
    | None => first_direct name pairs
    end.
Proof.
  intros Hpairs. unfold _initialize_contact_map.
  rewrite bool_decide_eq_true_2 by reflexivity. cbn [negb]. rewrite Hpairs.
  pose proof (raw_sender_pairs_accepted _ _ Hpairs) as Hacc.
  destruct (name_to_emails_invariants pairs items Hacc) as [Hnd _].
  rewrite add_direct_mappings_lookup, resolve_best_lookup by assumption.
  rewrite lookup_empty.
  destruct (table_lookup _ _) as [candidates|]; [|reflexivity].
  now destruct (chosen name candidates).
Qed.

(** ** The pairs of a scan *)

Lemma scan_item_pairs cm path now st it :
  name_email_pairs (scan_item cm path now st it)
  = (name_email_pairs st ++ captured_pair it)%list.
Proof.
  unfold scan_item, captured_pair.
  destruct (access (Class it)) as [|class]; [now rewrite app_nil_r|].
  destruct (class =? 43)%Z; cbn [negb]; [|now rewrite app_nil_r].
  assert (Hpairs :
    match safe_get (SenderName it), safe_get (SenderEmailAddress it) with
    | Some n, Some e =>
        if nonempty n && nonempty e && has_at e
        then (name_email_pairs st ++ [(lower n, lower e)])%list
        else name_email_pairs st
    | _, _ => name_email_pairs st
    end
    = (name_email_pairs st
       ++ match safe_get (SenderName it), safe_get (SenderEmailAddress it) with
          | Some n, Some e =>
              if nonempty n && nonempty e && has_at e
              then [(lower n, lower e)] else []
          | _, _ => []
          end)%list).
  { repeat case_match; now rewrite ?app_nil_r. }
  rewrite <- Hpairs.
  repeat case_match; reflexivity.
Qed.

Lemma scan_items_pairs cm path now items st :
  name_email_pairs (fold_left (scan_item cm path now) items st)
  = (name_email_pairs st ++ flat_map captured_pair items)%list.
Proof.
  revert st. induction items as [|it items IH]; intros st.
  - cbn. now rewrite app_nil_r.
  - cbn [fold_left flat_map]. rewrite IH, scan_item_pairs.
    now rewrite <- app_assoc.
Qed.

Lemma add_scanned_pairs_lookup pairs (cm : gmap string string) name :
  add_scanned_pairs pairs cm !! name
  = match last_scanned name pairs with
    | Some address => Some address
    | None => cm !! name
    end.
Proof.
  unfold add_scanned_pairs, last_scanned.
  induction pairs as [|[n e] pairs IH] using rev_ind; [reflexivity|].
  rewrite fold_left_app, rev_app_distr. cbn [fold_left List.rev app first_direct].
  destruct (nonempty n && nonempty e && has_at e) eqn:E; cbn [andb];
    [|exact IH].
  destruct (String.eqb_spec n name) as [->|Hne].
  - apply lookup_insert_eq.
  - rewrite lookup_insert_ne by assumption. exact IH.
Qed.

Lemma scan_contact_map path now max_items items self name :
  an_contact_map (analyze_inbox_behavior path now max_items items self)
    !! name
  = match last_scanned name
            (flat_map captured_pair (items_to_process max_items items)) with
    | Some address => Some address
    | None => an_contact_map self !! name
    end.
Proof.
  unfold analyze_inbox_behavior. cbn [an_contact_map].
  rewrite scan_loop_fold by apply items_to_process_bound.
  rewrite add_scanned_pairs_lookup, scan_items_pairs. reflexivity.
Qed.

(** C2 (as amended). Within one build of the alias map, the name of every
    direct pair is mapped and its direct address is among the candidates of
    the name; the name is mapped to the best-scoring candidate (direct or
    fuzzy) when that candidate scores at least 1, and to the address of its
    first direct pair only when no candidate scores at least 1. On a later
    run, the inbox scan maps each captured name to the address of the last
    pair captured for it, whatever the map held before, and leaves the other
    names alone; the fuzzy build is skipped on a non-empty map. *)
Theorem direct_pairs_in_alias_map :
  (forall items pairs name email,
     raw_sender_pairs items = Ret pairs ->
     In (name, email) pairs ->
     exists candidates first,
       table_lookup name (name_to_emails pairs items) = Some candidates
       /\ In email candidates
       /\ first_direct name pairs = Some first
       /\ In (name, first) pairs
       /\ _initialize_contact_map ∅ items !! name
          = Some (default first (chosen name candidates))
       /\ (forall best, chosen name candidates = Some best ->
             In best candidates /\ (1 <= match_score name best)%Z
             /\ forall other, In other candidates ->
                  (match_score name other <= match_score name best)%Z)
       /\ (chosen name candidates = None ->
             forall other, In other candidates ->
               (match_score name other <= 0)%Z))
  /\ (forall path now max_items items self name,
        an_contact_map (analyze_inbox_behavior path now max_items items self)
          !! name
        = match last_scanned name
                  (flat_map captured_pair (items_to_process max_items items))
          with
          | Some address => Some address
          | None => an_contact_map self !! name
          end)
  /\ (forall contact_map items,
        contact_map <> ∅ ->
        _initialize_contact_map contact_map items = contact_map).
Proof.
  split; [|split].
  - intros items pairs name email Hpairs Hin.
    pose proof (raw_sender_pairs_accepted _ _ Hpairs) as Hacc.
    destruct (name_to_emails_covers pairs items name email Hin)
      as (candidates & Hlook & Hcand).
    destruct (first_direct_accepted pairs name email Hacc Hin)
      as (first & Hfirst & Hin').
    exists candidates, first.
    repeat (split; [assumption|]).
    split; [|split].
    + rewrite (build_lookup items pairs name Hpairs), Hlook, Hfirst.
      now destruct (chosen name candidates).
    + intros best. apply chosen_spec.
    + apply chosen_none.
      destruct (name_to_emails_invariants pairs items Hacc) as [_ Hall].
      intros e He. apply nonempty_true, has_at_nonempty.
      now destruct (Hall name candidates e Hlook He).
  - intros. apply scan_contact_map.
  - intros contact_map items Hne. unfold _initialize_contact_map.
    now rewrite bool_decide_eq_false_2.
Qed.

Lemma john_pairs :
  raw_sender_pairs john_store = Ret [("john doe", "jdoe@example.com")].
Proof. reflexivity. Qed.

Lemma direct_pairs_in_alias_map_witness :
  is_Some (_initialize_contact_map ∅ john_store !! "john doe").
Proof.
  destruct direct_pairs_in_alias_map as (Hbuild & _ & _).
  destruct (Hbuild john_store [("john doe", "jdoe@example.com")]
              "john doe" "jdoe@example.com" john_pairs)
    as (candidates & first & _ & _ & _ & _ & Hmap & _).
  - now left.
  - rewrite Hmap. eexists. reflexivity.
Defined.

(** The direct pair of John Doe is displaced, within one build, by a fuzzy
    candidate of another domain that scores 13 against its 6. *)
Lemma direct_pair_displaced :
  raw_sender_pairs john_store = Ret [("john doe", "jdoe@example.com")]
  /\ _initialize_contact_map ∅ john_store !! "john doe"
     <> Some "jdoe@example.com"
  /\ _initialize_contact_map ∅ john_store !! "john doe"
     = Some "john.doe@other.com"
  /\ match_score "john doe" "jdoe@example.com" = 6%Z
  /\ match_score "john doe" "john.doe@other.com" = 13%Z.
Proof.
  split; [reflexivity|]. split; [vm_compute; discriminate|].
  repeat split; vm_compute; reflexivity.
Qed.

End ResolverProps.

(* ===================================================================== *)
(** * Properties of the sender importance model *)
(* ===================================================================== *)

Module ImportanceProps.
Import Py Analyzer PyProps QProps Spec Samples.
Local Open Scope Q_scope.
Local Open Scope string_scope.

Lemma fold_max2_in (l : list Q) (a : Q) : In (fold_left max2 l a) (a :: l).
Proof.
  revert a. induction l as [|x l IH]; intros a; [now left|].
  cbn [fold_left]. destruct (IH (max2 a x)) as [H|H].
  - rewrite <- H. unfold max2. destruct (Qltb a x); [right; now left|now left].
  - right. now right.
Qed.

Lemma fold_min2_in (l : list Q) (a : Q) : In (fold_left min2 l a) (a :: l).
Proof.
  revert a. induction l as [|x l IH]; intros a; [now left|].
  cbn [fold_left]. destruct (IH (min2 a x)) as [H|H].
  - rewrite <- H. unfold min2. destruct (Qltb x a); [right; now left|now left].
  - right. now right.
Qed.

Lemma maximumQ_in (l : list Q) : l <> [] -> In (maximumQ l) l.
Proof. destruct l as [|x l]; [congruence|]. intros _. apply fold_max2_in. Qed.

Lemma minimumQ_in (l : list Q) : l <> [] -> In (minimumQ l) l.
Proof. destruct l as [|x l]; [congruence|]. intros _. apply fold_min2_in. Qed.

Lemma fold_max2_upper (l : list Q) (a : Q) :
  a <= fold_left max2 l a /\ forall x, In x l -> x <= fold_left max2 l a.
Proof.
  revert a. induction l as [|y l IH]; intros a.
  - cbn [fold_left]. split; [lra|intros x []].
  - cbn [fold_left]. destruct (IH (max2 a y)) as [H1 H2].
    assert (Ha : a <= max2 a y /\ y <= max2 a y).
    { unfold max2. destruct (Qltb a y) eqn:E.
      - apply Qltb_true in E. lra.
      - apply Qltb_false in E. lra. }
    split; [lra|]. intros x [<-|Hx]; [lra|now apply H2].
Qed.

Lemma fold_min2_lower (l : list Q) (a : Q) :
  fold_left min2 l a <= a /\ forall x, In x l -> fold_left min2 l a <= x.
Proof.
  revert a. induction l as [|y l IH]; intros a.
  - cbn [fold_left]. split; [lra|intros x []].
  - cbn [fold_left]. destruct (IH (min2 a y)) as [H1 H2].
    assert (Ha : min2 a y <= a /\ min2 a y <= y).
    { unfold min2. destruct (Qltb y a) eqn:E.
      - apply Qltb_true in E. lra.
      - apply Qltb_false in E. lra. }
    split; [lra|]. intros x [<-|Hx]; [lra|now apply H2].
Qed.

Lemma maximumQ_upper (l : list Q) (x : Q) : In x l -> x <= maximumQ l.
Proof.
  destruct l as [|a l]; [intros []|]. cbn [maximumQ].
  destruct (fold_max2_upper l a) as [H1 H2].
  intros [<-|Hx]; [exact H1|now apply H2].
Qed.

Lemma minimumQ_lower (l : list Q) (x : Q) : In x l -> minimumQ l <= x.
Proof.
  destruct l as [|a l]; [intros []|]. cbn [minimumQ].
  destruct (fold_min2_lower l a) as [H1 H2].
  intros [<-|Hx]; [exact H1|now apply H2].
Qed.

(** The normalization keeps the contacts, their order and their raw
    scores. *)
Lemma normalize_scores_keeps (entries : list (string * sender_score)) :
  List.map (fun e => (fst e, raw_score (snd e))) (normalize_scores entries)
  = List.map (fun e => (fst e, raw_score (snd e))) entries.
Proof.
  unfold normalize_scores. rewrite List.map_map. cbn [fst snd set_score raw_score].
  destruct entries as [|first_entry others]; [reflexivity|].
  destruct (Qltb 0 _).
  - rewrite List.map_map. reflexivity.
  - destruct others; reflexivity.
Qed.

Lemma normalize_scores_length (entries : list (string * sender_score)) :
  length (normalize_scores entries) = length entries.
Proof.
  rewrite <- (length_map (fun e => (fst e, raw_score (snd e)))
                (normalize_scores entries)).
  rewrite normalize_scores_keeps. apply length_map.
Qed.

(** What the normalization stores, case by case. *)
Lemma normalize_scores_cases (entries : list (string * sender_score))
    (c : string) (d : sender_score) :
  In (c, d) (normalize_scores entries) ->
  let raw_scores := List.map (fun e => raw_score (snd e)) entries in
  let range := maximumQ raw_scores - minimumQ raw_scores in
  exists d0, In (c, d0) entries /\ raw_score d = raw_score d0 /\
    (if Qltb 0 range then
       normalized_score d
       = max2 0 (min2 1 ((raw_score d0 - minimumQ raw_scores) / range))
     else if (length entries =? 1)%nat then normalized_score d = 6 # 10
     else normalized_score d = normalized_score d0).
Proof.
  unfold normalize_scores. intros Hin. cbn zeta.
  apply in_map_iff in Hin as ([c' d'] & Heq & Hin).
  cbn [fst snd] in Heq. injection Heq as <- <-.
  destruct entries as [|first_entry others]; [destruct Hin|].
  destruct (Qltb 0 _) eqn:Hrange.
  - apply in_map_iff in Hin as ([c0 d0] & Heq & Hin).
    cbn [fst snd] in Heq. injection Heq as <- <-.
    exists d0. split; [exact Hin|]. split; reflexivity.
  - destruct others as [|second others].
    + destruct Hin as [Heq|[]]. injection Heq as <- <-.
      exists (snd first_entry). split; [left; now destruct first_entry|].
      split; reflexivity.
    + exists d'. split; [exact Hin|]. split; reflexivity.
Qed.


Lemma contact_record_default config cm rd si stats contact d :
  contact_record config cm rd si stats contact = Some d ->
  normalized_score d = 5 # 10.
Proof.
  unfold contact_record.
  destruct (reply_component _ _) as [[component replies] dates].
  destruct (_ <? _)%Z; [|discriminate].
  intros H. injection H as <-. reflexivity.
Qed.

Lemma raw_sender_scores_default config cm rd si stats c d :
  In (c, d) (raw_sender_scores config cm rd si stats) ->
  normalized_score d = 5 # 10.
Proof.
  unfold raw_sender_scores. intros Hin.
  apply list_elem_of_In, list_elem_of_omap in Hin as (contact & _ & Hrec).
  destruct (contact_record config cm rd si stats contact) as [d'|] eqn:E;
    [|discriminate].
  injection Hrec as _ <-. eapply contact_record_default, E.
Qed.

Lemma raw_scores_kept (entries : list (string * sender_score)) :
  List.map (fun e => raw_score (snd e)) (normalize_scores entries)
  = List.map (fun e => raw_score (snd e)) entries.
Proof.
  pose proof (normalize_scores_keeps entries) as H.
  apply (f_equal (List.map snd)) in H.
  rewrite !List.map_map in H. exact H.
Qed.

(** C6. After a rebuild of the sender importance model every retained
    contact has a normalized score between 0 and 1 (and [score] repeats it);
    when exactly one contact is retained its normalized score is the fixed
    0.6; and when the raw scores differ, the normalized score is the linear
    min-max scaling of the raw score over the retained contacts, clamped. *)
Theorem normalized_scores_in_unit_interval (config : gmap string Q)
    (self : analyzer) (response_data : gmap string (list response))
    (sender_initiations : gmap string initiation) :
  let scores :=
    _calculate_contact_importance config self response_data
      sender_initiations in
  let raw_scores := List.map (fun e => raw_score (snd e)) scores in
  (forall c d, In (c, d) scores ->
     0 <= normalized_score d <= 1 /\ score d = normalized_score d)
  /\ (forall c d, scores = [(c, d)] -> normalized_score d = 6 # 10)
  /\ (forall c d, In (c, d) scores ->
        minimumQ raw_scores < maximumQ raw_scores ->
        normalized_score d
        == clamp01 ((raw_score d - minimumQ raw_scores)
                    / (maximumQ raw_scores - minimumQ raw_scores))).
Proof.
  intros scores raw_scores. subst raw_scores scores.
  unfold _calculate_contact_importance.
  set (entries := raw_sender_scores _ _ _ _ _).
  assert (Hdefault : forall c d, In (c, d) entries ->
                                 normalized_score d = 5 # 10)
    by (intros c d; apply raw_sender_scores_default).
  rewrite raw_scores_kept.
  split; [|split].
  - intros c d Hin. split.
    + destruct (normalize_scores_cases entries c d Hin)
        as (d0 & Hin0 & _ & Hcase).
      cbn zeta in Hcase.
      destruct (Qltb 0 _).
      * rewrite Hcase. apply clamp_bounds.
      * destruct (_ =? _)%nat.
        -- rewrite Hcase. lra.
        -- rewrite Hcase, (Hdefault c d0 Hin0). lra.
    + unfold normalize_scores in Hin.
      apply in_map_iff in Hin as (e & Heq & _).
      injection Heq as _ <-. reflexivity.
  - intros c d Hscores.
    assert (Hlen : length entries = 1%nat)
      by (rewrite <- normalize_scores_length, Hscores; reflexivity).
    assert (Hin : In (c, d) (normalize_scores entries))
      by (rewrite Hscores; now left).
    destruct (normalize_scores_cases entries c d Hin) as (d0 & _ & _ & Hcase).
    cbn zeta in Hcase. rewrite Hlen in Hcase. cbn [Nat.eqb] in Hcase.
    destruct entries as [|e [|e' rest]]; try discriminate.
    cbn [List.map maximumQ minimumQ fold_left] in Hcase.
    replace (Qltb 0 (raw_score (snd e) - raw_score (snd e))) with false
      in Hcase; [exact Hcase|].
    symmetry. apply Qltb_false. lra.
  - intros c d Hin Hrange.
    destruct (normalize_scores_cases entries c d Hin)
      as (d0 & _ & Hraw & Hcase).
    cbn zeta in Hcase.
    replace (Qltb 0 _) with true in Hcase
      by (symmetry; apply Qltb_true; lra).
    rewrite Hcase, Hraw. apply clamp01_spec.
Qed.

(** C10. When two or more contacts are retained and all of them have the
    same raw score, every retained contact keeps the initial normalized
    score 0.5: neither the scaling nor the 0.6 of a single contact
    applies. *)
Theorem equal_raw_scores_keep_default (config : gmap string Q)
    (self : analyzer) (response_data : gmap string (list response))
    (sender_initiations : gmap string initiation) :
  let scores :=
    _calculate_contact_importance config self response_data
      sender_initiations in
  (2 <= length scores)%nat ->
  (forall c1 d1 c2 d2, In (c1, d1) scores -> In (c2, d2) scores ->
                       raw_score d1 == raw_score d2) ->
  forall c d, In (c, d) scores -> normalized_score d = 5 # 10.
Proof.
  intros scores Hlen Hequal c d Hin. subst scores.
  unfold _calculate_contact_importance in *.
  set (entries := raw_sender_scores _ _ _ _ _) in *.
  rewrite normalize_scores_length in Hlen.
  destruct (normalize_scores_cases entries c d Hin) as (d0 & Hin0 & _ & Hcase).
  cbn zeta in Hcase.
  assert (Hne : List.map (fun e => raw_score (snd e)) entries <> [])
    by (destruct entries; [cbn in Hlen; lia|discriminate]).
  assert (Hrange : Qltb 0 (maximumQ (List.map (fun e => raw_score (snd e)) entries)
                           - minimumQ (List.map (fun e => raw_score (snd e)) entries))
                   = false).
  { apply Qltb_false.
    assert (Hmax : In (maximumQ (List.map (fun e => raw_score (snd e)) entries))
                     (List.map (fun e => raw_score (snd e))
                        (normalize_scores entries)))
      by (rewrite raw_scores_kept; now apply maximumQ_in).
    assert (Hmin : In (minimumQ (List.map (fun e => raw_score (snd e)) entries))
                     (List.map (fun e => raw_score (snd e))
                        (normalize_scores entries)))
      by (rewrite raw_scores_kept; now apply minimumQ_in).
    apply in_map_iff in Hmax as ([c1 d1] & Hmax & Hin1).
    apply in_map_iff in Hmin as ([c2 d2] & Hmin & Hin2).
    rewrite <- Hmax, <- Hmin. cbn [snd].
    rewrite (Hequal c1 d1 c2 d2 Hin1 Hin2). lra. }
  rewrite Hrange in Hcase.
  replace (length entries =? 1)%nat with false in Hcase
    by (symmetry; apply Nat.eqb_neq; lia).
  rewrite Hcase. eapply raw_sender_scores_default, Hin0.
Qed.


Lemma single_contact_scored :
  _calculate_contact_importance ∅ no_analysis ∅ one_initiation
  = [single_contact].
Proof. vm_compute. reflexivity. Qed.

Lemma two_contacts_scored :
  _calculate_contact_importance ∅ no_analysis ∅ two_initiations
  = two_contacts.
Proof. vm_compute. reflexivity. Qed.

Lemma normalized_scores_in_unit_interval_witness :
  normalized_score (snd single_contact) = 6 # 10
  /\ 0 <= normalized_score (snd single_contact) <= 1.
Proof.
  destruct (normalized_scores_in_unit_interval ∅ no_analysis ∅
              one_initiation) as (Hrange & Hsingle & _).
  split.
  - apply (Hsingle (fst single_contact) (snd single_contact)).
    exact single_contact_scored.
  - apply (Hrange (fst single_contact) (snd single_contact)).
    rewrite single_contact_scored. now left.
Defined.

Lemma equal_raw_scores_keep_default_witness :
  Forall (fun e => normalized_score (snd e) = 5 # 10) two_contacts
  /\ length two_contacts = 2%nat.
Proof.
  split; [|reflexivity].
  apply List.Forall_forall. intros [c d] Hin. cbn [snd].
  apply (equal_raw_scores_keep_default ∅ no_analysis ∅ two_initiations)
    with (c := c).
  - rewrite two_contacts_scored. vm_compute. lia.
  - rewrite two_contacts_scored. intros c1 d1 c2 d2 H1 H2.
    vm_compute in H1, H2.
    destruct H1 as [H1|[H1|[]]], H2 as [H2|[H2|[]]];
      injection H1 as <- <-; injection H2 as <- <-; reflexivity.
  - rewrite two_contacts_scored. exact Hin.
Defined.


(** ** The reply component *)

Lemma possible_identities_spec (cm : gmap string string) (nc identity : string) :
  In identity (possible_identities cm nc)
  <-> identity = nc \/ cm !! identity = Some nc.
Proof.
  unfold possible_identities. cbn [In]. split.
  - intros [->|Hin]; [now left|right].
    apply in_map_iff in Hin as ([name email] & <- & Hin).
    apply filter_In in Hin as [Hin Heq]. cbn [fst snd] in *.
    apply String.eqb_eq in Heq as ->.
    now apply list_elem_of_In, elem_of_map_to_list in Hin.
  - intros [->|Hlookup]; [now left|right].
    apply in_map_iff. exists (identity, nc). split; [reflexivity|].
    apply filter_In. split.
    + now apply list_elem_of_In, elem_of_map_to_list.
    + apply String.eqb_refl.
Qed.

Lemma all_responses_spec (rd : gmap string (list response))
    (cm : gmap string string) (nc : string) (r : response) :
  In r (all_responses_of rd (possible_identities cm nc))
  <-> exists identity rs,
        (identity = nc \/ cm !! identity = Some nc)
        /\ rd !! identity = Some rs /\ In r rs.
Proof.
  unfold all_responses_of. rewrite in_flat_map. split.
  - intros (identity & Hid & Hr).
    apply possible_identities_spec in Hid.
    destruct (rd !! identity) as [rs|] eqn:E; [|destruct Hr].
    exists identity, rs. auto.
  - intros (identity & rs & Hid & Hrd & Hr).
    exists identity. split; [now apply possible_identities_spec|].
    now rewrite Hrd.
Qed.

Lemma valid_responses_spec (all : list response) (r : response) :
  In r (valid_responses_of all) <-> In r all /\ 0 <= response_time r.
Proof.
  unfold valid_responses_of. rewrite filter_In.
  now rewrite Qle_bool_iff.
Qed.

Lemma sumQ_nonneg (l : list Q) : (forall x, In x l -> 0 <= x) -> 0 <= sumQ l.
Proof.
  induction l as [|x l IH]; intros H; cbn [sumQ fold_right]; [lra|].
  assert (0 <= x) by (apply H; now left).
  assert (0 <= sumQ l) by (apply IH; intros; apply H; now right).
  unfold sumQ in *. lra.
Qed.

Lemma mean_nonneg (l : list Q) : (forall x, In x l -> 0 <= x) -> 0 <= mean l.
Proof.
  intros H. unfold mean, Qdiv.
  apply Qmult_le_0_compat; [now apply sumQ_nonneg|].
  apply Qinv_le_0_compat.
  change 0 with (inject_Z 0). rewrite <- Zle_Qle. lia.
Qed.

Lemma fold_max_spec (l : list Z) (a : Z) :
  In (fold_left Z.max l a) (a :: l)
  /\ forall x, In x (a :: l) -> (x <= fold_left Z.max l a)%Z.
Proof.
  revert a. induction l as [|y l IH]; intros a; cbn [fold_left].
  - split; [now left|]. intros x [<-|[]]. lia.
  - destruct (IH (Z.max a y)) as [Hin Hup]. split.
    + destruct Hin as [Hin|Hin]; [|right; now right].
      rewrite <- Hin. destruct (Z.max_spec a y) as [[_ ->]|[_ ->]];
        [right; now left|now left].
    + intros x [Hx|[Hx|Hx]].
      * specialize (Hup (Z.max a y) (or_introl eq_refl)). lia.
      * specialize (Hup (Z.max a y) (or_introl eq_refl)). lia.
      * apply Hup. now right.
Qed.

Lemma fold_min_spec (l : list Z) (a : Z) :
  In (fold_left Z.min l a) (a :: l)
  /\ forall x, In x (a :: l) -> (fold_left Z.min l a <= x)%Z.
Proof.
  revert a. induction l as [|y l IH]; intros a; cbn [fold_left].
  - split; [now left|]. intros x [<-|[]]. lia.
  - destruct (IH (Z.min a y)) as [Hin Hlow]. split.
    + destruct Hin as [Hin|Hin]; [|right; now right].
      rewrite <- Hin. destruct (Z.min_spec a y) as [[_ ->]|[_ ->]];
        [now left|right; now left].
    + intros x [Hx|[Hx|Hx]].
      * specialize (Hlow (Z.min a y) (or_introl eq_refl)). lia.
      * specialize (Hlow (Z.min a y) (or_introl eq_refl)). lia.
      * apply Hlow. now right.
Qed.

(** [maximum] and [minimum] are the latest and the earliest date. *)
Lemma maximum_spec (l : list Z) :
  l <> [] -> In (maximum l) l /\ forall x, In x l -> (x <= maximum l)%Z.
Proof. destruct l as [|a l]; [congruence|]. intros _. apply fold_max_spec. Qed.

Lemma minimum_spec (l : list Z) :
  l <> [] -> In (minimum l) l /\ forall x, In x l -> (minimum l <= x)%Z.
Proof. destruct l as [|a l]; [congruence|]. intros _. apply fold_min_spec. Qed.

Lemma date_range_days_spec (dates : list Z) :
  date_range_days dates = Z.max 1 (days (maximum dates - minimum dates)).
Proof. unfold date_range_days. cbn zeta. case_match; lia. Qed.

Lemma reply_score_formula (config : gmap string Q) (valid : list response) :
  config !! "reply_time_weight" = None ->
  config !! "reply_rate_weight" = None ->
  config !! "reply_length_weight" = None ->
  (forall r, In r valid -> 0 <= response_time r) ->
  reply_score config valid
  == (4 # 10) * (1 / (1 + mean (List.map response_time valid) / 24))
     + (4 # 10)
       * Qmin 1 (lengthQ valid
                 / inject_Z
                     (Z.max 1 (days (maximum (List.map sent_date valid)
                                     - minimum (List.map sent_date valid))))
                 * 10)
     + (2 # 10)
       * Qmin 1 (mean (List.map
                         (fun r => inject_Z (Z.of_nat (response_length r)))
                         valid) / 500).
Proof.
  intros H1 H2 H3 Hvalid. unfold reply_score, cfg_get.
  rewrite H1, H2, H3, date_range_days_spec, !min2_spec, !max2_spec.
  rewrite (Q.max_r 0 (mean (List.map response_time valid))).
  - rewrite (Q.max_r 0 (mean (List.map _ valid))); [reflexivity|].
    apply mean_nonneg. intros x Hx.
    apply in_map_iff in Hx as (r & <- & _).
    change 0 with (inject_Z 0). rewrite <- Zle_Qle. lia.
  - apply mean_nonneg. intros x Hx.
    apply in_map_iff in Hx as (r & <- & Hr). now apply Hvalid.
Qed.

(** For a contact with at least the configured minimum number of replies,
    one of them valid, and with the default reply weights, the reply
    component is
    0.4 * (1 / (1 + avg_latency_h / 24))
    + 0.4 * min (1, reply_count / date_span_days * 10)
    + 0.2 * min (1, avg_len / 500),
    where the averages and the count are over the valid replies (those of
    non-negative latency) of the list that the code merges: the replies
    stored under the contact and under every key that the alias map sends
    to it, and the span is the larger of 1 and the days from the earliest to
    the latest valid reply. *)
Lemma reply_component_formula (config : gmap string Q)
    (contact_map : gmap string string)
    (response_data : gmap string (list response)) (contact : string) :
  let all_responses :=
    all_responses_of response_data (possible_identities contact_map contact) in
  let valid := valid_responses_of all_responses in
  let avg_latency_h := mean (List.map response_time valid) in
  let avg_len :=
    mean (List.map (fun r => inject_Z (Z.of_nat (response_length r))) valid) in
  let reply_count := lengthQ valid in
  let dates := List.map sent_date valid in
  let date_span_days := Z.max 1 (days (maximum dates - minimum dates)) in
  config !! "reply_time_weight" = None ->
  config !! "reply_rate_weight" = None ->
  config !! "reply_length_weight" = None ->
  cfg_get config "min_emails_for_pattern" 1 <= lengthQ all_responses ->
  valid <> [] ->
  (forall r, In r all_responses <->
     exists identity replies,
       (identity = contact \/ contact_map !! identity = Some contact)
       /\ response_data !! identity = Some replies /\ In r replies)
  /\ (forall r, In r valid <-> In r all_responses /\ 0 <= response_time r)
  /\ (In (maximum dates) dates /\ In (minimum dates) dates
      /\ forall t, In t dates -> (minimum dates <= t <= maximum dates)%Z)
  /\ fst (fst (reply_component config all_responses))
     == (4 # 10) * (1 / (1 + avg_latency_h / 24))
        + (4 # 10) * Qmin 1 (reply_count / inject_Z date_span_days * 10)
        + (2 # 10) * Qmin 1 (avg_len / 500)
  /\ snd (fst (reply_component config all_responses))
     = Z.of_nat (length valid).
Proof.
  intros all_responses valid avg_latency_h avg_len reply_count dates
    date_span_days H1 H2 H3 Hmin Hvalid.
  split; [intros r; apply all_responses_spec|].
  split; [intros r; apply valid_responses_spec|].
  assert (Hdates : dates <> [])
    by (subst dates; destruct valid; [congruence|discriminate]).
  split.
  { destruct (maximum_spec dates Hdates) as [Hmax Hup].
    destruct (minimum_spec dates Hdates) as [Hmn Hlow].
    repeat split; auto. }
  unfold reply_component.
  apply Qle_bool_iff in Hmin. rewrite Hmin.
  change (valid_responses_of all_responses) with valid.
  assert (Hscore :=
    reply_score_formula config valid H1 H2 H3
      (fun r Hr => proj2 (proj1 (valid_responses_spec all_responses r) Hr))).
  subst avg_latency_h avg_len reply_count date_span_days dates.
  clearbody valid.
  destruct valid as [|r0 rest]; [congruence|].
  cbn [fst snd]. split; [exact Hscore|reflexivity].
Qed.


Lemma reply_component_example :
  fst (fst (reply_component ∅
              (all_responses_of sample_replies
                 (possible_identities sample_aliases "ann@example.com"))))
  == 8 # 10.
Proof.
  destruct (reply_component_formula ∅ sample_aliases sample_replies
              "ann@example.com") as (_ & _ & _ & Hscore & _).
  - reflexivity.
  - reflexivity.
  - reflexivity.
  - vm_compute. discriminate.
  - vm_compute. discriminate.
  - rewrite Hscore. vm_compute. reflexivity.
Defined.


(** The identities of a contact are distinct unless the alias map sends the
    contact to itself. *)
Lemma possible_identities_NoDup (cm : gmap string string) (contact : string) :
  cm !! contact <> Some contact -> NoDup (possible_identities cm contact).
Proof.
  intros Hself. unfold possible_identities. apply NoDup_cons. split.
  - intros Hin. apply list_elem_of_In, in_map_iff in Hin
      as ([name email] & Hname & Hin).
    apply filter_In in Hin as [Hin Heq]. cbn [fst snd] in *. subst name.
    apply String.eqb_eq in Heq as ->.
    now apply list_elem_of_In, elem_of_map_to_list in Hin.
  - assert (Hkeys : NoDup (List.map fst (map_to_list cm)))
      by apply NoDup_fst_map_to_list.
    revert Hkeys. generalize (map_to_list cm). intros l.
    induction l as [|p l IH]; intros Hnd; [constructor|].
    cbn [List.map List.filter] in *.
    apply NoDup_cons in Hnd as [Hp Hnd].
    destruct (String.eqb (snd p) contact); [|now apply IH].
    cbn [List.map]. apply NoDup_cons. split; [|now apply IH].
    intros Hin. apply Hp.
    apply list_elem_of_In, in_map_iff in Hin as (q & Hq & Hin).
    apply filter_In in Hin as [Hin _].
    apply list_elem_of_In, in_map_iff. exists q. auto.
Qed.

(** The scan records the alias of an address to itself when the display
    name of a sender is his address. *)
Lemma scan_records_self_alias :
  an_contact_map
    (analyze_inbox_behavior None 0 1000 [bob_item] no_analysis)
  = self_alias.
Proof. vm_compute. reflexivity. Qed.

(** When the alias map sends an address to itself, the address is listed
    twice among its own identities and each reply filed under it is merged
    twice: for two valid replies thirty days apart the code takes the reply
    count 4 and the component 0.8, where the formula over the two replies
    gives 2/3. *)
Lemma self_alias_counts_replies_twice :
  possible_identities self_alias "bob@example.com"
  = ["bob@example.com"; "bob@example.com"]
  /\ length (all_responses_of bob_response_data
               (possible_identities self_alias "bob@example.com")) = 4%nat
  /\ snd (fst (reply_component ∅
                 (all_responses_of bob_response_data
                    (possible_identities self_alias "bob@example.com"))))
     = 4%Z
  /\ fst (fst (reply_component ∅
                 (all_responses_of bob_response_data
                    (possible_identities self_alias "bob@example.com"))))
     == 8 # 10
  /\ (4 # 10) * (1 / (1 + mean (List.map response_time bob_replies) / 24))
     + (4 # 10)
       * Qmin 1 (lengthQ bob_replies
                 / inject_Z
                     (Z.max 1
                        (days (maximum (List.map sent_date bob_replies)
                               - minimum (List.map sent_date bob_replies))))
                 * 10)
     + (2 # 10)
       * Qmin 1 (mean (List.map
                         (fun r => inject_Z (Z.of_nat (response_length r)))
                         bob_replies) / 500)
     == 2 # 3.
Proof. repeat split; vm_compute; reflexivity. Qed.

(** ** The reply component over the known aliases *)




End ImportanceProps.

(* ===================================================================== *)
(** * Properties of scorer.py *)
(* ===================================================================== *)


Module ScorerProps.
Import Py Scorer QProps Samples Spec.
Local Open Scope Q_scope.
Local Open Scope string_scope.

Lemma decide_high_importance_default
    (config : gmap string Q) (llm : option llm_service) (now : Z)
    (data : score_data) :
  config !! "high_priority_threshold" = None ->
  importance (score_metadata data) = 2%Z ->
  is_due_today now (flag_due_by (score_metadata data)) = false ->
  7 # 10 <= final_score data ->
  folder (decide_action config llm now data) = "High Priority"
  /\ flag (decide_action config llm now data) = true.
Proof.
  intros Hkey Himp Hdue Hlo.
  unfold decide_action. rewrite Himp, Hdue.
  assert (H7 : cfg_get config "high_priority_threshold" (7 # 10) = 7 # 10)
    by (unfold cfg_get; now rewrite Hkey).
  rewrite H7. apply Qgeb_true in Hlo. rewrite Hlo.
  cbn -[cfg_get Qgeb Qltb capitalize].
  destruct (action_items _); cbn; split; reflexivity.
Qed.

(** With the threshold configured, the high-importance rule and the
    priority rule read the same value: a message of high importance that is
    not due today goes to "High Priority" from the threshold on and to
    "Important" below it, flagged in both cases. *)
Lemma decide_high_importance_configured
    (config : gmap string Q) (llm : option llm_service) (now : Z)
    (data : score_data) (threshold : Q) :
  config !! "high_priority_threshold" = Some threshold ->
  importance (score_metadata data) = 2%Z ->
  is_due_today now (flag_due_by (score_metadata data)) = false ->
  folder (decide_action config llm now data)
  = (if Qgeb (final_score data) threshold then "High Priority"
     else "Important")
  /\ flag (decide_action config llm now data) = true.
Proof.
  intros Hkey Himp Hdue.
  unfold decide_action. rewrite Himp, Hdue.
  assert (H7 : cfg_get config "high_priority_threshold" (7 # 10) = threshold)
    by (unfold cfg_get; now rewrite Hkey).
  rewrite H7.
  destruct (Qgeb (final_score data) threshold);
    cbn -[cfg_get Qgeb Qltb capitalize];
    destruct (action_items _); cbn; split; reflexivity.
Qed.

(** C1 (the code departs from the claim). With no
    'high_priority_threshold' in the configuration, the high-importance rule
    compares the final score with 0.7 where the priority rule uses the
    documented 0.8: a message of high importance that is not due today and
    whose final score is at least 0.7 and below 0.8 is filed under
    "High Priority", not under "Important". *)
Theorem high_importance_default_threshold
    (sender_scores : gmap string Analyzer.sender_score)
    (patterns : email_patterns) (config : gmap string Q)
    (llm : option llm_service)
    (email_tracking : option (gmap string Analyzer.tracking_record))
    (now : Z) (item : email_item) (data : score_data) :
  score_email sender_scores patterns config email_tracking now item
    = Some data ->
  config !! "high_priority_threshold" = None ->
  importance (score_metadata data) = 2%Z ->
  is_due_today now (flag_due_by (score_metadata data)) = false ->
  7 # 10 <= final_score data ->
  final_score data < 8 # 10 ->
  exists r,
    recommend_action sender_scores patterns config llm email_tracking now item
      = Some r
    /\ folder r = "High Priority" /\ flag r = true.
Proof.
  intros Hscore Hkey Himp Hdue Hlo _.
  unfold recommend_action. rewrite Hscore. eexists. split; [reflexivity|].
  now apply decide_high_importance_default.
Qed.

Lemma priority_rule_default_threshold
    (config : gmap string Q) (llm : option llm_service) (now : Z)
    (data : score_data) :
  config !! "high_priority_threshold" = None ->
  config !! "medium_priority_threshold" = None ->
  importance (score_metadata data) <> 2%Z ->
  is_due_today now (flag_due_by (score_metadata data)) = false ->
  7 # 10 <= final_score data ->
  final_score data < 8 # 10 ->
  folder (decide_action config llm now data) = "Medium Priority".
Proof.
  intros Hkey Hmed Himp Hdue Hlo Hhi.
  unfold decide_action. rewrite Hdue.
  apply Z.eqb_neq in Himp. rewrite Himp.
  assert (H8 : cfg_get config "high_priority_threshold" (8 # 10) = 8 # 10)
    by (unfold cfg_get; now rewrite Hkey).
  assert (H5 : cfg_get config "medium_priority_threshold" (5 # 10) = 5 # 10)
    by (unfold cfg_get; now rewrite Hmed).
  rewrite H8, H5. apply Qgeb_false in Hhi. rewrite Hhi.
  assert (Hge : Qgeb (final_score data) (5 # 10) = true)
    by (apply Qgeb_true; lra).
  cbn -[cfg_get Qgeb Qltb capitalize cfg_true llm_folder].
  rewrite Hge.
  cbn -[cfg_get Qgeb Qltb capitalize cfg_true llm_folder].
  destruct (action_items _); reflexivity.
Qed.

(** C5. A scored promotional message that is not due today, not of high
    importance, and whose final score is below both priority thresholds and
    below 0.3 is recommended for "Archive/Promotional" with auto-archive when
    it has no action items, and for "Action Required" without auto-archive
    and with a task when it has some. *)
Theorem promotional_low_score
    (sender_scores : gmap string Analyzer.sender_score)
    (patterns : email_patterns) (config : gmap string Q)
    (llm : option llm_service)
    (email_tracking : option (gmap string Analyzer.tracking_record))
    (now : Z) (item : email_item) (data : score_data) :
  score_email sender_scores patterns config email_tracking now item
    = Some data ->
  category (analysis (score_metadata data)) = Some "promotional" ->
  is_due_today now (flag_due_by (score_metadata data)) = false ->
  importance (score_metadata data) <> 2%Z ->
  final_score data < cfg_get config "high_priority_threshold" (8 # 10) ->
  final_score data < cfg_get config "medium_priority_threshold" (5 # 10) ->
  final_score data < 3 # 10 ->
  exists r,
    recommend_action sender_scores patterns config llm email_tracking now item
      = Some r
    /\ (action_items (analysis (score_metadata data)) = [] ->
        folder r = "Archive/Promotional" /\ auto_archive r = true)
    /\ (action_items (analysis (score_metadata data)) <> [] ->
        folder r = "Action Required" /\ auto_archive r = false
        /\ create_task r = true).
Proof.
  intros Hscore Hcat Hdue Himp Hhigh Hmed Hlow.
  unfold recommend_action. rewrite Hscore. eexists. split; [reflexivity|].
  unfold decide_action. rewrite Hcat, Hdue.
  apply Z.eqb_neq in Himp. rewrite Himp.
  apply Qgeb_false in Hhigh, Hmed. apply Qltb_true in Hlow.
  cbn -[cfg_get Qgeb Qltb cfg_true llm_folder].
  rewrite Hhigh, Hmed.
  cbn -[cfg_get Qgeb Qltb cfg_true llm_folder].
  rewrite Hlow.
  split.
  - intros ->. split; reflexivity.
  - intros Hitems. destruct (action_items _); [congruence|].
    repeat split; reflexivity.
Qed.


Lemma important_mail_scored :
  score_email boss_scores no_patterns ∅ None hundred_days important_mail
  = Some important_mail_data.
Proof. vm_compute. reflexivity. Qed.

Lemma high_importance_default_threshold_witness :
  final_score important_mail_data < 8 # 10
  /\ exists r,
       recommend_action boss_scores no_patterns ∅ None None hundred_days
         important_mail = Some r
       /\ folder r = "High Priority" /\ flag r = true.
Proof.
  split; [vm_compute; reflexivity|].
  apply (high_importance_default_threshold boss_scores no_patterns ∅ None
           None hundred_days important_mail important_mail_data).
  - exact important_mail_scored.
  - reflexivity.
  - reflexivity.
  - reflexivity.
  - vm_compute. discriminate.
  - vm_compute. reflexivity.
Defined.

Lemma promo_scored :
  score_email promo_scores no_patterns ∅ None hundred_days (promo_mail [])
  = Some promo_data.
Proof. vm_compute. reflexivity. Qed.

Lemma promo_action_scored :
  score_email promo_scores no_patterns ∅ None hundred_days
    (promo_mail ["reply by Friday"])
  = Some promo_action_data.
Proof. vm_compute. reflexivity. Qed.

Lemma promotional_low_score_witness :
  (exists r,
     recommend_action promo_scores no_patterns ∅ None None hundred_days
       (promo_mail []) = Some r
     /\ folder r = "Archive/Promotional" /\ auto_archive r = true)
  /\ (exists r,
        recommend_action promo_scores no_patterns ∅ None None hundred_days
          (promo_mail ["reply by Friday"]) = Some r
        /\ folder r = "Action Required" /\ auto_archive r = false
        /\ create_task r = true).
Proof.
  split.
  - destruct (promotional_low_score promo_scores no_patterns ∅ None None
                hundred_days (promo_mail []) promo_data promo_scored)
      as (r & Hr & Hnone & _).
    + reflexivity.
    + reflexivity.
    + discriminate.
    + vm_compute. reflexivity.
    + vm_compute. reflexivity.
    + vm_compute. reflexivity.
    + exists r. split; [exact Hr|]. apply Hnone. reflexivity.
  - destruct (promotional_low_score promo_scores no_patterns ∅ None None
                hundred_days (promo_mail ["reply by Friday"])
                promo_action_data promo_action_scored)
      as (r & Hr & _ & Hsome).
    + reflexivity.
    + reflexivity.
    + discriminate.
    + vm_compute. reflexivity.
    + vm_compute. reflexivity.
    + vm_compute. reflexivity.
    + exists r. split; [exact Hr|]. apply Hsome. discriminate.
Defined.

Lemma getattr_readable {A} (a : attr A) (d : A) :
  a <> ComError -> exists v, getattr a d = Ret v.
Proof. destruct a; [congruence|eexists; reflexivity..]. Qed.


Lemma normalized_weights_spec (config : gmap string Q) :
  ~ sum5 (configured_weights config) == 0 ->
  exists w,
    normalized_weights config = Ret w
    /\ sum5 w == 1
    /\ forall c, weighted_sum w c
         == weighted_sum
              (scale5 (sum5 (configured_weights config))
                 (configured_weights config)) c.
Proof.
  intros Hsum. unfold normalized_weights, configured_weights in *.
  cbn [sum5] in Hsum.
  set (a := cfg_get config "sender_weight" _) in *.
  set (b := cfg_get config "topic_weight" _) in *.
  set (c := cfg_get config "temporal_weight" _) in *.
  set (d := cfg_get config "message_state_weight" _) in *.
  set (e := cfg_get config "recipient_weight" _) in *.
  destruct (Qeq_bool (a + b + c + d + e) 1) eqn:E1; cbn [negb].
  - apply Qeq_bool_iff in E1. eexists. split; [reflexivity|].
    split; [exact E1|]. intros comps. cbn [weighted_sum scale5 sum5].
    rewrite E1. field.
  - destruct (Qeq_bool (a + b + c + d + e) 0) eqn:E0.
    + apply Qeq_bool_iff in E0. contradiction.
    + eexists. split; [reflexivity|]. split.
      * cbn [sum5]. field. exact Hsum.
      * intros comps. cbn [weighted_sum scale5 sum5]. field. exact Hsum.
Qed.

Lemma score_body_final a b config d e item data :
  score_body a b config d e item = Ret data ->
  exists w,
    normalized_weights config = Ret w
    /\ final_score data
       = max2 0 (min2 1 (weighted_sum w (score_components data))).
Proof.
  unfold score_body. intros H.
  repeat match type of H with
         | bind ?m _ = _ => destruct m eqn:?; cbn [bind] in H; [discriminate|]
         | (let '(_, _) := ?p in _) = _ => destruct p
         end.
  injection H as <-. eexists. split; [reflexivity|]. reflexivity.
Qed.


Lemma read_sender_readable (item : email_item) :
  SenderName item <> ComError -> exists s, read_sender item = Ret s.
Proof.
  intros H. unfold read_sender.
  destruct (SenderName item) as [| |name]; [congruence| |];
    destruct (SenderEmailAddress item) as [| |address];
    cbn [getattr bind try_except];
    repeat case_match; eexists; reflexivity.
Qed.

Lemma ignore_penalty_readable config email_tracking entry_id :
  counters_stored email_tracking ->
  exists q, ignore_penalty_of config email_tracking entry_id = Ret q.
Proof.
  intros Hstored. unfold ignore_penalty_of.
  destruct email_tracking as [tracking|]; [|eexists; reflexivity].
  destruct entry_id as [id|]; [|eexists; reflexivity].
  destruct (_ && _); [|eexists; reflexivity].
  destruct (tracking !! id) as [r|] eqn:Hr; [|eexists; reflexivity].
  specialize (Hstored tracking id r eq_refl Hr).
  destruct (match dict_get (Analyzer.tr_is_currently_read r) true with
            | Some b => negb b
            | None => true
            end); [|eexists; reflexivity].
  destruct (Analyzer.tr_check_count r) as [| |count]; [|congruence|];
    cbn [dict_get need bind]; case_match; eexists; reflexivity.
Qed.

Lemma message_state_readable config now email_tracking item :
  EntryID item <> ComError -> Unread item <> ComError ->
  FlagStatus item <> ComError -> Importance item <> ComError ->
  counters_stored email_tracking ->
  exists v, message_state_of config now email_tracking item = Ret v.
Proof.
  intros H1 H2 H3 H4 Hstored. unfold message_state_of.
  destruct (getattr_readable (EntryID item) None H1) as [entry_id ->].
  destruct (getattr_readable (Unread item) true H2) as [is_unread ->].
  destruct (getattr_readable (FlagStatus item) 0%Z H3) as [flag_status ->].
  destruct (getattr_readable (Importance item) 1%Z H4) as [importance ->].
  cbn [bind].
  destruct is_unread.
  - destruct (ignore_penalty_readable config email_tracking entry_id Hstored)
      as [q ->].
    cbn [bind]. eexists. reflexivity.
  - cbn [bind]. eexists. reflexivity.
Qed.

Lemma score_body_returns sender_scores patterns config email_tracking now
    item :
  readable item -> counters_stored email_tracking ->
  ~ sum5 (configured_weights config) == 0 ->
  exists data,
    score_body sender_scores patterns config email_tracking now item
    = Ret data.
Proof.
  intros (H1 & H2 & H3 & H4 & H5 & H6 & H7 & H8 & H9 & H10 & H11) Hstored Hsum.
  unfold score_body.
  destruct (read_sender_readable item H1) as [sender ->].
  destruct (getattr_readable (Subject item) "" H2) as [subject ->].
  destruct (getattr_readable (Body item) "" H3) as [body ->].
  destruct (getattr_readable (ReceivedTime item) None H4) as [received ->].
  destruct (getattr_readable (ConversationID item) None H5) as [conv ->].
  destruct (content item) as [|analysis] eqn:Hcontent; [congruence|].
  destruct (message_state_readable config now email_tracking item
              H7 H8 H9 H10 Hstored) as [[[[ms unread] status] imp] ->].
  destruct (normalized_weights_spec config Hsum) as (w & -> & _).
  destruct (getattr_readable (FlagDueBy item) None H11) as [due ->].
  cbn [bind]. eexists. reflexivity.
Qed.

(** C4. Under non-negative weights of positive sum, every result of
    [score_email] has a final score between 0 and 1, equal to the clamp of
    the sum of the components weighted by the configured weights divided by
    their total (weights that sum to 1); this holds whatever the components
    are, the message state score included. A result is returned whenever the
    attributes of the message can be read, the content analysis returns and
    no stored counter is [None]. *)
Theorem final_score_in_unit_interval
    (sender_scores : gmap string Analyzer.sender_score)
    (patterns : email_patterns) (config : gmap string Q)
    (email_tracking : option (gmap string Analyzer.tracking_record))
    (now : Z) (item : email_item) :
  nonneg5 (configured_weights config) ->
  0 < sum5 (configured_weights config) ->
  (forall data,
     score_email sender_scores patterns config email_tracking now item
       = Some data ->
     0 <= final_score data <= 1
     /\ final_score data
        == clamp01
             (weighted_sum
                (scale5 (sum5 (configured_weights config))
                   (configured_weights config))
                (score_components data)))
  /\ sum5 (scale5 (sum5 (configured_weights config))
             (configured_weights config)) == 1
  /\ (readable item -> counters_stored email_tracking ->
      exists data,
        score_email sender_scores patterns config email_tracking now item
          = Some data).
Proof.
  intros Hnonneg Hpos.
  assert (Hsum : ~ sum5 (configured_weights config) == 0) by lra.
  split; [|split].
  - intros data Hscore. unfold score_email in Hscore.
    destruct (score_body _ _ _ _ _ _) as [|data'] eqn:Hbody; [discriminate|].
    injection Hscore as ->.
    apply score_body_final in Hbody as (w & Hw & ->).
    split; [apply clamp_bounds|].
    rewrite clamp01_spec.
    destruct (normalized_weights_spec config Hsum) as (w' & Hw' & _ & Heq).
    rewrite Hw in Hw'. injection Hw' as <-.
    unfold clamp01. now rewrite Heq.
  - destruct (configured_weights config) as [[[[a b] c] d] e].
    cbn [sum5 scale5] in *. field. lra.
  - intros Hread Hstored. unfold score_email.
    destruct (score_body_returns sender_scores patterns config email_tracking
                now item Hread Hstored Hsum) as [data ->].
    eexists. reflexivity.
Qed.


Lemma extreme_scored :
  score_email ∅ no_patterns extreme_config None hundred_days extreme_mail
  = Some extreme_data.
Proof. vm_compute. reflexivity. Qed.

Lemma final_score_in_unit_interval_witness :
  message_state_score (score_components extreme_data) == 15 # 10
  /\ 0 <= final_score extreme_data <= 1.
Proof.
  split; [vm_compute; reflexivity|].
  destruct (final_score_in_unit_interval ∅ no_patterns extreme_config None
              hundred_days extreme_mail) as (Hrange & _ & _).
  - vm_compute. repeat split; discriminate.
  - vm_compute. reflexivity.
  - apply (Hrange extreme_data extreme_scored).
Defined.

End ScorerProps.

(* ===================================================================== *)
(** * Properties of organizer.py *)
(* ===================================================================== *)

Module OrganizerProps.
Import Py Organizer Samples.
Local Open Scope string_scope.

(** In a dry run nothing leaves the inbox. *)
Lemma dry_run_keeps_collection env i it st :
  dry_run env = true ->
  collection (organize_item env i it st) = collection st.
Proof.
  intros Hdry. unfold organize_item. rewrite Hdry.
  repeat case_match; reflexivity.
Qed.

(** In a dry run the loop visits every item up to the limit, whatever
    happens on the items before it. *)
Lemma dry_run_visits_all env items st i :
  dry_run env = true ->
  skipn i (collection st) = items ->
  organize_loop env (length items) i st
  = fold_left (fun st it => organize_item env 0 it st) items st.
Proof.
  intros Hdry. revert st i.
  induction items as [|it rest IH]; intros st i Hitems; [reflexivity|].
  cbn [length organize_loop fold_left].
  assert (Hi : collection st !! i = Some it).
  { rewrite <- (take_drop i (collection st)).
    change (drop i (collection st)) with (skipn i (collection st)).
    rewrite Hitems. rewrite lookup_app_r by (rewrite length_take; lia).
    rewrite length_take.
    assert (Hlen : (i < length (collection st))%nat).
    { destruct (Nat.lt_ge_cases i (length (collection st))); [assumption|].
      rewrite skipn_all2 in Hitems by assumption. discriminate. }
    replace (i - i `min` length (collection st))%nat with O by lia.
    reflexivity. }
  rewrite Hi.
  assert (Hsame : organize_item env i it st = organize_item env 0 it st).
  { unfold organize_item. rewrite Hdry. reflexivity. }
  rewrite Hsame. apply IH.
  rewrite dry_run_keeps_collection by assumption.
  change (S i) with (1 + i)%nat. rewrite <- skipn_skipn. 
  rewrite Hitems. reflexivity.
Qed.

(** C8. When scoring a message of the inbox raises, [score_email] and
    [recommend_action] return [None], the organizer adds the message to its
    error counter (once, or twice when the very subject cannot be read for
    the warning) and changes nothing else, and the loop goes on with the
    next index. *)
Theorem scoring_error_counted_and_skipped (env : environment) (i : nat)
    (it : item) (st : org_state) (entry_id : string) :
  fetched it = true ->
  item_EntryID it = Has (Some entry_id) ->
  entry_id <> "" ->
  entry_id ∉ processed_ids st ->
  item_Class it = Has 43%Z ->
  parent_EntryID it = Ret (Some (inbox_EntryID env)) ->
  Scorer.score_body (sender_scores env) (patterns env) (config env)
    (email_tracking env) (now env) (mail it) = Raise ->
  Scorer.score_email (sender_scores env) (patterns env) (config env)
    (email_tracking env) (now env) (mail it) = None
  /\ Scorer.recommend_action (sender_scores env) (patterns env) (config env)
       (llm env) (email_tracking env) (now env) (mail it) = None
  /\ organize_item env i it st
     = with_counters st
         match Scorer.Subject (mail it) with
         | ComError => add_error (add_error (counters st))
         | _ => add_error (counters st)
         end
  /\ forall remaining,
       collection st !! i = Some it ->
       organize_loop env (S remaining) i st
       = organize_loop env remaining (S i) (organize_item env i it st).
Proof.
  intros Hfetch Hid Hne Hnew Hclass Hparent Hraise.
  assert (Hscore : Scorer.score_email (sender_scores env) (patterns env)
                     (config env) (email_tracking env) (now env) (mail it)
                   = None)
    by (unfold Scorer.score_email; now rewrite Hraise).
  assert (Hrec : Scorer.recommend_action (sender_scores env) (patterns env)
                   (config env) (llm env) (email_tracking env) (now env)
                   (mail it) = None)
    by (unfold Scorer.recommend_action; now rewrite Hscore).
  split; [exact Hscore|]. split; [exact Hrec|]. split.
  - unfold organize_item.
    rewrite Hfetch, Hid, Hclass, Hparent, Hrec.
    apply PyProps.nonempty_true in Hne. rewrite Hne.
    rewrite (bool_decide_eq_false_2 _ Hnew).
    rewrite (bool_decide_eq_true_2 _ eq_refl).
    cbn [negb Z.eqb Pos.eqb].
    destruct (Scorer.Subject (mail it)); reflexivity.
  - intros remaining Hi. cbn [organize_loop]. now rewrite Hi.
Qed.

Lemma unreadable_mail_raises :
  Scorer.score_body (sender_scores sample_env) (patterns sample_env)
    (config sample_env) (email_tracking sample_env) (now sample_env)
    unreadable_mail = Raise.
Proof. vm_compute. reflexivity. Qed.

Lemma scoring_error_counted_and_skipped_witness :
  errors (counters (organize_inbox sample_env None sample_inbox)) = 1%Z
  /\ processed (counters (organize_inbox sample_env None sample_inbox)) = 1%Z
  /\ archived (counters (organize_inbox sample_env None sample_inbox)) = 1%Z.
Proof.
  destruct (scoring_error_counted_and_skipped sample_env 0
              (inbox_entry "m0" unreadable_mail) fresh_state "m0")
    as (_ & _ & Hitem & Hloop).
  - reflexivity.
  - reflexivity.
  - discriminate.
  - apply not_elem_of_empty.
  - reflexivity.
  - reflexivity.
  - exact unreadable_mail_raises.
  - unfold organize_inbox.
    change (Z.to_nat (Z.of_nat (length sample_inbox))) with 2%nat.
    change {| collection := sample_inbox; counters := no_stats;
              folder_cache := ∅; processed_ids := ∅ |} with fresh_state.
    rewrite (Hloop 1%nat eq_refl), Hitem.
    vm_compute. repeat split; reflexivity.
Defined.

End OrganizerProps.

(* ===================================================================== *)
(** * Invariants of the alias map and of the tracking store *)
(* ===================================================================== *)

Module StoreProps.
Import Py Analyzer PyProps Spec Samples AnalyzerProps ResolverProps Invariants.
Local Open Scope string_scope.

(** ** Sound alias maps *)

Lemma sound_lower (name email : string) :
  nonempty name = true -> has_at email = true ->
  sound_alias (lower name) (lower email).
Proof.
  intros Hn He. split; [|split].
  - apply nonempty_true. now rewrite nonempty_lower.
  - apply lower_idem.
  - now apply canonical_lower.
Qed.

Lemma match_others_sound sender items t :
  nonempty sender = true ->
  extends sound_alias t (match_others sender items t).
Proof.
  intros Hs. unfold match_others. apply extends_fold. intros t' other _.
  destruct (has_at sender) eqn:Hat.
  - destruct (nonempty _ && _) eqn:E; [|constructor].
    destruct (corresponds _ _); [|constructor].
    apply andb_true_iff in E as [E _].
    apply extends_add; [constructor|]. now apply sound_lower.
  - destruct (nonempty _ && _) eqn:E; [|constructor].
    destruct (corresponds _ _); [|constructor].
    apply andb_true_iff in E as [_ E].
    apply extends_add; [constructor|]. now apply sound_lower.
Qed.

Lemma find_correspondences_sound items t :
  extends sound_alias t (find_correspondences items t).
Proof.
  unfold find_correspondences. apply extends_fold. intros t' entry _.
  destruct (nonempty _) eqn:E; [now apply match_others_sound|constructor].
Qed.

(** The names of a table all satisfy [Q]. *)
Lemma extends_names (Q : string -> Prop) t t' :
  extends (fun name _ => Q name) t t' ->
  Forall Q (List.map fst t) -> Forall Q (List.map fst t').
Proof.
  induction 1 as [|t t' name email Hext IH Hq]; intros Hall; [assumption|].
  rewrite table_add_names. destruct (mem _ _); [now apply IH|].
  apply Forall_app. split; [now apply IH|]. now constructor.
Qed.

Lemma extends_weaken (P Q : string -> string -> Prop) t t' :
  (forall name email, P name email -> Q name email) ->
  extends P t t' -> extends Q t t'.
Proof. intros H. induction 1; constructor; auto. Qed.

Lemma match_components_sound items t :
  Forall (fun name => name <> "" /\ lower name = name) (List.map fst t) ->
  extends sound_alias t (match_components items t).
Proof.
  intros Hnames. unfold match_components.
  apply extends_fold. intros t' name Hname.
  rewrite List.Forall_forall in Hnames. destruct (Hnames name Hname) as [H1 H2].
  apply extends_fold. intros t'' entry _.
  destruct (_ && _) eqn:E; [|constructor].
  apply andb_true_iff in E as [E _].
  apply extends_add; [constructor|].
  split; [assumption|]. split; [assumption|].
  split; [exact E|apply lower_idem].
Qed.

Lemma accepted_sound pairs p :
  Forall accepted pairs -> In p pairs ->
  lower (fst p) = fst p -> sound_alias (fst p) (snd p).
Proof.
  intros Hacc Hin Hlow. rewrite List.Forall_forall in Hacc.
  destruct (Hacc p Hin) as [Hn Hc].
  split; [now apply nonempty_true|]. split; assumption.
Qed.

Lemma record_pairs_lower data pairs :
  record_pairs data = Ret pairs ->
  Forall (fun p => lower (fst p) = fst p) pairs.
Proof.
  unfold record_pairs.
  destruct (get_stripped (tr_sender data)) as [|sender]; [discriminate|].
  destruct (get_stripped (tr_raw_sender data)) as [|raw]; [discriminate|].
  destruct (get_stripped (tr_sender_name data)) as [|name]; [discriminate|].
  destruct (get_stripped (tr_sender_email data)) as [|email]; [discriminate|].
  cbn [bind]. intros H. injection H as <-.
  apply Forall_app. split.
  - repeat case_match; repeat constructor; apply lower_idem.
  - case_match; repeat constructor; apply lower_idem.
Qed.

Lemma raw_sender_pairs_lower items pairs :
  raw_sender_pairs items = Ret pairs ->
  Forall (fun p => lower (fst p) = fst p) pairs.
Proof.
  revert pairs. induction items as [|[id data] items IH]; intros pairs.
  - cbn. intros H. injection H as <-. constructor.
  - cbn [raw_sender_pairs].
    destruct (record_pairs data) as [|here] eqn:Hhere; [discriminate|].
    destruct (raw_sender_pairs items) as [|more]; [discriminate|].
    cbn [bind]. intros H. injection H as <-.
    apply Forall_app. split; [eapply record_pairs_lower; eauto|now apply IH].
Qed.

Lemma name_to_emails_sound pairs items :
  Forall accepted pairs ->
  Forall (fun p => lower (fst p) = fst p) pairs ->
  extends sound_alias [] (name_to_emails pairs items).
Proof.
  intros Hacc Hlow. unfold name_to_emails. cbn zeta.
  assert (H0 : extends sound_alias []
                 (fold_left (fun t p => table_add (fst p) (snd p) t) pairs [])).
  { apply extends_fold. intros t p Hp.
    apply extends_add; [constructor|].
    apply accepted_sound with pairs; try assumption.
    rewrite List.Forall_forall in Hlow. now apply Hlow. }
  assert (H1 : extends sound_alias []
                 (find_correspondences items
                    (fold_left (fun t p => table_add (fst p) (snd p) t)
                       pairs [])))
    by (eapply extends_trans; [exact H0|apply find_correspondences_sound]).
  eapply extends_trans; [exact H1|].
  apply match_components_sound.
  apply (extends_names (fun name => name <> "" /\ lower name = name) []);
    [|constructor].
  eapply extends_weaken; [|exact H1].
  intros name email (Hn & Hl & _). auto.
Qed.

Lemma table_lookup_name name t emails :
  table_lookup name t = Some emails -> In name (List.map fst t).
Proof.
  induction t as [|[n es] t IH]; [discriminate|].
  cbn [table_lookup List.map fst]. destruct (String.eqb_spec n name).
  - intros _. now left.
  - intros H. right. now apply IH.
Qed.

(** X1. Every entry of the alias map built from an empty map has a
    non-empty lower-case name as key and a lower-case address with an at
    sign as value, whatever the tracking store holds. *)
Theorem built_alias_map_sound (items : list (string * tracking_record)) :
  sound_map (_initialize_contact_map ∅ items).
Proof.
  intros name address Hlook.
  destruct (raw_sender_pairs items) as [|pairs] eqn:Hpairs.
  - unfold _initialize_contact_map in Hlook.
    rewrite bool_decide_eq_true_2, Hpairs in Hlook by reflexivity.
    cbn [negb] in Hlook. rewrite lookup_empty in Hlook. discriminate.
  - rewrite (build_lookup items pairs name Hpairs) in Hlook.
    pose proof (raw_sender_pairs_accepted _ _ Hpairs) as Hacc.
    pose proof (raw_sender_pairs_lower _ _ Hpairs) as Hlow.
    pose proof (name_to_emails_sound pairs items Hacc Hlow) as Hext.
    assert (Hdirect : forall first, first_direct name pairs = Some first ->
                                    sound_alias name first).
    { intros first Hfirst. apply first_direct_In in Hfirst.
      apply (accepted_sound pairs (name, first)); try assumption.
      rewrite List.Forall_forall in Hlow. now apply (Hlow (name, first)). }
    destruct (table_lookup name (name_to_emails pairs items))
      as [candidates|] eqn:Ht; [|now apply Hdirect].
    destruct (chosen name candidates) as [best|] eqn:Hc; [|now apply Hdirect].
    injection Hlook as <-.
    apply chosen_spec in Hc as [Hin _].
    assert (Hnames : Forall (fun n => n <> "" /\ lower n = n)
                       (List.map fst (name_to_emails pairs items))).
    { apply (extends_names (fun n => n <> "" /\ lower n = n) []);
        [|constructor].
      eapply extends_weaken; [|exact Hext]. intros n e (Hn & Hl & _). auto. }
    rewrite List.Forall_forall in Hnames.
    destruct (Hnames name (table_lookup_name _ _ _ Ht)) as [Hn Hl].
    split; [assumption|]. split; [assumption|].
    destruct (name_to_emails_invariants pairs items Hacc) as [_ Hall].
    eapply Hall; eauto.
Qed.


Lemma built_alias_map_sound_witness :
  sound_alias "john doe" "john.doe@other.com".
Proof.
  apply (built_alias_map_sound john_store "john doe" "john.doe@other.com").
  vm_compute. reflexivity.
Defined.

(** ** What a scan does to the alias map *)

Lemma captured_pair_sound it p :
  In p (captured_pair it) -> sound_alias (fst p) (snd p).
Proof.
  unfold captured_pair.
  destruct (access (Class it)) as [|class]; [intros []|].
  destruct (class =? 43)%Z; [|intros []].
  destruct (safe_get (SenderName it)) as [n|]; [|intros []].
  destruct (safe_get (SenderEmailAddress it)) as [e|]; [|intros []].
  destruct (nonempty n && nonempty e && has_at e) eqn:E; [|intros []].
  intros [<-|[]]. cbn [fst snd].
  apply andb_true_iff in E as [E He]. apply andb_true_iff in E as [Hn _].
  now apply sound_lower.
Qed.

Lemma last_scanned_In name pairs address :
  last_scanned name pairs = Some address -> In (name, address) pairs.
Proof.
  unfold last_scanned. intros H. apply first_direct_In in H.
  now apply in_rev.
Qed.

(** X2. A scan of the inbox keeps the alias map sound: if every entry has
    a non-empty lower-case name and a lower-case address with an at sign,
    so has every entry after the scan has added the pairs of the scanned
    messages. *)
Theorem scan_keeps_alias_map_sound (path : option string) (now max_items : Z)
    (items : list inbox_item) (self : analyzer) :
  sound_map (an_contact_map self) ->
  sound_map
    (an_contact_map (analyze_inbox_behavior path now max_items items self)).
Proof.
  intros Hsound name address Hlook.
  rewrite scan_contact_map in Hlook.
  destruct (last_scanned name _) as [a|] eqn:Hlast; [|now apply Hsound].
  injection Hlook as <-.
  apply last_scanned_In, in_flat_map in Hlast as (it & _ & Hin).
  now apply (captured_pair_sound it (name, a)).
Qed.

Lemma scan_keeps_alias_map_sound_witness :
  sound_map
    (an_contact_map
       (analyze_inbox_behavior None 0 1000 [sample_item "m1" true]
          no_analysis)).
Proof.
  apply scan_keeps_alias_map_sound. apply map_Forall_empty.
Defined.

(** X3. A scan of the inbox never removes a name from the alias map: every
    name mapped before the scan is still mapped after it. *)
Theorem scan_never_forgets_alias (path : option string) (now max_items : Z)
    (items : list inbox_item) (self : analyzer) :
  dom (an_contact_map self)
  ⊆ dom (an_contact_map
           (analyze_inbox_behavior path now max_items items self)).
Proof.
  intros name Hin. apply elem_of_dom in Hin as [address Hlook].
  apply elem_of_dom. rewrite scan_contact_map.
  destruct (last_scanned name _); [eexists; reflexivity|].
  now exists address.
Qed.

(** ** What a scan does to the tracking store *)

Lemma scan_item_keeps cm path now st it id :
  is_Some (email_tracking st !! id) ->
  is_Some (email_tracking (scan_item cm path now st it) !! id).
Proof.
  intros Hsome. unfold scan_item.
  repeat case_match; cbn [email_tracking];
    first [ assumption
          | rewrite lookup_insert;
            (case_decide; [eexists; reflexivity|assumption]) ].
Qed.

Lemma scan_items_keep cm path now items st id :
  is_Some (email_tracking st !! id) ->
  is_Some (email_tracking (fold_left (scan_item cm path now) items st) !! id).
Proof.
  revert st. induction items as [|it items IH]; intros st H; [exact H|].
  cbn [fold_left]. now apply IH, scan_item_keeps.
Qed.

(** X4. A scan of the inbox never deletes a tracking record: every entry
    id tracked before is tracked after it, and the record of an entry id
    that no scanned item carries is left as it was. *)
Theorem scan_never_deletes_tracking (path : option string) (now max_items : Z)
    (items : list inbox_item) (self : analyzer) :
  dom (an_email_tracking self)
  ⊆ dom (an_email_tracking
           (analyze_inbox_behavior path now max_items items self))
  /\ forall id,
       (forall it, In it (items_to_process max_items items) ->
                   EntryID it <> Has id) ->
       an_email_tracking
         (analyze_inbox_behavior path now max_items items self) !! id
       = an_email_tracking self !! id.
Proof.
  split.
  - intros id Hin. apply elem_of_dom in Hin. apply elem_of_dom.
    rewrite analyze_inbox_behavior_tracking. now apply scan_items_keep.
  - intros id Hother. rewrite analyze_inbox_behavior_tracking.
    now rewrite scan_items_other.
Qed.

Lemma scan_never_deletes_tracking_witness :
  an_email_tracking
    (analyze_inbox_behavior None 0 1000 [sample_item "m1" true] no_analysis)
    !! "m2"
  = None.
Proof.
  destruct (scan_never_deletes_tracking None 0 1000 [sample_item "m1" true]
              no_analysis) as [_ H].
  rewrite (H "m2"); [reflexivity|].
  intros it [<-|[]]. discriminate.
Defined.

(** ** The behaviour counters *)

Lemma update_behavior_consistent path it is_read sb :
  sb = no_behavior \/ consistent sb ->
  consistent (update_behavior path it is_read sb).
Proof.
  intros [->|(H1 & H2 & H3 & H4 & H5 & H6)]; unfold update_behavior, consistent;
    repeat case_match; cbn; lia.
Qed.

Lemma scan_item_behavior cm path now st it :
  map_Forall (fun _ b => consistent b) (sender_behavior st) ->
  map_Forall (fun _ b => consistent b)
    (sender_behavior (scan_item cm path now st it)).
Proof.
  intros Hall. unfold scan_item.
  destruct (access (Class it)) as [|class]; [assumption|].
  destruct (negb (class =? 43)%Z); [assumption|].
  destruct (EntryID it) as [| |id']; cbn [safe_get]; try assumption.
  destruct (_ || _); [assumption|].
  destruct (new_check_count _ _); [assumption|].
  cbn [sender_behavior]. apply map_Forall_insert_2; [|assumption].
  apply update_behavior_consistent.
  destruct (sender_behavior st !! _) as [known|] eqn:E; cbn.
  - right. now apply (Hall _ _ E).
  - now left.
Qed.

(** X5. After a scan of the inbox the counters of every sender add up (the
    total is the sum of the four outcomes, it is positive and no counter
    is negative), and the read-and-kept statistic of a sender is its
    read_kept counter, between 0 and the total. *)
Theorem scanned_senders_counted_once (path : option string)
    (now max_items : Z) (items : list inbox_item) (self : analyzer) :
  map_Forall (fun _ b => consistent b)
    (an_sender_inbox_behavior
       (analyze_inbox_behavior path now max_items items self))
  /\ forall sender stat,
       an_sender_read_kept_stats
         (analyze_inbox_behavior path now max_items items self) !! sender
       = Some stat ->
       exists b,
         an_sender_inbox_behavior
           (analyze_inbox_behavior path now max_items items self) !! sender
         = Some b
         /\ rk_count stat = read_kept b
         /\ (0 <= rk_count stat <= total b)%Z.
Proof.
  assert (Hall : map_Forall (fun _ b => consistent b)
            (an_sender_inbox_behavior
               (analyze_inbox_behavior path now max_items items self))).
  { unfold analyze_inbox_behavior. cbn [an_sender_inbox_behavior].
    rewrite scan_loop_fold by apply items_to_process_bound.
    generalize (items_to_process max_items items). intros l.
    assert (H0 : map_Forall (fun _ b => consistent b)
                   (sender_behavior
                      {| email_tracking := an_email_tracking self;
                         sender_behavior := ∅; name_email_pairs := [];
                         processed_count := 0 |}))
      by apply map_Forall_empty.
    revert H0. generalize {| email_tracking := an_email_tracking self;
                             sender_behavior := ∅; name_email_pairs := [];
                             processed_count := 0 |}.
    induction l as [|it l IH]; intros st H0; [exact H0|].
    cbn [fold_left]. now apply IH, scan_item_behavior. }
  split; [exact Hall|].
  intros sender stat Hstat.
  unfold analyze_inbox_behavior in Hstat, Hall |- *.
  cbn [an_sender_read_kept_stats an_sender_inbox_behavior] in *.
  rewrite lookup_fmap in Hstat.
  destruct (sender_behavior _ !! sender) as [b|] eqn:E; [|discriminate].
  injection Hstat as <-. exists b. split; [reflexivity|].
  split; [reflexivity|]. cbn [rk_count].
  destruct (Hall sender b E) as (H1 & H2 & H3 & H4 & H5 & H6). lia.
Qed.


Lemma scanned_senders_counted_once_witness :
  exists b,
    an_sender_inbox_behavior
      (analyze_inbox_behavior None 0 1000 [sample_item "m1" true] no_analysis)
      !! "jdoe@example.com" = Some b
    /\ consistent b.
Proof.
  destruct (scanned_senders_counted_once None 0 1000 [sample_item "m1" true]
              no_analysis) as [Hall _].
  eexists. split; [vm_compute; reflexivity|].
  eapply (Hall "jdoe@example.com"). vm_compute. reflexivity.
Defined.

(** ** The counter is never negative *)

Lemma scan_item_counted cm path now st it :
  map_Forall (fun _ r => counted r) (email_tracking st) ->
  map_Forall (fun _ r => counted r)
    (email_tracking (scan_item cm path now st it)).
Proof.
  intros Hall. unfold scan_item.
  destruct (access (Class it)) as [|class]; [assumption|].
  destruct (negb (class =? 43)%Z); [assumption|].
  destruct (EntryID it) as [| |id]; cbn [safe_get]; try assumption.
  destruct (_ || _); [assumption|].
  destruct (new_check_count _ _) as [|count] eqn:Hcount; [assumption|].
  cbn [email_tracking]. apply map_Forall_insert_2; [|assumption].
  exists count. cbn [tr_check_count dict_get]. split; [reflexivity|].
  unfold new_check_count in Hcount.
  destruct (negb _).
  - assert (Hprev : counted (default no_record (email_tracking st !! id))).
    { destruct (email_tracking st !! id) as [r|] eqn:E; cbn.
      - now apply (Hall id).
      - exists 0%Z. split; [reflexivity|lia]. }
    destruct Hprev as (previous & Hget & Hpos).
    rewrite Hget in Hcount. cbn [need bind] in Hcount.
    injection Hcount as <-. lia.
  - injection Hcount as <-. lia.
Qed.

(** X6. If every tracking record holds a counter that is a number and not
    negative, this still holds after any sequence of scans of the inbox. *)
Theorem check_count_never_negative (path : option string) (max_items : Z)
    (scans : list (Z * list inbox_item)) (self : analyzer) :
  map_Forall (fun _ r => counted r) (an_email_tracking self) ->
  map_Forall (fun _ r => counted r)
    (an_email_tracking (run_scans path max_items scans self)).
Proof.
  revert self. induction scans as [|[now items] scans IH]; intros self Hall;
    [exact Hall|].
  unfold run_scans. cbn [fold_left fst snd]. apply IH.
  rewrite analyze_inbox_behavior_tracking.
  generalize (items_to_process max_items items). intros l.
  assert (H0 : map_Forall (fun _ r => counted r)
                 (email_tracking
                    {| email_tracking := an_email_tracking self;
                       sender_behavior := ∅; name_email_pairs := [];
                       processed_count := 0 |})) by exact Hall.
  revert H0. generalize {| email_tracking := an_email_tracking self;
                           sender_behavior := ∅; name_email_pairs := [];
                           processed_count := 0 |}.
  induction l as [|it l IHl]; intros st H0; [exact H0|].
  cbn [fold_left]. now apply IHl, scan_item_counted.
Qed.

Lemma check_count_never_negative_witness :
  map_Forall (fun _ r => counted r)
    (an_email_tracking
       (run_scans None 1000
          [(1%Z, [sample_item "m1" true]); (2%Z, [sample_item "m1" false])]
          no_analysis)).
Proof.
  apply check_count_never_negative. apply map_Forall_empty.
Defined.

End StoreProps.

(** * Properties of the importance model *)

Module ModelProps.
Import Py Analyzer PyProps QProps Spec Samples ImportanceProps.
Local Open Scope Q_scope.
Local Open Scope string_scope.

Lemma clamp_monotone (x y : Q) :
  x <= y -> max2 0 (min2 1 x) <= max2 0 (min2 1 y).
Proof.
  intros H. rewrite !clamp01_spec. unfold clamp01.
  apply Q.max_le_compat_l, Q.min_le_compat_l, H.
Qed.

(** X7. The normalization keeps the order of the raw scores, and when the
    raw scores differ it gives 1 to a contact with the largest and 0 to a
    contact with the smallest raw score. *)
Theorem normalization_keeps_order (config : gmap string Q)
    (self : analyzer) (response_data : gmap string (list response))
    (sender_initiations : gmap string initiation) :
  let scores :=
    _calculate_contact_importance config self response_data
      sender_initiations in
  let raw_scores := List.map (fun e => raw_score (snd e)) scores in
  (forall c1 d1 c2 d2,
     In (c1, d1) scores -> In (c2, d2) scores ->
     raw_score d1 <= raw_score d2 ->
     normalized_score d1 <= normalized_score d2)
  /\ (forall c d,
        In (c, d) scores -> minimumQ raw_scores < maximumQ raw_scores ->
        (raw_score d == maximumQ raw_scores -> normalized_score d == 1)
        /\ (raw_score d == minimumQ raw_scores -> normalized_score d == 0)).
Proof.
  intros scores raw_scores. subst raw_scores scores.
  unfold _calculate_contact_importance.
  set (entries := raw_sender_scores _ _ _ _ _).
  rewrite raw_scores_kept.
  set (raws := List.map (fun e => raw_score (snd e)) entries).
  assert (Hdefault : forall c d, In (c, d) entries ->
                                 normalized_score d = 5 # 10)
    by (intros c d; apply raw_sender_scores_default).
  split.
  - intros c1 d1 c2 d2 H1 H2 Hle.
    destruct (normalize_scores_cases entries c1 d1 H1)
      as (e1 & He1 & Hr1 & Hc1).
    destruct (normalize_scores_cases entries c2 d2 H2)
      as (e2 & He2 & Hr2 & Hc2).
    cbn zeta in Hc1, Hc2. fold raws in Hc1, Hc2.
    destruct (Qltb 0 (maximumQ raws - minimumQ raws)) eqn:Hrange.
    + rewrite Hc1, Hc2. apply clamp_monotone.
      apply Qltb_true in Hrange.
      rewrite <- Hr1, <- Hr2. unfold Qdiv.
      apply Qmult_le_compat_r; [lra|].
      apply Qinv_le_0_compat. lra.
    + destruct (length entries =? 1)%nat.
      * rewrite Hc1, Hc2. lra.
      * rewrite Hc1, Hc2, (Hdefault c1 e1 He1), (Hdefault c2 e2 He2). lra.
  - intros c d Hin Hrange.
    destruct (normalize_scores_cases entries c d Hin) as (e & He & Hr & Hc).
    cbn zeta in Hc. fold raws in Hc.
    replace (Qltb 0 (maximumQ raws - minimumQ raws)) with true in Hc
      by (symmetry; apply Qltb_true; lra).
    rewrite Hc, <- Hr, clamp01_spec. unfold clamp01. split; intros Heq.
    + rewrite Heq.
      assert (Hone : (maximumQ raws - minimumQ raws)
                     / (maximumQ raws - minimumQ raws) == 1)
        by (field; lra).
      rewrite Hone. rewrite Q.min_l by lra. apply Q.max_r. lra.
    + rewrite Heq.
      assert (Hzero : (minimumQ raws - minimumQ raws)
                      / (maximumQ raws - minimumQ raws) == 0)
        by (field; lra).
      rewrite Hzero. rewrite Q.min_r by lra. apply Q.max_l. lra.
Qed.


(** ** The retained contacts *)

Lemma normalize_scores_fields (entries : list (string * sender_score))
    (c : string) (d : sender_score) :
  In (c, d) (normalize_scores entries) ->
  exists d0, In (c, d0) entries
    /\ reply_count d = reply_count d0
    /\ initiation_count d = initiation_count d0
    /\ read_kept_count d = read_kept_count d0
    /\ total_interactions d = total_interactions d0
    /\ last_interaction d = last_interaction d0.
Proof.
  unfold normalize_scores. intros Hin.
  apply in_map_iff in Hin as ([c' d'] & Heq & Hin).
  cbn [fst snd] in Heq. injection Heq as <- <-.
  destruct entries as [|first_entry others]; [destruct Hin|].
  destruct (Qltb 0 _).
  - apply in_map_iff in Hin as ([c0 d0] & Heq & Hin).
    cbn [fst snd] in Heq. injection Heq as <- <-.
    exists d0. split; [exact Hin|]. repeat split; reflexivity.
  - destruct others as [|second others].
    + destruct Hin as [Heq|[]]. injection Heq as <- <-.
      exists (snd first_entry). split; [left; now destruct first_entry|].
      repeat split; reflexivity.
    + exists d'. split; [exact Hin|]. repeat split; reflexivity.
Qed.

Lemma normalize_scores_names (entries : list (string * sender_score)) :
  List.map fst (normalize_scores entries) = List.map fst entries.
Proof.
  pose proof (normalize_scores_keeps entries) as H.
  apply (f_equal (List.map fst)) in H.
  rewrite !List.map_map in H. exact H.
Qed.

Lemma omap_names_NoDup {A} (f : string -> option A) (l : list string) :
  NoDup l ->
  NoDup (List.map fst
           (omap (fun x => match f x with
                           | Some d => Some (x, d)
                           | None => None
                           end) l)).
Proof.
  induction l as [|x l IH]; intros Hnd; [constructor|].
  apply NoDup_cons in Hnd as [Hx Hnd]. cbn [omap list_omap].
  destruct (f x) as [d|]; [|now apply IH].
  cbn [List.map fst]. apply NoDup_cons. split; [|now apply IH].
  intros Hin. apply Hx.
  apply list_elem_of_In, in_map_iff in Hin as ([y d'] & Hy & Hin).
  cbn [fst] in Hy. subst y.
  apply list_elem_of_In, list_elem_of_omap in Hin as (z & Hz & Hf).
  destruct (f z); [|discriminate]. injection Hf as -> _. exact Hz.
Qed.

Lemma contact_record_counts config cm rd si stats contact d :
  contact_record config cm rd si stats contact = Some d ->
  (total_interactions d
   = reply_count d + initiation_count d + read_kept_count d)%Z
  /\ (0 < total_interactions d)%Z.
Proof.
  unfold contact_record.
  destruct (reply_component _ _) as [[component replies] dates].
  destruct (Z.ltb_spec 0 (replies
              + fold_left Z.add
                  (List.map in_count
                     (omap (fun identity => si !! identity)
                        (possible_identities cm contact))) 0
              + fold_left Z.add
                  (List.map rk_count
                     (omap (fun identity => stats !! identity)
                        (possible_identities cm contact))) 0)%Z)
    as [Hpos|_]; [|discriminate].
  intros Heq. injection Heq as <-. cbn. split; [reflexivity|exact Hpos].
Qed.

(** X8. The contacts of the new scores are pairwise distinct, each is the
    normalized form of a key of one of the three signals, and each had at
    least one interaction, the total being the sum of the three counts. *)
Theorem retained_contacts_interacted (config : gmap string Q)
    (self : analyzer) (response_data : gmap string (list response))
    (sender_initiations : gmap string initiation) :
  let scores :=
    _calculate_contact_importance config self response_data
      sender_initiations in
  NoDup (List.map fst scores)
  /\ forall c d, In (c, d) scores ->
       (total_interactions d
        = reply_count d + initiation_count d + read_kept_count d)%Z
       /\ (0 < total_interactions d)%Z
       /\ exists known,
            (is_Some (response_data !! known)
             \/ is_Some (sender_initiations !! known)
             \/ is_Some (an_sender_read_kept_stats self !! known))
            /\ c = _normalize_contact (an_contact_map self) known.
Proof.
  cbn zeta. unfold _calculate_contact_importance.
  rewrite normalize_scores_names. split.
  - unfold raw_sender_scores. apply omap_names_NoDup.
    unfold normalized_contacts. apply NoDup_remove_dups.
  - intros c d Hin.
    apply normalize_scores_fields in Hin
      as (d0 & Hin & Hr & Hi & Hk & Ht & _).
    unfold raw_sender_scores in Hin.
    apply list_elem_of_In, list_elem_of_omap in Hin as (contact & Hc & Hrec).
    destruct (contact_record _ _ _ _ _ contact) as [d1|] eqn:E; [|discriminate].
    injection Hrec as -> ->.
    apply contact_record_counts in E as [Hsum Hpos].
    rewrite Hr, Hi, Hk, Ht. split; [exact Hsum|]. split; [exact Hpos|].
    unfold normalized_contacts in Hc.
    apply elem_of_remove_dups, list_elem_of_In, in_map_iff in Hc
      as (known & <- & Hknown).
    exists known. split; [|reflexivity].
    apply list_elem_of_In, elem_of_elements in Hknown.
    rewrite !elem_of_union, !elem_of_dom in Hknown. tauto.
Qed.

Lemma retained_contacts_interacted_witness :
  NoDup (List.map fst two_contacts) /\ length two_contacts = 2%nat.
Proof.
  destruct (retained_contacts_interacted ∅ no_analysis ∅ two_initiations)
    as [Hnd _].
  rewrite two_contacts_scored in Hnd. split; [exact Hnd|reflexivity].
Defined.

(** ** Bounds of the reply component *)

Lemma min2_unit (x : Q) : 0 <= x -> 0 <= min2 1 x <= 1.
Proof.
  intros H. unfold min2. destruct (Qltb x 1) eqn:E.
  - apply Qltb_true in E. lra.
  - lra.
Qed.

Lemma max2_nonneg (x : Q) : 0 <= max2 0 x.
Proof.
  unfold max2. destruct (Qltb 0 x) eqn:E; [apply Qltb_true in E|]; lra.
Qed.

Lemma date_range_days_positive (dates : list Z) :
  (1 <= date_range_days dates)%Z.
Proof. rewrite date_range_days_spec. lia. Qed.

Lemma reply_score_bounded (config : gmap string Q)
    (valid : list response) :
  let time_weight := cfg_get config "reply_time_weight" (4 # 10) in
  let rate_weight := cfg_get config "reply_rate_weight" (4 # 10) in
  let length_weight := cfg_get config "reply_length_weight" (2 # 10) in
  0 <= time_weight -> 0 <= rate_weight -> 0 <= length_weight ->
  0 <= reply_score config valid <= time_weight + rate_weight + length_weight.
Proof.
  intros tw rw lw Ht Hr Hl. unfold reply_score. fold tw rw lw.
  set (avg := mean (List.map response_time valid)).
  set (len := mean (List.map _ valid)).
  set (days := date_range_days _).
  assert (Htime : 0 <= 1 / (1 + max2 0 avg / 24) <= 1).
  { pose proof (max2_nonneg avg) as Hm.
    assert (Hden : 1 <= 1 + max2 0 avg / 24).
    { assert (0 <= max2 0 avg / 24)
        by (apply Qle_shift_div_l; lra). lra. }
    split.
    - apply Qle_shift_div_l; lra.
    - apply Qle_shift_div_r; lra. }
  assert (Hrate : 0 <= min2 1 (lengthQ valid / inject_Z days * 10) <= 1).
  { apply min2_unit.
    assert (Hd : 0 < inject_Z days).
    { change 0 with (inject_Z 0). rewrite <- Zlt_Qlt.
      pose proof (date_range_days_positive (List.map sent_date valid)).
      subst days. lia. }
    assert (Hn : 0 <= lengthQ valid).
    { unfold lengthQ. change 0 with (inject_Z 0). rewrite <- Zle_Qle. lia. }
    assert (0 <= lengthQ valid / inject_Z days)
      by (apply Qle_shift_div_l; lra).
    lra. }
  assert (Hlen : 0 <= min2 1 (max2 0 len / 500) <= 1).
  { apply min2_unit. pose proof (max2_nonneg len).
    apply Qle_shift_div_l; lra. }
  split.
  - assert (0 <= tw * (1 / (1 + max2 0 avg / 24)))
      by (apply Qmult_le_0_compat; lra).
    assert (0 <= rw * min2 1 (lengthQ valid / inject_Z days * 10))
      by (apply Qmult_le_0_compat; lra).
    assert (0 <= lw * min2 1 (max2 0 len / 500))
      by (apply Qmult_le_0_compat; lra).
    lra.
  - assert (tw * (1 / (1 + max2 0 avg / 24)) <= tw * 1)
      by nra.
    assert (rw * min2 1 (lengthQ valid / inject_Z days * 10) <= rw * 1)
      by nra.
    assert (lw * min2 1 (max2 0 len / 500) <= lw * 1)
      by nra.
    lra.
Qed.


Lemma valid_responses_length (all_responses : list response) :
  (length (valid_responses_of all_responses) <= length all_responses)%nat.
Proof. unfold valid_responses_of. apply List.filter_length_le. Qed.

(** X9. With reply weights that are not negative, the reply component lies
    between 0 and the sum of the three weights for every list of replies;
    the reply count is neither negative nor larger than the number of
    recorded replies, and one date is collected for each counted reply. *)
Theorem reply_component_bounded (config : gmap string Q)
    (all_responses : list response) :
  let time_weight := cfg_get config "reply_time_weight" (4 # 10) in
  let rate_weight := cfg_get config "reply_rate_weight" (4 # 10) in
  let length_weight := cfg_get config "reply_length_weight" (2 # 10) in
  0 <= time_weight -> 0 <= rate_weight -> 0 <= length_weight ->
  let '(component, replies, dates) := reply_component config all_responses in
  0 <= component <= time_weight + rate_weight + length_weight
  /\ (0 <= replies <= Z.of_nat (length all_responses))%Z
  /\ Z.of_nat (length dates) = replies.
Proof.
  intros tw rw lw Ht Hr Hl. unfold reply_component.
  assert (Hzero : 0 <= 0 <= tw + rw + lw
                  /\ (0 <= 0 <= Z.of_nat (length all_responses))%Z
                  /\ Z.of_nat (@length Z []) = 0%Z).
  { split; [lra|]. split; [lia|reflexivity]. }
  destruct (Qle_bool _ _); [|exact Hzero].
  pose proof (valid_responses_length all_responses) as Hlen.
  destruct (valid_responses_of all_responses) as [|r valid] eqn:E;
    [exact Hzero|].
  split; [apply reply_score_bounded; assumption|].
  split; [lia|]. now rewrite List.length_map.
Qed.

Lemma reply_component_bounded_witness :
  let '(component, replies, dates) := reply_component ∅ bob_replies in
  0 <= component <= (4 # 10) + (4 # 10) + (2 # 10)
  /\ (0 <= replies <= 2)%Z /\ Z.of_nat (length dates) = replies.
Proof.
  assert (Htime : 0 <= cfg_get ∅ "reply_time_weight" (4 # 10))
    by (vm_compute; discriminate).
  assert (Hrate : 0 <= cfg_get ∅ "reply_rate_weight" (4 # 10))
    by (vm_compute; discriminate).
  assert (Hlength : 0 <= cfg_get ∅ "reply_length_weight" (2 # 10))
    by (vm_compute; discriminate).
  exact (reply_component_bounded ∅ bob_replies Htime Hrate Hlength).
Defined.

Lemma ranked_contacts_scored :
  _calculate_contact_importance ∅ no_analysis ∅ Cases.ranked_initiations
  = Cases.ranked_contacts.
Proof. vm_compute. reflexivity. Qed.


Lemma normalization_keeps_order_witness :
  Forall (fun e =>
            (fst e = "ann@example.com" -> normalized_score (snd e) == 0)
            /\ (fst e = "bob@example.com" -> normalized_score (snd e) == 1))
    Cases.ranked_contacts.
Proof.
  destruct (normalization_keeps_order ∅ no_analysis ∅
              Cases.ranked_initiations) as [_ Hextremes].
  rewrite ranked_contacts_scored in Hextremes.
  apply List.Forall_forall. intros [c d] Hin.
  destruct (Hextremes c d Hin) as [Hmax Hmin]; [vm_compute; reflexivity|].
  cbn [fst snd]. vm_compute in Hin.
  destruct Hin as [Hin|[Hin|[]]]; injection Hin as <- <-.
  - split; [intros _|discriminate]. apply Hmin. vm_compute. reflexivity.
  - split; [discriminate|intros _]. apply Hmax. vm_compute. reflexivity.
Defined.


(** ** The date of the last interaction *)




End ModelProps.

(** * Properties of the recommended action *)

Module ActionProps.
Import Py Scorer QProps Samples Spec ScorerProps.
Local Open Scope Q_scope.
Local Open Scope string_scope.

Ltac simp_action :=
  cbn -[cfg_get Qgeb Qltb capitalize cfg_true llm_folder is_due_today Z.eqb].

Lemma priority_not_generic (name : string) :
  mem name ["High Priority"; "Medium Priority"; "Due Today"; "Important"]
  = true ->
  mem name ["General"; "Newsletter"; "Promotional"; "Transactional"] = false.
Proof.
  unfold mem. cbn [existsb]. rewrite !orb_true_iff, !String.eqb_eq.
  intros [->|[->|[->|[->|H]]]]; [reflexivity..|discriminate].
Qed.

(** Every path through [decide_action]: the due date and the importance
    first, then the conditions in the order the code tests them. *)
Ltac walk_action :=
  unfold decide_action;
  remember (mem _ ["promotional"; "newsletter"]) as low_priority_category
    eqn:Hcategory;
  remember (mem _ ["personal"; "professional"] && _) as named_by_llm
    eqn:Hnamed;
  destruct (action_items _) as [|first_item other_items] eqn:Hitems;
  destruct (is_due_today _ _) eqn:Hdue;
  destruct (importance _ =? 2)%Z eqn:Himportance;
  repeat (simp_action;
          match goal with
          | |- context [if Qgeb ?a ?b then _ else _] =>
              destruct (Qgeb a b) eqn:?
          | |- context [if Qltb ?a ?b then _ else _] =>
              destruct (Qltb a b) eqn:?
          | |- context [if ?c then _ else _] => is_var c; destruct c
          | |- context [match ?c with Some _ => _ | None => _ end] =>
              is_var c; destruct c
          | |- context [if ?c then _ else _] => destruct c eqn:?
          end);
  simp_action.

Ltac close_action :=
  try solve
    [ repeat split;
      first [ reflexivity | assumption | congruence
            | apply priority_not_generic, negb_false_iff; assumption ] ].

Lemma decide_action_data config llm now data :
  rec_score_data (decide_action config llm now data) = data.
Proof. walk_action; reflexivity. Qed.

Lemma decide_action_score config llm now data :
  rec_score (decide_action config llm now data) = final_score data.
Proof. walk_action; reflexivity. Qed.

Lemma recommend_action_decides sender_scores patterns config llm
    email_tracking now item r :
  recommend_action sender_scores patterns config llm email_tracking now item
    = Some r ->
  score_email sender_scores patterns config email_tracking now item
    = Some (rec_score_data r)
  /\ r = decide_action config llm now (rec_score_data r).
Proof.
  unfold recommend_action.
  destruct (score_email _ _ _ _ _ _) as [data|]; [|discriminate].
  intros H. injection H as <-.
  rewrite decide_action_data. split; reflexivity.
Qed.





Lemma decide_action_items config llm now data :
  action_items (analysis (score_metadata data)) <> [] ->
  let r := decide_action config llm now data in
  create_task r = true /\ auto_archive r = false
  /\ mem (folder r) ["General"; "Newsletter"; "Promotional"; "Transactional"]
     = false.
Proof.
  intros Hsome. cbn zeta. walk_action; try congruence; close_action.
Qed.

(** X12. A message with action items always gets a task and is never
    archived, and its folder is none of the generic folders General,
    Newsletter, Promotional and Transactional. *)
Theorem action_items_always_make_task
    (sender_scores : gmap string Analyzer.sender_score)
    (patterns : email_patterns) (config : gmap string Q)
    (llm : option llm_service)
    (email_tracking : option (gmap string Analyzer.tracking_record))
    (now : Z) (item : email_item) (r : recommendation) :
  recommend_action sender_scores patterns config llm email_tracking now item
    = Some r ->
  action_items (analysis (score_metadata (rec_score_data r))) <> [] ->
  create_task r = true /\ auto_archive r = false
  /\ ~ In (folder r) ["General"; "Newsletter"; "Promotional"; "Transactional"].
Proof.
  intros Hrec Hitems. apply recommend_action_decides in Hrec as [_ Hr].
  destruct (decide_action_items config llm now (rec_score_data r) Hitems)
    as (Htask & Harchive & Hfolder).
  rewrite <- Hr in Htask, Harchive, Hfolder.
  split; [exact Htask|]. split; [exact Harchive|].
  intros Hin. apply not_true_iff_false in Hfolder. apply Hfolder.
  unfold mem. apply existsb_exists. exists (folder r).
  split; [exact Hin|apply String.eqb_refl].
Qed.


Lemma action_items_always_make_task_witness :
  exists r,
    recommend_action promo_scores no_patterns ∅ None None hundred_days
      (promo_mail ["reply by Friday"]) = Some r
    /\ create_task r = true /\ auto_archive r = false
    /\ ~ In (folder r)
           ["General"; "Newsletter"; "Promotional"; "Transactional"].
Proof.
  assert (Hrec : recommend_action promo_scores no_patterns ∅ None None
                   hundred_days (promo_mail ["reply by Friday"])
                 = Some (decide_action ∅ None hundred_days
                           promo_action_data)).
  { unfold recommend_action. now rewrite promo_action_scored. }
  eexists. split; [exact Hrec|].
  apply (action_items_always_make_task _ _ _ _ _ _ _ _ Hrec).
  rewrite decide_action_data. vm_compute. discriminate.
Defined.





Lemma decide_flag_and_task config llm now data :
  let r := decide_action config llm now data in
  (flag r = true ->
   mem (folder r) ["Due Today"; "High Priority"; "Important";
                   "Medium Priority"] = true)
  /\ (create_task r = true ->
      is_due_today now (flag_due_by (score_metadata data)) = true
      \/ action_items (analysis (score_metadata data)) <> []
      \/ folder r = "High Priority"
         /\ cfg_get config "high_priority_threshold" (8 # 10)
            <= final_score data).
Proof.
  cbn zeta. walk_action.
  all: split; intros Hset; try discriminate Hset; try reflexivity.
  all: try (left; reflexivity).
  all: try (right; left; discriminate).
  all: try (right; right; split; [reflexivity|now apply Qgeb_true]).
Qed.

(** X14. A flagged message is always filed in one of the four priority
    folders, and a task is only created for a message that is due today,
    has action items, or is filed as high priority with a final score at
    or above the high priority threshold. *)
Theorem flag_and_task_are_justified
    (sender_scores : gmap string Analyzer.sender_score)
    (patterns : email_patterns) (config : gmap string Q)
    (llm : option llm_service)
    (email_tracking : option (gmap string Analyzer.tracking_record))
    (now : Z) (item : email_item) (r : recommendation) :
  recommend_action sender_scores patterns config llm email_tracking now item
    = Some r ->
  let data := rec_score_data r in
  (flag r = true ->
   In (folder r) ["Due Today"; "High Priority"; "Important";
                  "Medium Priority"])
  /\ (create_task r = true ->
      is_due_today now (flag_due_by (score_metadata data)) = true
      \/ action_items (analysis (score_metadata data)) <> []
      \/ folder r = "High Priority"
         /\ cfg_get config "high_priority_threshold" (8 # 10)
            <= final_score data).
Proof.
  intros Hrec. cbn zeta. apply recommend_action_decides in Hrec as [_ Hr].
  pose proof (decide_flag_and_task config llm now (rec_score_data r)) as H.
  cbn zeta in H. rewrite <- Hr in H. destruct H as [Hflag Htask].
  split; [|exact Htask].
  intros Hset. specialize (Hflag Hset). unfold mem in Hflag.
  apply existsb_exists in Hflag as (name & Hin & Heq).
  apply String.eqb_eq in Heq. now subst name.
Qed.

Lemma flag_and_task_are_justified_witness :
  exists r,
    recommend_action boss_scores no_patterns ∅ None None hundred_days
      important_mail = Some r
    /\ flag r = true
    /\ In (folder r) ["Due Today"; "High Priority"; "Important";
                      "Medium Priority"].
Proof.
  assert (Hrec : recommend_action boss_scores no_patterns ∅ None None
                   hundred_days important_mail
                 = Some (decide_action ∅ None hundred_days
                           important_mail_data)).
  { unfold recommend_action. now rewrite important_mail_scored. }
  eexists. split; [exact Hrec|].
  assert (Hflag : flag (decide_action ∅ None hundred_days important_mail_data)
                  = true) by (vm_compute; reflexivity).
  split; [exact Hflag|].
  now apply (flag_and_task_are_justified _ _ _ _ _ _ _ _ Hrec).
Defined.

End ActionProps.

(** * Properties of the score components *)

Module ComponentProps.
Import Py Scorer QProps Samples Spec ScorerProps.
Local Open Scope Q_scope.
Local Open Scope string_scope.

Lemma category_priority_range (category : string) :
  2 # 10 <= category_priority category <= 8 # 10.
Proof. unfold category_priority. repeat case_match; lra. Qed.

Lemma min2_le_l (x y : Q) : min2 x y <= x.
Proof. rewrite min2_spec. apply Q.le_min_l. Qed.

Lemma urgency_score_range (analysis : content_analysis) :
  3 # 10 <= urgency_score_of analysis <= 1.
Proof.
  unfold urgency_score_of.
  set (base := if String.eqb _ "high" then _ else _).
  assert (Hbase : 3 # 10 <= base <= 95 # 100)
    by (subst base; repeat case_match; lra).
  destruct (action_items analysis); [lra|].
  rewrite min2_spec. split.
  - apply Q.min_glb; lra.
  - apply Q.le_min_l.
Qed.

Lemma recency_score_le_1 config now received conversation_id :
  recency_score_of config now received conversation_id <= 1.
Proof.
  unfold recency_score_of.
  set (by_age := if (_ <=? 1)%Z then _ else _).
  assert (Hage : by_age <= 1).
  { subst by_age. repeat case_match; try lra.
    rewrite max2_spec. apply Q.max_lub; [lra|].
    match goal with H : (_ <=? 30)%Z = false |- _ =>
      apply Z.leb_gt in H; rename H into Hold end.
    assert (0 <= inject_Z (days (now - received)) / 365).
    { apply Qle_shift_div_l; [lra|].
      rewrite Qmult_0_l. change 0 with (inject_Z 0). rewrite <- Zle_Qle. lia. }
    lra. }
  set (in_thread := if Analyzer.truthy _ then _ else _).
  assert (Hthread : in_thread <= 1).
  { subst in_thread. case_match; [apply min2_le_l|exact Hage]. }
  case_match; [apply min2_le_l|exact Hthread].
Qed.

Lemma recency_score_ge config now received conversation_id :
  0 <= cfg_get config "off_hours_bonus" (5 # 100) ->
  1 # 10 <= recency_score_of config now received conversation_id.
Proof.
  intros Hbonus. unfold recency_score_of.
  set (by_age := if (_ <=? 1)%Z then _ else _).
  assert (Hage : 1 # 10 <= by_age).
  { subst by_age. repeat case_match; try lra.
    rewrite max2_spec. apply Q.le_max_l. }
  set (in_thread := if Analyzer.truthy _ then _ else _).
  assert (Hthread : 1 # 10 <= in_thread).
  { subst in_thread. case_match; [|exact Hage].
    rewrite min2_spec. apply Q.min_glb; lra. }
  case_match; [|exact Hthread].
  rewrite min2_spec. apply Q.min_glb; lra.
Qed.

Lemma reopen_bonus_range patterns sender :
  0 <= reopen_bonus_of patterns sender <= 2 # 10.
Proof. unfold reopen_bonus_of. repeat case_match; lra. Qed.

Lemma base_sender_score_nonneg
    (sender_scores : gmap string Analyzer.sender_score) (sender : string) :
  (forall s d, sender_scores !! s = Some d ->
               0 <= Analyzer.normalized_score d) ->
  0 <= base_sender_score sender_scores sender.
Proof.
  intros Hall. unfold base_sender_score.
  destruct (sender_scores !! sender) as [d|] eqn:E; [now apply (Hall sender)|].
  destruct (has_at sender); [|lra].
  set (domain_scores := List.map _ _).
  assert (Hdom : forall x, In x domain_scores -> 0 <= x).
  { intros x Hin. subst domain_scores.
    apply in_map_iff in Hin as ([s d] & <- & Hin).
    apply filter_In in Hin as [Hin _].
    apply list_elem_of_In, elem_of_map_to_list in Hin.
    now apply (Hall s). }
  destruct domain_scores; [lra|].
  now apply ImportanceProps.mean_nonneg.
Qed.

Lemma score_body_components sender_scores patterns config email_tracking now
    item data :
  score_body sender_scores patterns config email_tracking now item
    = Ret data ->
  exists sender received conversation_id analysis,
    let c := score_components data in
    sender_score c
    = min2 1 (base_sender_score sender_scores sender
              + reopen_bonus_of patterns sender)
    /\ reopen_bonus c = reopen_bonus_of patterns sender
    /\ topic_score c
       = category_priority (default "general" (category analysis))
    /\ urgency_score c = urgency_score_of analysis
    /\ recency_score c
       = recency_score_of config now received conversation_id
    /\ temporal_score c
       = (4 # 10) * recency_score c + (6 # 10) * urgency_score c.
Proof.
  unfold score_body. intros H.
  repeat match type of H with
         | bind ?m _ = _ => destruct m eqn:?; cbn [bind] in H; [discriminate|]
         | (let '(_, _) := ?p in _) = _ => destruct p
         end.
  injection H as <-. do 4 eexists. cbn. repeat split; reflexivity.
Qed.

(** X15. The topic, urgency, recency, temporal and sender components and
    the re-open bonus of every scored message stay in fixed ranges
    whatever the configuration; the sender component is not negative when
    no stored score is, and the recency and temporal components have
    positive lower bounds when the off-hours bonus is not negative. *)
Theorem score_components_in_range
    (sender_scores : gmap string Analyzer.sender_score)
    (patterns : email_patterns) (config : gmap string Q)
    (email_tracking : option (gmap string Analyzer.tracking_record))
    (now : Z) (item : email_item) (data : score_data) :
  score_email sender_scores patterns config email_tracking now item
    = Some data ->
  let c := score_components data in
  2 # 10 <= topic_score c <= 8 # 10
  /\ 3 # 10 <= urgency_score c <= 1
  /\ recency_score c <= 1
  /\ temporal_score c <= 1
  /\ 0 <= reopen_bonus c <= 2 # 10
  /\ sender_score c <= 1
  /\ ((forall s d, sender_scores !! s = Some d ->
                   0 <= Analyzer.normalized_score d) ->
      0 <= sender_score c)
  /\ (0 <= cfg_get config "off_hours_bonus" (5 # 100) ->
      1 # 10 <= recency_score c /\ 22 # 100 <= temporal_score c).
Proof.
  unfold score_email.
  destruct (score_body _ _ _ _ _ _) as [|data'] eqn:E; [discriminate|].
  intros H. injection H as ->.
  apply score_body_components in E
    as (sender & received & conversation_id & analysis & E).
  cbn zeta in *.
  destruct E as (Hsender & Hreopen & Htopic & Hurgency & Hrecency & Htemporal).
  pose proof (category_priority_range
                (default "general" (category analysis))) as Ht.
  pose proof (urgency_score_range analysis) as Hu.
  pose proof (recency_score_le_1 config now received conversation_id) as Hr.
  pose proof (reopen_bonus_range patterns sender) as Hb.
  rewrite <- Htopic in Ht. rewrite <- Hurgency in Hu.
  rewrite <- Hrecency in Hr. rewrite <- Hreopen in Hb.
  split; [exact Ht|]. split; [exact Hu|]. split; [exact Hr|].
  split; [rewrite Htemporal; lra|].
  split; [exact Hb|]. split; [rewrite Hsender; apply min2_le_l|].
  split.
  - intros Hall. rewrite Hsender, min2_spec.
    pose proof (base_sender_score_nonneg sender_scores sender Hall).
    pose proof (reopen_bonus_range patterns sender).
    apply Q.min_glb; lra.
  - intros Hbonus.
    pose proof (recency_score_ge config now received conversation_id Hbonus)
      as Hlow.
    rewrite <- Hrecency in Hlow. split; [exact Hlow|]. rewrite Htemporal. lra.
Qed.

Lemma score_components_in_range_witness :
  let c := score_components extreme_data in
  2 # 10 <= topic_score c <= 8 # 10 /\ 3 # 10 <= urgency_score c <= 1
  /\ recency_score c <= 1 /\ temporal_score c <= 1 /\ sender_score c <= 1.
Proof.
  destruct (score_components_in_range ∅ no_patterns extreme_config None
              hundred_days extreme_mail extreme_data extreme_scored)
    as (Ht & Hu & Hr & Htemp & _ & Hs & _).
  repeat split; first [apply Ht | apply Hu | exact Hr | exact Htemp | exact Hs].
Defined.

(** ** The penalty for ignored messages *)

Lemma ignore_penalty_value config tracking id r count :
  tracking !! id = Some r -> id <> "" ->
  dict_get (Analyzer.tr_is_currently_read r) true = Some false ->
  dict_get (Analyzer.tr_check_count r) 0%Z = Some count ->
  ignore_penalty_of config (Some tracking) (Some id)
  = Ret (if (1 <? count)%Z
         then min2 (4 # 10)
                (cfg_get config "ignore_penalty" (15 # 100)
                 * inject_Z (count - 1))
         else 0).
Proof.
  intros Hr Hid Hread Hcount. unfold ignore_penalty_of.
  assert (Hne : bool_decide (tracking = ∅) = false).
  { apply bool_decide_eq_false. intros ->. now rewrite lookup_empty in Hr. }
  apply PyProps.nonempty_true in Hid. rewrite Hne, Hid.
  cbn [negb andb]. rewrite Hr, Hread, Hcount. cbn [negb need bind].
  now destruct (1 <? count)%Z.
Qed.

(** X16. The penalty of a tracked message that was unread at the last scan
    is zero up to the first sighting, does not decrease when the number of
    sightings grows, and never exceeds 0.4, for a rate that is not
    negative. *)
Theorem ignore_penalty_grows_to_cap (config : gmap string Q)
    (tracking : gmap string Analyzer.tracking_record)
    (id1 id2 : string) (r1 r2 : Analyzer.tracking_record)
    (count1 count2 : Z) :
  tracking !! id1 = Some r1 -> tracking !! id2 = Some r2 ->
  id1 <> "" -> id2 <> "" ->
  dict_get (Analyzer.tr_is_currently_read r1) true = Some false ->
  dict_get (Analyzer.tr_is_currently_read r2) true = Some false ->
  dict_get (Analyzer.tr_check_count r1) 0%Z = Some count1 ->
  dict_get (Analyzer.tr_check_count r2) 0%Z = Some count2 ->
  0 <= cfg_get config "ignore_penalty" (15 # 100) ->
  (count1 <= count2)%Z ->
  exists penalty1 penalty2,
    ignore_penalty_of config (Some tracking) (Some id1) = Ret penalty1
    /\ ignore_penalty_of config (Some tracking) (Some id2) = Ret penalty2
    /\ 0 <= penalty1 /\ penalty1 <= penalty2 /\ penalty2 <= 4 # 10
    /\ ((count1 <= 1)%Z -> penalty1 == 0).
Proof.
  intros H1 H2 Hid1 Hid2 Hread1 Hread2 Hc1 Hc2 Hrate Hle.
  rewrite (ignore_penalty_value config tracking id1 r1 count1) by assumption.
  rewrite (ignore_penalty_value config tracking id2 r2 count2) by assumption.
  do 2 eexists. split; [reflexivity|]. split; [reflexivity|].
  set (rate := cfg_get config "ignore_penalty" (15 # 100)) in *.
  assert (Hmono : forall a b : Z, (1 <= a <= b)%Z ->
            0 <= rate * inject_Z (a - 1) <= rate * inject_Z (b - 1)).
  { intros a b Hab.
    assert (0 <= inject_Z (a - 1))
      by (change 0 with (inject_Z 0); rewrite <- Zle_Qle; lia).
    assert (inject_Z (a - 1) <= inject_Z (b - 1))
      by (rewrite <- Zle_Qle; lia).
    nra. }
  destruct (Z.ltb_spec 1 count1) as [Hlt1|Hge1];
    destruct (Z.ltb_spec 1 count2) as [Hlt2|Hge2]; try lia.
  - destruct (Hmono count1 count2) as [Hlo Hhi]; [lia|].
    rewrite !min2_spec. repeat split.
    + apply Q.min_glb; lra.
    + apply Q.min_le_compat_l. exact Hhi.
    + apply Q.le_min_l.
    + lia.
  - destruct (Hmono 1%Z count2) as [_ Hhi]; [lia|].
    change (inject_Z (1 - 1)) with 0 in Hhi. rewrite Qmult_0_r in Hhi.
    rewrite min2_spec. repeat split; try lra.
    + apply Q.min_glb; lra.
    + apply Q.le_min_l.
  - repeat split; lra.
Qed.


Lemma ignore_penalty_grows_to_cap_witness :
  exists penalty1 penalty2,
    ignore_penalty_of ∅ (Some Cases.ignored_store) (Some "m1") = Ret penalty1
    /\ ignore_penalty_of ∅ (Some Cases.ignored_store) (Some "m2")
       = Ret penalty2
    /\ 0 <= penalty1 /\ penalty1 <= penalty2 /\ penalty2 <= 4 # 10
    /\ ((1 <= 1)%Z -> penalty1 == 0).
Proof.
  apply (ignore_penalty_grows_to_cap ∅ Cases.ignored_store "m1" "m2"
           (Cases.ignored 1) (Cases.ignored 3) 1 3).
  - vm_compute. reflexivity.
  - vm_compute. reflexivity.
  - discriminate.
  - discriminate.
  - reflexivity.
  - reflexivity.
  - reflexivity.
  - reflexivity.
  - vm_compute. discriminate.
  - lia.
Defined.

End ComponentProps.

(** * Properties of a run of the organizer *)

Module RunProps.
Import Py Organizer Samples Invariants OrganizerProps.
Local Open Scope string_scope.
Local Open Scope Z_scope.

Ltac stats_fields :=
  cbn [processed moved flagged task_created high_priority medium_priority
       action_required category_folders archived errors skipped_subfolder
       add_error add_skipped add_processed add_moved add_flagged add_task
       counters with_counters mark_processed collection folder_cache
       processed_ids] in *.

Lemma add_processed_fields (folder_name : string) (s : stats) :
  let s' := add_processed folder_name s in
  processed s' = processed s + 1
  /\ moved s' = moved s /\ flagged s' = flagged s
  /\ task_created s' = task_created s /\ errors s' = errors s
  /\ skipped_subfolder s' = skipped_subfolder s
  /\ high_priority s' + medium_priority s' + action_required s'
     + category_folders s' + archived s'
     = high_priority s + medium_priority s + action_required s
       + category_folders s + archived s + 1
  /\ high_priority s <= high_priority s'
  /\ medium_priority s <= medium_priority s'
  /\ action_required s <= action_required s'
  /\ category_folders s <= category_folders s'
  /\ archived s <= archived s'.
Proof.
  cbn zeta. unfold add_processed.
  destruct (startswith folder_name "High Priority"),
    (startswith folder_name "Medium Priority"),
    (startswith folder_name "Action Required"),
    (startswith folder_name "Archive/"); cbn; lia.
Qed.

Ltac item_cases :=
  unfold organize_item, perform_actions;
  repeat case_match;
  repeat match goal with
         | |- context [add_processed ?name ?s] =>
             pose proof (add_processed_fields name s);
             generalize dependent (add_processed name s); intros
         end;
  stats_fields.

Lemma organize_item_balanced env i it st :
  balanced (counters st) -> balanced (counters (organize_item env i it st)).
Proof. unfold balanced. intros H. item_cases; lia. Qed.

Lemma organize_item_within env i it st rounds :
  within rounds (counters st) ->
  within (rounds + 1) (counters (organize_item env i it st)).
Proof. unfold within. intros H. item_cases; lia. Qed.

Lemma organize_loop_balanced env remaining i st :
  balanced (counters st) ->
  balanced (counters (organize_loop env remaining i st)).
Proof.
  revert i st. induction remaining as [|n IH]; intros i st H; [exact H|].
  cbn [organize_loop]. destruct (collection st !! i) as [it|]; [|exact H].
  apply IH. now apply organize_item_balanced.
Qed.

Lemma organize_loop_within env remaining i st rounds :
  within rounds (counters st) ->
  within (rounds + Z.of_nat remaining)
    (counters (organize_loop env remaining i st)).
Proof.
  revert i st rounds.
  induction remaining as [|n IH]; intros i st rounds H.
  - cbn [organize_loop]. unfold within in *. lia.
  - cbn [organize_loop]. destruct (collection st !! i) as [it|].
    + replace (rounds + Z.of_nat (S n)) with (rounds + 1 + Z.of_nat n) by lia.
      apply IH. now apply organize_item_within.
    + unfold within in *. lia.
Qed.

(** X17. The statistics of every run add up: each processed message is
    counted under exactly one kind of folder, no counter is negative, a
    message is flagged or gets a task only when it was moved, and only
    processed messages are moved. *)
Theorem run_statistics_add_up (env : environment) (limit : option Z)
    (inbox_items : list item) :
  balanced (counters (organize_inbox env limit inbox_items)).
Proof.
  unfold organize_inbox. apply organize_loop_balanced.
  unfold balanced. cbn. lia.
Qed.

(** X18. A run never handles more messages than the limit and than the
    inbox holds: processed and skipped messages together stay within that
    number and the errors within twice that number; a limit of zero or
    less handles nothing. *)
Theorem limit_bounds_the_run (env : environment) (limit : Z)
    (inbox_items : list item) :
  let result := organize_inbox env (Some limit) inbox_items in
  within (Z.max 0 (Z.min (Z.of_nat (length inbox_items)) limit))
    (counters result)
  /\ (limit <= 0 ->
      counters result = no_stats /\ collection result = inbox_items).
Proof.
  cbn zeta. unfold organize_inbox. split.
  - set (rounds := Z.min _ _).
    replace (Z.max 0 rounds) with (0 + Z.of_nat (Z.to_nat rounds)) by lia.
    apply organize_loop_within. unfold within. cbn. lia.
  - intros Hle.
    replace (Z.to_nat (Z.min (Z.of_nat (length inbox_items)) limit))
      with O by lia.
    split; reflexivity.
Qed.

(** ** Runs that move nothing *)

Lemma organize_item_dry env i it st :
  dry_run env = true ->
  let st' := organize_item env i it st in
  collection st' = collection st /\ folder_cache st' = folder_cache st
  /\ moved (counters st') = moved (counters st)
  /\ flagged (counters st') = flagged (counters st)
  /\ task_created (counters st') = task_created (counters st).
Proof.
  intros Hdry. cbn zeta. unfold organize_item. rewrite Hdry.
  repeat case_match;
    repeat match goal with
           | |- context [add_processed ?name ?s] =>
               pose proof (add_processed_fields name s);
               generalize dependent (add_processed name s); intros
           end;
    stats_fields; repeat split; first [reflexivity | lia].
Qed.

Lemma organize_loop_dry env remaining i st :
  dry_run env = true ->
  let st' := organize_loop env remaining i st in
  collection st' = collection st /\ folder_cache st' = folder_cache st
  /\ moved (counters st') = moved (counters st)
  /\ flagged (counters st') = flagged (counters st)
  /\ task_created (counters st') = task_created (counters st).
Proof.
  intros Hdry. cbn zeta. revert i st.
  induction remaining as [|n IH]; intros i st; [repeat split|].
  cbn [organize_loop]. destruct (collection st !! i) as [it|];
    [|repeat split].
  destruct (organize_item_dry env i it st Hdry) as (H1 & H2 & H3 & H4 & H5).
  destruct (IH (S i) (organize_item env i it st)) as (K1 & K2 & K3 & K4 & K5).
  rewrite K1, K2, K3, K4, K5. repeat split; assumption.
Qed.

(** X19. A dry run leaves the inbox as it is: nothing is moved, flagged or
    turned into a task and no folder is looked up or created, while
    without a limit every message is still visited in order. *)
Theorem dry_run_changes_nothing (env : environment) (limit : option Z)
    (inbox_items : list item) :
  dry_run env = true ->
  let result := organize_inbox env limit inbox_items in
  collection result = inbox_items /\ folder_cache result = ∅
  /\ moved (counters result) = 0 /\ flagged (counters result) = 0
  /\ task_created (counters result) = 0
  /\ (limit = None ->
      result
      = fold_left (fun st it => organize_item env 0 it st) inbox_items
          {| collection := inbox_items; counters := no_stats;
             folder_cache := ∅; processed_ids := ∅ |}).
Proof.
  intros Hdry. cbn zeta. unfold organize_inbox.
  destruct (organize_loop_dry env
              (Z.to_nat match limit with
                        | Some l => Z.min (Z.of_nat (length inbox_items)) l
                        | None => Z.of_nat (length inbox_items)
                        end) 0
              {| collection := inbox_items; counters := no_stats;
                 folder_cache := ∅; processed_ids := ∅ |} Hdry)
    as (H1 & H2 & H3 & H4 & H5).
  repeat split; try assumption.
  intros ->. rewrite Nat2Z.id.
  now apply dry_run_visits_all.
Qed.

Lemma dry_run_changes_nothing_witness :
  let result := organize_inbox sample_env None sample_inbox in
  collection result = sample_inbox /\ moved (counters result) = 0.
Proof.
  destruct (dry_run_changes_nothing sample_env None sample_inbox eq_refl)
    as (H1 & _ & H3 & _).
  split; assumption.
Defined.

Lemma target_folder_unavailable env folder_name :
  (forall name, folders env name = false) ->
  target_folder env ∅ folder_name = false.
Proof.
  intros Hnone. unfold target_folder.
  rewrite bool_decide_eq_false_2 by set_solver.
  rewrite !Hnone. now destruct (has_char _ _).
Qed.

Lemma organize_item_no_folder env i it st :
  dry_run env = false ->
  (forall name, folders env name = false) ->
  folder_cache st = ∅ ->
  processed (counters st) <= errors (counters st) ->
  let st' := organize_item env i it st in
  collection st' = collection st /\ folder_cache st' = ∅
  /\ moved (counters st') = moved (counters st)
  /\ processed (counters st') <= errors (counters st').
Proof.
  intros Hlive Hnone Hcache Hle. cbn zeta.
  unfold organize_item, perform_actions. rewrite Hlive.
  repeat case_match;
    repeat match goal with
           | |- context [add_processed ?name ?s] =>
               pose proof (add_processed_fields name s);
               generalize dependent (add_processed name s); intros
           end;
    stats_fields;
    try match goal with
        | H : target_folder _ _ _ = true |- _ =>
            rewrite Hcache, target_folder_unavailable in H by assumption;
            discriminate H
        end;
    repeat split; first [reflexivity | assumption | lia].
Qed.

Lemma organize_loop_no_folder env remaining i st :
  dry_run env = false ->
  (forall name, folders env name = false) ->
  folder_cache st = ∅ ->
  processed (counters st) <= errors (counters st) ->
  let st' := organize_loop env remaining i st in
  collection st' = collection st
  /\ moved (counters st') = moved (counters st)
  /\ processed (counters st') <= errors (counters st').
Proof.
  intros Hlive Hnone. cbn zeta. revert i st.
  induction remaining as [|n IH]; intros i st Hcache Hle;
    [split; [reflexivity|split; [reflexivity|exact Hle]]|].
  cbn [organize_loop]. destruct (collection st !! i) as [it|];
    [|split; [reflexivity|split; [reflexivity|exact Hle]]].
  destruct (organize_item_no_folder env i it st Hlive Hnone Hcache Hle)
    as (H1 & H2 & H3 & H4).
  destruct (IH (S i) (organize_item env i it st) H2 H4) as (K1 & K2 & K3).
  rewrite K1, K2. repeat split; assumption.
Qed.

(** X20. When no target folder can be found or created, a live run moves
    nothing: the inbox keeps all its messages and every message that got a
    recommendation is counted as an error as well. *)
Theorem missing_folders_stop_moves (env : environment) (limit : option Z)
    (inbox_items : list item) :
  dry_run env = false ->
  (forall name, folders env name = false) ->
  let result := organize_inbox env limit inbox_items in
  collection result = inbox_items
  /\ moved (counters result) = 0
  /\ processed (counters result) <= errors (counters result).
Proof.
  intros Hlive Hnone. cbn zeta. unfold organize_inbox.
  apply (organize_loop_no_folder env _ 0%nat
           {| collection := inbox_items; counters := no_stats;
              folder_cache := ∅; processed_ids := ∅ |} Hlive Hnone);
    [reflexivity|cbn; lia].
Qed.

Lemma missing_folders_stop_moves_witness :
  let result := organize_inbox Cases.blocked_env None sample_inbox in
  collection result = sample_inbox
  /\ moved (counters result) = 0
  /\ processed (counters result) <= errors (counters result).
Proof.
  apply (missing_folders_stop_moves Cases.blocked_env None sample_inbox);
    reflexivity.
Defined.

End RunProps.

(** * Properties of the scan of the sent items *)

Module SentProps.
Import Py Sent PyProps Spec Invariants.
Local Open Scope string_scope.

(** ** What one round keeps *)

Lemma sent_round_cases cm history st fetched :
  sent_round cm history st fetched = st
  \/ exists item st',
       fetched = Ret item
       /\ sent_item_body cm history item st = Ret st'
       /\ sent_round cm history st fetched = st'.
Proof.
  unfold sent_round. destruct fetched as [|item]; cbn [bind]; [now left|].
  destruct (sent_item_body cm history item st) as [|st'] eqn:E; [now left|].
  right. now exists item, st'.
Qed.

Lemma read_recipients_normalized cm rs all_recipients recipients_to :
  Forall (fun c => exists raw, c = normalize_optional cm raw) recipients_to ->
  Forall (fun c => exists raw, c = normalize_optional cm raw)
    (snd (read_recipients cm rs all_recipients recipients_to)).
Proof.
  revert all_recipients recipients_to.
  induction rs as [|r rs IH]; intros all_recipients recipients_to Hto;
    [exact Hto|].
  cbn [read_recipients].
  destruct (read_recipient cm r) as [|[normalized is_to]] eqn:E; [exact Hto|].
  apply IH. destruct is_to; [|exact Hto].
  apply Forall_app. split; [exact Hto|]. apply Forall_singleton.
  unfold read_recipient in E.
  destruct (RecipientType r), (Address r), (Name r);
    cbn [bind getattr] in E; try discriminate E;
    match type of E with
    | Ret (normalize_optional cm ?raw, _) = _ => exists raw; congruence
    end.
Qed.

Lemma item_recipients_normalized cm (recipients : attr (list recipient))
    lists :
  match recipients with
  | ComError => Ret ([], [])
  | Missing => Raise
  | Has rs => Ret (read_recipients cm rs [] [])
  end = Ret lists ->
  Forall (fun c => exists raw, c = normalize_optional cm raw) (snd lists).
Proof.
  destruct recipients as [| |rs]; intros H; [|discriminate|];
    injection H as <-; [apply Forall_nil; exact I|].
  apply read_recipients_normalized, Forall_nil. exact I.
Qed.

Lemma body_initiations cm history item st st' :
  sent_item_body cm history item st = Ret st' ->
  sender_initiations st' = sender_initiations st
  \/ exists sent recipients_to,
       Forall (fun c => exists raw, c = normalize_optional cm raw)
         recipients_to
       /\ sender_initiations st'
          = fold_left (add_initiation sent) recipients_to
              (sender_initiations st).
Proof.
  unfold sent_item_body. intros H.
  destruct (Class item) as [| |class]; [discriminate|injection H as <-; now left|].
  destruct (negb _); [injection H as <-; now left|].
  destruct (match Recipients item with
            | ComError => Ret ([], [])
            | Missing => Raise
            | Has rs => Ret (read_recipients cm rs [] [])
            end) as [|[all_recipients recipients_to]] eqn:Hlists;
    [discriminate|].
  apply item_recipients_normalized in Hlists. cbn [snd bind] in *.
  unfold bind, getattr in H.
  repeat case_match; try discriminate H; injection H as <-;
    cbn [sender_initiations]; first [now left | right; eauto].
Qed.

Lemma body_responses cm history item st st' :
  sent_item_body cm history item st = Ret st' ->
  response_data st' = response_data st
  \/ exists id sent body_len,
       response_data st'
       = add_response cm history id sent body_len (response_data st).
Proof.
  unfold sent_item_body, bind, getattr. intros H.
  repeat case_match; try discriminate H; injection H as <-;
    cbn [response_data]; first [now left | right; eauto].
Qed.

(** An invariant of the initiations that each addition keeps holds after
    the whole scan. *)
Lemma scan_initiations_invariant
    (P : gmap string Analyzer.initiation -> Prop) cm history items st :
  (forall sent m raw,
     P m -> P (add_initiation sent m (normalize_optional cm raw))) ->
  P (sender_initiations st) ->
  P (sender_initiations (fold_left (sent_round cm history) items st)).
Proof.
  intros Hstep. revert st.
  induction items as [|fetched items IH]; intros st HP; [exact HP|].
  cbn [fold_left]. apply IH.
  destruct (sent_round_cases cm history st fetched)
    as [->|(item & st' & _ & Hbody & ->)]; [exact HP|].
  apply body_initiations in Hbody as [->|(sent & to & Hto & ->)];
    [exact HP|].
  clear IH. revert HP. generalize (sender_initiations st).
  induction to as [|recipient to IH]; intros m HP; [exact HP|].
  apply Forall_cons in Hto as [[raw ->] Hto].
  cbn [fold_left]. apply IH; [exact Hto|]. apply Hstep, HP.
Qed.

Lemma scan_responses_invariant
    (P : gmap string (list Analyzer.response) -> Prop) cm history items st :
  (forall id sent body_len m,
     P m -> P (add_response cm history id sent body_len m)) ->
  P (response_data st) ->
  P (response_data (fold_left (sent_round cm history) items st)).
Proof.
  intros Hstep. revert st.
  induction items as [|fetched items IH]; intros st HP; [exact HP|].
  cbn [fold_left]. apply IH.
  destruct (sent_round_cases cm history st fetched)
    as [->|(item & st' & _ & Hbody & ->)]; [exact HP|].
  apply body_responses in Hbody as [->|(id & sent & len & ->)]; [exact HP|].
  now apply Hstep.
Qed.

(** ** Initiations *)

Lemma add_initiation_dated sent m recipient :
  map_Forall (fun _ i => dated i) m ->
  map_Forall (fun _ i => dated i) (add_initiation sent m recipient).
Proof.
  intros Hall. unfold add_initiation. apply map_Forall_insert_2; [|exact Hall].
  unfold dated. cbn [Analyzer.in_count Analyzer.in_dates].
  rewrite length_app. cbn [length].
  destruct (m !! recipient) as [old|] eqn:E; cbn [default from_option].
  - destruct (Hall recipient old E) as [Hcount Hpos].
    unfold id. lia.
  - cbn. lia.
Qed.

(** X21. In the initiations that the scan of the sent items collects,
    every contact has at least one initiation and exactly one date for
    each. *)
Theorem sent_scan_counts_match_dates (config : gmap string Q)
    (max_analysis_emails : Z)
    (conversation_history : gmap string (list history_message))
    (max_items : Z) (sent_items_collection : list (pyres sent_item))
    (self : Analyzer.analyzer) (contact : string) (i : Analyzer.initiation) :
  sender_initiations
    (collected (analyze_sent_items config max_analysis_emails
                  conversation_history max_items sent_items_collection self))
    !! contact = Some i ->
  Analyzer.in_count i = Z.of_nat (length (Analyzer.in_dates i))
  /\ (0 < Analyzer.in_count i)%Z.
Proof.
  unfold analyze_sent_items. cbn [collected]. intros Hi.
  revert contact i Hi.
  apply (scan_initiations_invariant
           (fun m => map_Forall (fun _ i => dated i) m)).
  - intros sent m raw. apply add_initiation_dated.
  - apply map_Forall_empty.
Qed.

Lemma sent_result_collected :
  analyze_sent_items ∅ 5000 Cases.sample_history 0 Cases.sent_folder
    Cases.aliased_analysis = Cases.sent_result.
Proof. vm_compute. reflexivity. Qed.

Lemma sent_scan_counts_match_dates_witness :
  match sender_initiations (collected Cases.sent_result)
          !! "ann@example.com" with
  | Some i =>
      Analyzer.in_count i = Z.of_nat (length (Analyzer.in_dates i))
      /\ (0 < Analyzer.in_count i)%Z
  | None => False
  end.
Proof.
  destruct (sender_initiations (collected Cases.sent_result)
              !! "ann@example.com") as [i|] eqn:Hi;
    [|vm_compute in Hi; discriminate Hi].
  rewrite <- sent_result_collected in Hi.
  exact (sent_scan_counts_match_dates _ _ _ _ _ _ _ _ Hi).
Defined.

(** ** Replies *)

Lemma find_parent_earlier thread_history sent parent :
  find_parent thread_history sent = Some parent ->
  exists received,
    received_time_of parent = Some received /\ (received < sent)%Z.
Proof.
  unfold find_parent. intros H. apply find_some in H as [_ H].
  destruct (received_time_of parent) as [received|]; [|discriminate].
  exists received. split; [reflexivity|]. now apply Z.ltb_lt.
Qed.

Lemma add_response_after_parent cm history id sent body_len m :
  map_Forall (fun _ rs => rs <> [] /\ Forall after_parent rs) m ->
  map_Forall (fun _ rs => rs <> [] /\ Forall after_parent rs)
    (add_response cm history id sent body_len m).
Proof.
  intros Hall. unfold add_response.
  destruct (find_parent _ sent) as [parent|] eqn:Hparent; [|exact Hall].
  apply find_parent_earlier in Hparent as (received & Hreceived & Hlt).
  rewrite Hreceived. apply map_Forall_insert_2; [|exact Hall].
  set (parent_sender := normalize_optional cm _).
  split; [now destruct (default [] (m !! parent_sender))|].
  apply Forall_app. split.
  - destruct (m !! parent_sender) as [rs|] eqn:E; [|apply Forall_nil; exact I].
    now destruct (Hall parent_sender rs E).
  - apply Forall_singleton. unfold after_parent.
    cbn [Analyzer.response_time].
    apply Qlt_shift_div_l; [reflexivity|]. rewrite Qmult_0_l.
    change 0%Q with (inject_Z 0). rewrite <- Zlt_Qlt. lia.
Qed.

Lemma valid_responses_all (rs : list Analyzer.response) :
  Forall after_parent rs -> Analyzer.valid_responses_of rs = rs.
Proof.
  unfold Analyzer.valid_responses_of, after_parent.
  induction 1 as [|r rs Hr Hrs IH]; [reflexivity|].
  cbn [List.filter].
  assert (Hle : Qle_bool 0 (Analyzer.response_time r) = true)
    by (apply Qle_bool_iff; lra).
  now rewrite Hle, IH.
Qed.

(** X22. Every reply that the scan of the sent items records was sent
    after the message it answers and no contact has an empty list of
    replies, so the importance model counts all recorded replies. *)
Theorem sent_scan_replies_are_valid (config : gmap string Q)
    (max_analysis_emails : Z)
    (conversation_history : gmap string (list history_message))
    (max_items : Z) (sent_items_collection : list (pyres sent_item))
    (self : Analyzer.analyzer) (contact : string)
    (replies : list Analyzer.response) :
  response_data
    (collected (analyze_sent_items config max_analysis_emails
                  conversation_history max_items sent_items_collection self))
    !! contact = Some replies ->
  replies <> []
  /\ (forall r, In r replies -> (0 < Analyzer.response_time r)%Q)
  /\ Analyzer.valid_responses_of replies = replies.
Proof.
  unfold analyze_sent_items. cbn [collected]. intros Hr.
  assert (H : replies <> [] /\ Forall after_parent replies).
  { revert contact replies Hr.
    apply (scan_responses_invariant
             (fun m => map_Forall
                         (fun _ rs => rs <> [] /\ Forall after_parent rs) m)).
    - intros id sent body_len m. apply add_response_after_parent.
    - apply map_Forall_empty. }
  destruct H as [Hne Hall]. split; [exact Hne|]. split.
  - intros r Hin. rewrite List.Forall_forall in Hall. now apply Hall.
  - now apply valid_responses_all.
Qed.

Lemma sent_scan_replies_are_valid_witness :
  match response_data (collected Cases.sent_result)
          !! "ann@example.com" with
  | Some replies =>
      replies <> [] /\ Analyzer.valid_responses_of replies = replies
  | None => False
  end.
Proof.
  destruct (response_data (collected Cases.sent_result)
              !! "ann@example.com") as [replies|] eqn:Hr;
    [|vm_compute in Hr; discriminate Hr].
  rewrite <- sent_result_collected in Hr.
  destruct (sent_scan_replies_are_valid _ _ _ _ _ _ _ _ Hr) as (H1 & _ & H3).
  split; assumption.
Defined.

(** ** Without a conversation history *)

Lemma add_response_no_history cm id sent body_len m :
  add_response cm ∅ id sent body_len m = m.
Proof. unfold add_response. now rewrite lookup_empty. Qed.

Lemma contact_record_no_replies config cm si stats contact d :
  Analyzer.contact_record config cm ∅ si stats contact = Some d ->
  Analyzer.reply_count d = 0%Z.
Proof.
  unfold Analyzer.contact_record.
  assert (Hnone : Analyzer.all_responses_of ∅
                    (Analyzer.possible_identities cm contact) = []).
  { unfold Analyzer.all_responses_of.
    induction (Analyzer.possible_identities cm contact) as [|i l IH];
      [reflexivity|].
    cbn [flat_map]. now rewrite lookup_empty, IH. }
  rewrite Hnone.
  assert (Hzero : Analyzer.reply_component config [] = (0%Q, 0%Z, []))
    by (unfold Analyzer.reply_component; now destruct (Qle_bool _ _)).
  rewrite Hzero. destruct (0 <? _)%Z; [|discriminate].
  intros Heq. now injection Heq as <-.
Qed.

(** X23. With an empty conversation history the scan of the sent items
    records no reply at all, and no contact of the new scores has any
    reply counted. *)
Theorem sent_scan_without_history (config : gmap string Q)
    (max_analysis_emails max_items : Z)
    (sent_items_collection : list (pyres sent_item))
    (self : Analyzer.analyzer) :
  let result :=
    analyze_sent_items config max_analysis_emails ∅ max_items
      sent_items_collection self in
  response_data (collected result) = ∅
  /\ forall c d, In (c, d) (new_sender_scores result) ->
       Analyzer.reply_count d = 0%Z.
Proof.
  cbn zeta. unfold analyze_sent_items. cbn [collected new_sender_scores].
  set (st := fold_left _ _ _).
  assert (Hempty : response_data st = ∅).
  { subst st.
    apply (scan_responses_invariant (fun m => m = ∅)); [|reflexivity].
    intros id sent body_len m ->. apply add_response_no_history. }
  split; [exact Hempty|]. rewrite Hempty.
  intros c d Hin. unfold Analyzer._calculate_contact_importance in Hin.
  apply ModelProps.normalize_scores_fields in Hin
    as (d0 & Hin & Hreplies & _).
  rewrite Hreplies. unfold Analyzer.raw_sender_scores in Hin.
  apply list_elem_of_In, list_elem_of_omap in Hin as (contact & _ & Hrec).
  destruct (Analyzer.contact_record _ _ _ _ _ contact) as [d1|] eqn:E;
    [|discriminate].
  injection Hrec as _ ->. now apply contact_record_no_replies in E.
Qed.

Lemma sent_scan_without_history_witness :
  response_data (collected Cases.sent_result_without_history) = ∅
  /\ Forall (fun e => Analyzer.reply_count (snd e) = 0%Z)
       (new_sender_scores Cases.sent_result_without_history).
Proof.
  assert (Heval : analyze_sent_items ∅ 5000 ∅ 0 Cases.sent_folder
                    Cases.aliased_analysis
                  = Cases.sent_result_without_history)
    by (vm_compute; reflexivity).
  destruct (sent_scan_without_history ∅ 5000 0 Cases.sent_folder
              Cases.aliased_analysis) as [Hnone Hcounts].
  rewrite Heval in Hnone, Hcounts. split; [exact Hnone|].
  apply List.Forall_forall. intros [c d] Hin. now apply (Hcounts c d).
Defined.

(** The conversation history is only ever read, so the scan runs on an
    empty one: it then files no reply under any contact, in particular none
    under an address that the alias map sends to itself. *)
Lemma sent_scan_files_no_reply (config : gmap string Q)
    (max_analysis_emails max_items : Z)
    (sent_items_collection : list (pyres sent_item))
    (self : Analyzer.analyzer) (contact : string) :
  default []
    (response_data
       (collected (analyze_sent_items config max_analysis_emails ∅ max_items
                     sent_items_collection self)) !! contact)
  = [].
Proof.
  unfold analyze_sent_items. cbn [collected].
  set (st := fold_left _ _ _).
  assert (Hempty : response_data st = ∅).
  { subst st.
    apply (scan_responses_invariant (fun m => m = ∅)); [|reflexivity].
    intros id sent body_len m ->. apply add_response_no_history. }
  now rewrite Hempty, lookup_empty.
Qed.

(** ** The contacts of the scan *)

Lemma normalize_optional_normal cm raw :
  well_formed cm -> normal_form cm (normalize_optional cm raw).
Proof.
  intros Hwf. unfold normal_form.
  destruct raw as [c|]; [|now left]. cbn [normalize_optional].
  destruct (String.eqb_spec c "") as [->|Hc]; [now left|]. right.
  rewrite (AnalyzerProps.normalize_nonempty_spec cm
             (Analyzer._normalize_contact cm c))
    by now apply AnalyzerProps.normalize_result_nonempty.
  rewrite (AnalyzerProps.normalize_nonempty_spec cm c Hc).
  destruct (has_at c) eqn:Hat.
  - now rewrite has_at_lower, Hat, lower_idem.
  - destruct (cm !! lower c) as [v|] eqn:Hv.
    + destruct (Hwf _ _ Hv) as [Hv1 Hv2]. now rewrite Hv1.
    + now rewrite has_at_lower, Hat, lower_idem, Hv.
Qed.

(** X24. Every contact under which the scan of the sent items files an
    initiation or a reply is the placeholder for an unknown contact or a
    fixed point of the normalization, provided the alias map holds
    lower-case addresses. *)
Theorem sent_scan_contacts_normalized (config : gmap string Q)
    (max_analysis_emails : Z)
    (conversation_history : gmap string (list history_message))
    (max_items : Z) (sent_items_collection : list (pyres sent_item))
    (self : Analyzer.analyzer) (contact : string) :
  well_formed (Analyzer.an_contact_map self) ->
  let st :=
    collected (analyze_sent_items config max_analysis_emails
                 conversation_history max_items sent_items_collection self) in
  is_Some (sender_initiations st !! contact)
  \/ is_Some (response_data st !! contact) ->
  contact = "unknown"
  \/ Analyzer._normalize_contact (Analyzer.an_contact_map self) contact
     = contact.
Proof.
  intros Hwf. cbn zeta. unfold analyze_sent_items. cbn [collected].
  set (cm := Analyzer.an_contact_map self) in *.
  intros [[i Hi]|[rs Hrs]].
  - revert contact i Hi.
    apply (scan_initiations_invariant
             (fun m => map_Forall (fun c _ => normal_form cm c) m));
      [|apply map_Forall_empty].
    intros sent m raw Hall. unfold add_initiation.
    apply map_Forall_insert_2; [|exact Hall].
    now apply normalize_optional_normal.
  - revert contact rs Hrs.
    apply (scan_responses_invariant
             (fun m => map_Forall (fun c _ => normal_form cm c) m));
      [|apply map_Forall_empty].
    intros id sent body_len m Hall. unfold add_response.
    repeat case_match; try exact Hall.
    apply map_Forall_insert_2; [|exact Hall].
    now apply normalize_optional_normal.
Qed.

Lemma sent_scan_contacts_normalized_witness :
  Analyzer._normalize_contact Samples.sample_aliases "ann@example.com"
  = "ann@example.com".
Proof.
  assert (Hwf : well_formed (Analyzer.an_contact_map Cases.aliased_analysis)).
  { intros k v Hkv. cbn [Analyzer.an_contact_map Cases.aliased_analysis] in Hkv.
    unfold Samples.sample_aliases in Hkv.
    apply lookup_singleton_Some in Hkv as [_ <-]. split; reflexivity. }
  destruct (sent_scan_contacts_normalized ∅ 5000 Cases.sample_history 0
              Cases.sent_folder Cases.aliased_analysis "ann@example.com" Hwf)
    as [Hunknown|Hnormal].
  - left. rewrite sent_result_collected. vm_compute. eexists. reflexivity.
  - discriminate Hunknown.
  - exact Hnormal.
Defined.

End SentProps.

(** * Properties of config.py *)

Module ConfigProps.
Import Config.
Local Open Scope string_scope.

Lemma load_parsed (user_config : gmap string json) :
  load_config (Parsed user_config) = user_config ∪ DEFAULT_CONFIG.
Proof.
  unfold load_config, update.
  destruct (user_config !! "llm_config") as [user_section|] eqn:Huser;
    [|reflexivity].
  assert (Hmerged : (user_config ∪ DEFAULT_CONFIG) !! "llm_config"
                    = Some user_section)
    by now apply lookup_union_Some_l.
  rewrite Hmerged.
  destruct user_section as [| | | | |section]; try reflexivity.
  rewrite (idemp_L (∪) section). now apply insert_id.
Qed.

(** X25. The loaded configuration gives every key the value of the file
    when the file is a JSON object that has the key, and the default value
    otherwise. The section for the LLM is no exception: the section of the
    file replaces the default section as a whole, so a default of that
    section that the file does not repeat is gone. *)
Theorem load_config_user_values_win (file : config_file) (key : string) :
  load_config file !! key
  = match file with
    | Parsed user_config =>
        match user_config !! key with
        | Some value => Some value
        | None => DEFAULT_CONFIG !! key
        end
    | _ => DEFAULT_CONFIG !! key
    end.
Proof.
  destruct file as [| |user_config]; [reflexivity..|].
  rewrite load_parsed.
  destruct (user_config !! key) as [value|] eqn:Huser.
  - now apply lookup_union_Some_l.
  - now rewrite lookup_union_r.
Qed.

Lemma load_config_user_values_win_witness :
  load_config (Parsed Cases.dummy_config) !! "llm_config"
  = Some (JObj Cases.dummy_section)
  /\ Cases.dummy_section !! "timeout" = None
  /\ llm_config_defaults !! "timeout" = Some (JNum 120)
  /\ load_config (Parsed Cases.dummy_config) !! "topic_weight"
     = Some (JNum (25 # 100)).
Proof.
  rewrite !load_config_user_values_win.
  repeat split; vm_compute; reflexivity.
Defined.

(** X26. Whatever the file holds, the loaded configuration has every key
    of the defaults; a file that is absent or unreadable gives exactly the
    defaults. *)
Theorem load_config_keeps_default_keys (file : config_file) :
  dom DEFAULT_CONFIG ⊆ dom (load_config file)
  /\ (file = NotFound \/ file = Unreadable ->
      load_config file = DEFAULT_CONFIG).
Proof.
  split.
  - intros key Hkey. apply elem_of_dom in Hkey. apply elem_of_dom.
    rewrite load_config_user_values_win.
    destruct file as [| |user_config]; [exact Hkey..|].
    destruct (user_config !! key); [eexists; reflexivity|exact Hkey].
  - intros [->| ->]; reflexivity.
Qed.

End ConfigProps.
